(** * Flight itinerary extraction pipeline (eduardo.py): a shallow embedding

    The development follows the pipeline of [src/eduardo.py]:
    the batch planner ([generate_xml_query_batch]), the result parser
    ([parse_results] and its helpers), the cleaning and enrichment of the
    leg table ([clean_raw_flight_data], [enrich_flight_data]), the itinerary
    fold ([transform_flight_structure]) and the metrics step
    ([calculate_flight_metrics]).

    Python values are modelled as the code has them: [str] as [string],
    [int] as [Z], a value that may be [None] as an [option], a [dict] as a
    [gmap], a pandas frame as the list of its rows in frame order.  Code
    that raises returns a sum with the exception on the left; the module
    level dictionaries, the wall clock and the logger are threaded through
    the parser as an explicit [world]. *)

From Stdlib Require Import ZArith QArith String List.
From Stdlib Require Import Floats.SpecFloat.
From stdpp Require Import gmap strings list fin_maps pretty sorting.

Open Scope string_scope.
Open Scope list_scope.
Open Scope Z_scope.

(** ** Python values and exceptions *)

(** The exceptions the modelled code can raise. *)
Inductive exn : Type :=
  | KeyError (key : string)
  | ValueError (msg : string)
  | TypeError (msg : string).

(** A value stored in the timestamp fields of [FlightDetails]: [None] at
    creation, the attribute text of a leg element, or the [datetime] object
    read from the clock (here the clock reading itself). *)
Inductive pyval : Type :=
  | VNone
  | VStr (s : string)
  | VDatetime (t : Z).

#[global] Instance exn_eq_dec : EqDecision exn.
Proof. solve_decision. Defined.
#[global] Instance pyval_eq_dec : EqDecision pyval.
Proof. solve_decision. Defined.

(** Truth value of an [Optional[str]]: [None] and [''] are falsy. *)
Definition truthy_str (v : option string) : bool :=
  match v with
  | None => false
  | Some s => negb (bool_decide (s = ""))
  end.

(** Truth value of an [int]. *)
Definition truthy_int (n : Z) : bool := negb (n =? 0).

(** ** models.py *)

Inductive FlightType : Type :=
  | FT_A | FT_B | FT_C | FT_D | FT_E | FT_F | FT_G | FT_H | FT_J | FT_K | FT_L
  | FT_M | FT_O | FT_P | FT_Q | FT_R | FT_S | FT_T | FT_U | FT_V | FT_W | FT_X.

Definition FlightType_name (ft : FlightType) : string :=
  match ft with
  | FT_A => "A" | FT_B => "B" | FT_C => "C" | FT_D => "D" | FT_E => "E"
  | FT_F => "F" | FT_G => "G" | FT_H => "H" | FT_J => "J" | FT_K => "K"
  | FT_L => "L" | FT_M => "M" | FT_O => "O" | FT_P => "P" | FT_Q => "Q"
  | FT_R => "R" | FT_S => "S" | FT_T => "T" | FT_U => "U" | FT_V => "V"
  | FT_W => "W" | FT_X => "X"
  end.

(** A member of a plain [Enum] is always truthy. *)
Definition truthy_FlightType (_ : FlightType) : bool := true.

#[global] Instance FlightType_eq_dec : EqDecision FlightType.
Proof. solve_decision. Defined.

(** ** eduardo.py: [QueryType] *)

Inductive QueryType : Type := ORIGIN | DESTINATION.

Definition QueryType_name (q : QueryType) : string :=
  match q with ORIGIN => "ORIGIN" | DESTINATION => "DESTINATION" end.

#[global] Instance QueryType_eq_dec : EqDecision QueryType.
Proof. solve_decision. Defined.

(** ** xml.etree.ElementTree elements *)

#[warnings="-register-all"]
Inductive Element : Type :=
  | Elem (tag : string) (attrib : gmap string string) (text : option string)
         (children : list Element).

Definition tag (e : Element) : string :=
  match e with Elem t _ _ _ => t end.
Definition attrib (e : Element) : gmap string string :=
  match e with Elem _ a _ _ => a end.
Definition text (e : Element) : option string :=
  match e with Elem _ _ x _ => x end.
Definition children (e : Element) : list Element :=
  match e with Elem _ _ _ cs => cs end.

(** [e.iter('*')]: the element and all its descendants in document order. *)
Fixpoint iter (e : Element) : list Element :=
  match e with
  | Elem _ _ _ cs =>
      e :: (fix iter_all (l : list Element) : list Element :=
              match l with
              | [] => []
              | c :: l' => iter c ++ iter_all l'
              end) cs
  end.

(** [e.iter(t)]: the same walk restricted to the elements tagged [t]. *)
Definition iter_tag (t : string) (e : Element) : list Element :=
  filter (λ c, tag c = t) (iter e).

(** [child.attrib[k]], which raises [KeyError] on a missing key. *)
Definition getitem (a : gmap string string) (k : string) : exn + string :=
  match a !! k with
  | Some v => inr v
  | None => inl (KeyError k)
  end.

(** ** auxiliary.py *)

Definition empty_columns (keys : list string) : gmap string (list string) :=
  list_to_map ((λ k, (k, [])) <$> keys).

Definition carrier_dict : gmap string (list string) :=
  empty_columns ["code"; "name"; "shortName"].
Definition city_dict : gmap string (list string) :=
  empty_columns ["code"; "country"; "name"].
Definition airport_dict : gmap string (list string) :=
  empty_columns ["city"; "code"; "latitude"; "longitude"; "name"].
Definition aircraft_dict : gmap string (list string) :=
  empty_columns ["code"; "name"; "width"].

(** [append_to_dict_lists]: for every key of the row that the target has,
    append the row's value to the target's list. *)
Definition append_to_dict_lists (target_dict : gmap string (list string))
    (row_dict : gmap string string) : gmap string (list string) :=
  map_fold (λ key v target,
              match target !! key with
              | Some l => <[key := l ++ [v]]> target
              | None => target
              end) target_dict row_dict.

(** ** The ambient state of the parser *)

Inductive log_entry : Type :=
  | LogWarning (msg : string)
  | LogError (msg : string).

#[global] Instance log_entry_eq_dec : EqDecision log_entry.
Proof. solve_decision. Defined.

(** [dictionaries] is the module-level table of the four reference
    accumulators, keyed by tag; [clock k] is what the [k]-th call of
    [datetime.datetime.now()] returns; [logged] collects the records sent to
    the logger at warning level and above, oldest first. *)
Record world : Type := World {
  dictionaries : gmap string (gmap string (list string));
  clock : nat → Z;
  ticks : nat;
  logged : list log_entry
}.

Definition initial_dictionaries : gmap string (gmap string (list string)) :=
  {[ "carrier" := carrier_dict; "city" := city_dict;
     "airport" := airport_dict; "aircraft" := aircraft_dict ]}.

Definition set_dictionaries (d : gmap string (gmap string (list string)))
    (w : world) : world :=
  World d (clock w) (ticks w) (logged w).

(** [datetime.datetime.now()] *)
Definition now (w : world) : Z * world :=
  (clock w (ticks w), World (dictionaries w) (clock w) (S (ticks w)) (logged w)).

(** [logger.error(msg)] *)
Definition logger_error (msg : string) (w : world) : world :=
  World (dictionaries w) (clock w) (ticks w) (logged w ++ [LogError msg]).

(** ** eduardo.py: the result parser *)

Record FlightDetails : Type := mkFlightDetails {
  fd_flight_type : FlightType;
  fd_s_id : Z;
  fd_f_id : option string;
  fd_carrier : option string;
  fd_origin : option string;
  fd_destination : option string;
  fd_depart_dt : pyval;
  fd_arrive_dt : pyval;
  fd_aircraft : option string;
  fd_width : option string;
  fd_query_type : QueryType;
  fd_batch_num : Z
}.

(** One row of the leg table, as [create_flight_row] builds it; [lr_index]
    is the frame index [row]. *)
Record LegRecord : Type := mkLegRecord {
  lr_index : Z;
  lr_flight_type : string;
  lr_origin : option string;
  lr_destination : option string;
  lr_flight_no : option string;
  lr_airline_code : option string;
  lr_aircraft : option string;
  lr_width : option string;
  lr_solution_id : Z;
  lr_departure_time : pyval;
  lr_arrival_time : pyval;
  lr_query_type : string;
  lr_batch_number : Z
}.

#[global] Instance FlightDetails_eq_dec : EqDecision FlightDetails.
Proof. solve_decision. Defined.
#[global] Instance LegRecord_eq_dec : EqDecision LegRecord.
Proof. solve_decision. Defined.

Definition process_dict_updates (child : Element) (w : world) : world :=
  match dictionaries w !! tag child with
  | Some target =>
      set_dictionaries
        (<[tag child := append_to_dict_lists target (attrib child)]>
           (dictionaries w)) w
  | None => w
  end.

Definition update_flight_info (child : Element) (state : FlightDetails)
    : exn + FlightDetails :=
  match getitem (attrib child) "carrier" with
  | inl e => inl e
  | inr carrier =>
      match getitem (attrib child) "number" with
      | inl e => inl e
      | inr number =>
          inr (mkFlightDetails
                 (fd_flight_type state) (fd_s_id state)
                 (Some (carrier +:+ number)) (Some carrier)
                 (fd_origin state) (fd_destination state)
                 (fd_depart_dt state) (fd_arrive_dt state)
                 (fd_aircraft state) (fd_width state)
                 (fd_query_type state) (fd_batch_num state))
      end
  end.

Definition set_leg (state : FlightDetails) (origin destination : option string)
    (depart_dt arrive_dt : pyval) : FlightDetails :=
  mkFlightDetails
    (fd_flight_type state) (fd_s_id state) (fd_f_id state) (fd_carrier state)
    origin destination depart_dt arrive_dt
    (fd_aircraft state) (fd_width state)
    (fd_query_type state) (fd_batch_num state).

(** The four assignments of the [try] block run in order and the first
    missing attribute raises [KeyError]; the handler then overwrites all four
    fields, so what was assigned before the raise is not observable. *)
Definition update_leg_info (child : Element) (state : FlightDetails)
    (w : world) : FlightDetails * world :=
  match attrib child !! "origin", attrib child !! "destination",
        attrib child !! "departure", attrib child !! "arrival" with
  | Some o, Some d, Some dep, Some arr =>
      (set_leg state (Some o) (Some d) (VStr dep) (VStr arr), w)
  | _, _, _, _ =>
      let '(t, w') := now w in
      (set_leg state (Some "") (Some "") (VDatetime t) (VDatetime t), w')
  end.

Definition update_aircraft_info (child : Element) (state : FlightDetails)
    : exn + FlightDetails :=
  match getitem (attrib child) "name" with
  | inl e => inl e
  | inr name =>
      match getitem (attrib child) "width" with
      | inl e => inl e
      | inr width =>
          inr (mkFlightDetails
                 (fd_flight_type state) (fd_s_id state)
                 (fd_f_id state) (fd_carrier state)
                 (fd_origin state) (fd_destination state)
                 (fd_depart_dt state) (fd_arrive_dt state)
                 (Some name) (Some width)
                 (fd_query_type state) (fd_batch_num state))
      end
  end.

(** Dispatch on the tag; a tag without a handler leaves the state alone. *)
Definition update_flight_details (child : Element) (state : FlightDetails)
    (w : world) : (exn + FlightDetails) * world :=
  if decide (tag child = "flight") then (update_flight_info child state, w)
  else if decide (tag child = "leg") then
    let '(state', w') := update_leg_info child state w in (inr state', w')
  else if decide (tag child = "aircraft") then
    (update_aircraft_info child state, w)
  else (inr state, w).

Definition create_flight_row (state : FlightDetails) (row : Z) : LegRecord :=
  mkLegRecord row
    (FlightType_name (fd_flight_type state))
    (fd_origin state) (fd_destination state)
    (fd_f_id state) (fd_carrier state)
    (fd_aircraft state) (fd_width state)
    (fd_s_id state)
    (fd_depart_dt state) (fd_arrive_dt state)
    (QueryType_name (fd_query_type state))
    (fd_batch_num state).

Definition validate_flight_details (flight_details : FlightDetails) : bool :=
  truthy_FlightType (fd_flight_type flight_details)
  && truthy_str (fd_origin flight_details)
  && truthy_str (fd_destination flight_details)
  && truthy_str (fd_f_id flight_details)
  && truthy_str (fd_carrier flight_details)
  && truthy_int (fd_s_id flight_details).

(** Returns the new row, [None] for a tag other than [aircraft], and raises
    [ValueError] for an aircraft element on an invalid state. *)
Definition handle_create_df_row (child : Element) (state : FlightDetails)
    (row : Z) : exn + option LegRecord :=
  if decide (tag child = "aircraft") then
    if validate_flight_details state then inr (Some (create_flight_row state row))
    else inl (ValueError "Flight details are not valid")
  else inr None.

(** The variables of the loop of [parse_results]. *)
Record loop_state : Type := LoopState {
  dfs : list LegRecord;
  s_id : Z;
  row : Z;
  started_yet : bool;
  state : option FlightDetails
}.

Definition initial_loop_state : loop_state := LoopState [] 0 0 false None.

Definition new_FlightDetails (flight_type : FlightType) (s_id : Z)
    (query_type : QueryType) (batch_num : Z) : FlightDetails :=
  mkFlightDetails flight_type s_id None None None None VNone VNone None None
    query_type batch_num.

(** One iteration of the loop over the elements.  An instance of the
    [FlightDetails] dataclass is truthy, so [if not state] tests for [None].
    Only [ValueError] is caught; a [KeyError] leaves the loop. *)
Definition parse_child (flight_type : FlightType) (query_type : QueryType)
    (batch_num : Z) (ls : loop_state) (child : Element) (w : world)
    : (exn + loop_state) * world :=
  let w := process_dict_updates child w in
  let started_yet :=
    if decide (tag child = "itineraryFullDetail") then true
    else started_yet ls in
  if negb started_yet then
    (inr (LoopState (dfs ls) (s_id ls) (row ls) started_yet (state ls)), w)
  else
    let '(s_id, state) :=
      if decide (tag child = "solution") then
        (s_id ls + 1,
         Some (new_FlightDetails flight_type (s_id ls + 1) query_type batch_num))
      else (s_id ls, state ls) in
    match state with
    | None => (inr (LoopState (dfs ls) s_id (row ls) started_yet None), w)
    | Some st =>
        match update_flight_details child st w with
        | (inl e, w) => (inl e, w)
        | (inr st, w) =>
            match handle_create_df_row child st (row ls) with
            | inr (Some df) =>
                (inr (LoopState (dfs ls ++ [df]) s_id (row ls + 1)
                        started_yet (Some st)), w)
            | inr None =>
                (inr (LoopState (dfs ls) s_id (row ls) started_yet (Some st)), w)
            | inl (ValueError e) =>
                (inr (LoopState (dfs ls) s_id (row ls) started_yet (Some st)),
                 logger_error ("Skipping invalid row: " +:+ e) w)
            | inl e => (inl e, w)
            end
        end
    end.

(** The loop itself: the elements are consumed in order and the first
    uncaught exception ends the walk. *)
Fixpoint parse_children (flight_type : FlightType) (query_type : QueryType)
    (batch_num : Z) (ls : loop_state) (l : list Element) (w : world)
    : (exn + loop_state) * world :=
  match l with
  | [] => (inr ls, w)
  | child :: l' =>
      match parse_child flight_type query_type batch_num ls child w with
      | (inl e, w') => (inl e, w')
      | (inr ls', w') =>
          parse_children flight_type query_type batch_num ls' l' w'
      end
  end.

(** [parse_results], from the element tree that [et.fromstring] builds of
    the response text.  The result is [(dfs, row, s_id)]. *)
Definition parse_results (results_tree : Element) (flight_type : FlightType)
    (query_type : QueryType) (batch_num : Z) (w : world)
    : (exn + (list LegRecord * Z * Z)) * world :=
  match parse_children flight_type query_type batch_num initial_loop_state
          (iter results_tree) w with
  | (inl e, w') => (inl e, w')
  | (inr ls, w') => (inr (dfs ls, row ls, s_id ls), w')
  end.

(** A world at start-up: empty accumulators, nothing logged. *)
Definition initial_world (clk : nat → Z) : world :=
  World initial_dictionaries clk 0%nat [].

(** ** Sample documents *)

Definition attrs (l : list (string * string)) : gmap string string :=
  list_to_map l.

Definition leaf (t : string) (l : list (string * string)) : Element :=
  Elem t (attrs l) None [].

Definition sample_flight : Element :=
  leaf "flight" [("carrier", "KQ"); ("number", "100")].
Definition sample_leg : Element :=
  leaf "leg" [("origin", "NBO"); ("destination", "MBA");
              ("departure", "2024-01-01T10:00+03:00");
              ("arrival", "2024-01-01T11:00+03:00")].
Definition sample_leg2 : Element :=
  leaf "leg" [("origin", "MBA"); ("destination", "DAR");
              ("departure", "2024-01-01T12:00+03:00");
              ("arrival", "2024-01-01T13:30+03:00")].
Definition sample_leg_partial : Element :=
  leaf "leg" [("origin", "NBO"); ("departure", "2024-01-01T10:00+03:00")].
Definition sample_aircraft : Element :=
  leaf "aircraft" [("name", "Boeing 737"); ("width", "NARROW")].
Definition sample_aircraft_ref : Element :=
  leaf "aircraft" [("code", "737"); ("name", "Boeing 737"); ("width", "NARROW")].
Definition sample_carrier_ref : Element :=
  leaf "carrier" [("code", "KQ"); ("name", "Kenya Airways"); ("shortName", "Kenya")].

(** A response with two reference elements, then one itinerary of two legs
    flown under one flight element. *)
Definition sample_results : Element :=
  Elem "result" ∅ None
    [ Elem "data" ∅ None [sample_carrier_ref; sample_aircraft_ref];
      Elem "itineraryFullDetail" ∅ None
        [ Elem "solution" ∅ None
            [ sample_flight; sample_leg; sample_aircraft;
              sample_leg2; sample_aircraft ] ] ].

Definition sample_clock : nat → Z := λ k, 1704103200 + Z.of_nat k.

(** ** eduardo.py: the batch planner *)

(** [range(start, stop, step)] as a list; a zero step raises. *)
Definition py_range (start stop step : Z) : exn + list Z :=
  if decide (step = 0) then inl (ValueError "range() arg 3 must not be zero")
  else
    let n :=
      if decide (0 < step) then (stop - start + step - 1) `div` step
      else (start - stop - step - 1) `div` (- step) in
    inr ((λ k : nat, start + Z.of_nat k * step) <$> seq 0 (Z.to_nat n)).

(** A slice bound is counted from the end when negative and clipped to the
    length. *)
Definition slice_bound (len i : Z) : Z :=
  if decide (i < 0) then Z.max (i + len) 0 else Z.min i len.

(** [items[i:j]] *)
Definition py_slice {A : Type} (items : list A) (i j : Z) : list A :=
  let len := Z.of_nat (length items) in
  let lo := slice_bound len i in
  let hi := slice_bound len j in
  take (Z.to_nat (hi - lo)) (drop (Z.to_nat lo) items).

(** [[items[i:i + size] for i in range(0, len(items), size)]] *)
Definition batch_list {A : Type} (items : list A) (size : Z) : exn + list (list A) :=
  match py_range 0 (Z.of_nat (length items)) size with
  | inl e => inl e
  | inr starts => inr ((λ i, py_slice items i (i + size)) <$> starts)
  end.

(** [et.SubElement(parent, tag)] followed by [element.text = text]: the new
    element becomes the last child of [parent]. *)
Definition SubElement_text (parent : Element) (t : string) (x : string) : Element :=
  match parent with
  | Elem pt pa px cs => Elem pt pa px (cs ++ [Elem t ∅ (Some x) []])
  end.

(** [enumerate(l, start)] *)
Fixpoint enumerate {A : Type} (l : list A) (start : Z) : list (Z * A) :=
  match l with
  | [] => []
  | x :: l' => (start, x) :: enumerate l' (start + 1)
  end.

Section BatchPlanner.

(** The three code lists read from the workbook at import time, the
    parameter sheet behind [data_manager], and the text of today's date
    at the [k]-th query that is built. *)
Variables origins_iata_codes destinations_iata_codes
          origin_and_destination_iata_codes : list string.
Variable get_parameters_dict : string → gmap string string.
Variable get_parameter_value : string → string.
Variable today : nat → string.

(** [create_base_xml] returns the root and the slice element inside it;
    the caller then adds children to the slice through that second
    reference.  The root is therefore given as the tree around the slice
    element, to be closed once the slice is complete. *)
Definition create_base_xml (flight_type : FlightType) (k : nat)
    : (Element → Element) * Element :=
  let slice_element :=
    Elem "slice" ∅ None
      [ Elem "date" ∅ (Some (today k)) [];
        Elem "minConnectionTime" ∅
          (Some (get_parameter_value "minConnectionTime")) [];
        Elem "maxStopCount" ∅ (Some (get_parameter_value "maxStopCount")) [];
        Elem "daysAfter" ∅ (Some (get_parameter_value "daysAfter")) [] ] in
  let search := λ slice_element,
    Elem "search" (get_parameters_dict "search") None
      [ Elem "inputs" ∅ None
          [ Elem "searchControl" (get_parameters_dict "searchControl") None
              [ Elem "permittedServiceType" ∅
                  (Some (FlightType_name flight_type)) [];
                slice_element ] ];
        Elem "summarizer" ∅ (Some (get_parameter_value "summarizer")) [] ] in
  (search, slice_element).

Definition primary_element (query_type : QueryType) : string :=
  match query_type with ORIGIN => "origin" | DESTINATION => "destination" end.
Definition secondary_element (query_type : QueryType) : string :=
  match query_type with ORIGIN => "destination" | DESTINATION => "origin" end.
Definition primary_codes (query_type : QueryType) : list string :=
  match query_type with
  | ORIGIN => origin_and_destination_iata_codes ++ origins_iata_codes
  | DESTINATION => origin_and_destination_iata_codes ++ destinations_iata_codes
  end.
Definition secondary_codes (query_type : QueryType) : list string :=
  match query_type with
  | ORIGIN => destinations_iata_codes
  | DESTINATION => origins_iata_codes
  end.

(** The body shared by the two modes: a base document, the given primary
    codes, then all the secondary codes. *)
Definition build_query (query_type : QueryType) (flight_type : FlightType)
    (k : nat) (codes : list string) : Element :=
  let '(search, slice_element) := create_base_xml flight_type k in
  let slice_element :=
    foldl (λ s code, SubElement_text s (primary_element query_type) code)
      slice_element codes in
  let slice_element :=
    foldl (λ s code, SubElement_text s (secondary_element query_type) code)
      slice_element (secondary_codes query_type) in
  search slice_element.

Definition generate_xml_query_batch (query_type : QueryType)
    (flight_type : FlightType) (enable_batching : bool) (batch_size : Z)
    : exn + list (Element * Z) :=
  if negb enable_batching then
    inr [(build_query query_type flight_type 0 (primary_codes query_type), 1)]
  else
    match batch_list (primary_codes query_type) batch_size with
    | inl e => inl e
    | inr primary_batches =>
        inr (imap (λ k '(batch_num, batch_codes),
                     (build_query query_type flight_type k batch_codes,
                      batch_num))
               (enumerate primary_batches 1))
    end.

(** The codes a payload carries under a tag, in document order. *)
Definition payload_codes (t : string) (payload : Element) : list string :=
  omap text (iter_tag t payload).

End BatchPlanner.

Definition sample_queries : exn + list (Element * Z) :=
  generate_xml_query_batch ["NBO"; "MBA"; "KIS"] ["DXB"; "LHR"] ["ADD"]
    (λ _, ∅) (λ _, "1") (λ _, "2024-01-01") ORIGIN FT_F true 2.

(** ** pandas frames

    A frame is the list of its rows in frame order; a column that can hold
    a null holds an [option]. *)

Definition set_index (i : Z) (r : LegRecord) : LegRecord :=
  mkLegRecord i (lr_flight_type r) (lr_origin r) (lr_destination r)
    (lr_flight_no r) (lr_airline_code r) (lr_aircraft r) (lr_width r)
    (lr_solution_id r) (lr_departure_time r) (lr_arrival_time r)
    (lr_query_type r) (lr_batch_number r).

(** [pd.concat(frames, ignore_index=True)] *)
Definition pd_concat (frames : list (list LegRecord)) : list LegRecord :=
  imap (λ i r, set_index (Z.of_nat i) r) (concat frames).

(** [left.merge(right, how='inner', on=key)]: every left row, in order, is
    paired with every right row of the same key, in order. *)
Definition merge_inner {L R K : Type} `{EqDecision K} (left : list L)
    (right : list R) (left_on : L → K) (right_on : R → K) : list (L * R) :=
  left ≫= λ l, (λ r, (l, r)) <$> filter (λ r, right_on r = left_on l) right.

(** [df.sort_values(by)]: a stable sort on the key order [le]. *)
Fixpoint sort_insert {A : Type} (le : A → A → bool) (x : A) (l : list A)
    : list A :=
  match l with
  | [] => [x]
  | y :: l' => if le x y then x :: y :: l' else y :: sort_insert le x l'
  end.

Definition sort_values {A : Type} (le : A → A → bool) (df : list A) : list A :=
  foldr (sort_insert le) [] df.

(** The distinct values of a list, first occurrences kept. *)
Fixpoint unique {A : Type} `{EqDecision A} (l : list A) : list A :=
  match l with
  | [] => []
  | x :: l' => x :: filter (λ y, y ≠ x) (unique l')
  end.

(** [df.groupby(key)]: the groups in ascending key order, each with its
    rows in frame order. *)
Definition groupby {A : Type} (key : A → Z) (df : list A) : list (Z * list A) :=
  (λ k, (k, filter (λ r, key r = k) df))
    <$> sort_values Z.leb (unique (key <$> df)).

(** The aggregations ['first'] and ['last'] skip nulls; ['count'] counts the
    values that are not null. *)
Definition agg_first {A B : Type} (col : A → option B) (g : list A) : option B :=
  head (omap col g).
Definition agg_last {A B : Type} (col : A → option B) (g : list A) : option B :=
  last (omap col g).
Definition agg_count {A B : Type} (col : A → option B) (g : list A) : Z :=
  Z.of_nat (length (omap col g)).

(** [sep.join(l)] on strings. *)
Fixpoint str_join (sep : string) (l : list string) : string :=
  match l with
  | [] => ""
  | [x] => x
  | x :: l' => x +:+ sep +:+ str_join sep l'
  end.

(** ['|'.join(list(x))], which raises on an item that is not a string. *)
Definition pipe_join (l : list (option string)) : exn + string :=
  match mapM id l with
  | Some l' => inr (str_join "|" l')
  | None => inl (TypeError "sequence item: expected str instance, NoneType found")
  end.

(** ** Reference tables *)

Record AircraftRow : Type := mkAircraftRow {
  ac_code : string; ac_name : string; ac_width : string }.
Record CarrierRow : Type := mkCarrierRow {
  ca_code : string; ca_name : string; ca_shortName : string }.
Record CityRow : Type := mkCityRow {
  ci_code : string; ci_country : string; ci_name : string }.
Record AirportRow : Type := mkAirportRow {
  ap_city : string; ap_code : string; ap_latitude : string;
  ap_longitude : string; ap_name : string; ap_country : string }.
Record CountryRow : Type := mkCountryRow {
  co_code : string; co_name : string }.

Record ReferenceDataDict : Type := mkReferenceDataDict {
  ref_aircraft : list AircraftRow;
  ref_carrier : list CarrierRow;
  ref_city : list CityRow;
  ref_airport : list AirportRow;
  ref_countries : list CountryRow
}.

(** [reference_data['airport'][airport_column_keys]] *)
Record AirportColumns : Type := mkAirportColumns {
  apc_code : string; apc_name : string; apc_country : string;
  apc_latitude : string; apc_longitude : string }.

Definition airport_columns (a : AirportRow) : AirportColumns :=
  mkAirportColumns (ap_code a) (ap_name a) (ap_country a) (ap_latitude a)
    (ap_longitude a).

(** [reference_data['carrier'][['code', 'name']]] *)
Definition carrier_columns (c : CarrierRow) : string * string :=
  (ca_code c, ca_name c).

#[global] Instance AirportColumns_eq_dec : EqDecision AirportColumns.
Proof. solve_decision. Defined.
#[global] Instance AirportRow_eq_dec : EqDecision AirportRow.
Proof. solve_decision. Defined.
#[global] Instance CarrierRow_eq_dec : EqDecision CarrierRow.
Proof. solve_decision. Defined.
#[global] Instance CountryRow_eq_dec : EqDecision CountryRow.
Proof. solve_decision. Defined.

(** ** eduardo.py: cleaning *)

(** [df[df['Origin'] != '']]; the progress messages, logged at info level,
    are left out here and below. *)
Definition clean_raw_flight_data (df : list LegRecord) : list LegRecord :=
  filter (λ r, lr_origin r ≠ Some "") df.

(** ** eduardo.py: enrichment *)

(** A row of the enriched frame: the leg columns, the columns brought by the
    three joins, and the two timestamps once parsed (microseconds since the
    epoch). *)
Record EnrichedRow : Type := mkEnrichedRow {
  er_leg : LegRecord;
  er_origin_airport : AirportColumns;
  er_destination_airport : AirportColumns;
  er_airline_name : string;
  er_departure_time : Z;
  er_arrival_time : Z
}.

#[global] Instance EnrichedRow_eq_dec : EqDecision EnrichedRow.
Proof. solve_decision. Defined.

(** [list(unknown)[:5]] of the keys of the frame absent from the table.  The
    order in which Python walks a set is not fixed; the keys are taken here
    in the order of their first occurrence in the frame. *)
Definition unknown_sample (keys : list (option string)) (codes : list string)
    : list (option string) :=
  take 5 (filter (λ k, k ∉ (Some <$> codes)) (unique keys)).

(** [repr] of a list of strings. *)
Definition repr_list (l : list (option string)) : string :=
  "[" +:+ str_join ", " ((λ k, match k with
                               | Some s => "'" +:+ s +:+ "'"
                               | None => "None"
                               end) <$> l) +:+ "]".

(** The warnings of one join: the number of rows lost, when the frame got
    shorter, and then the sample of unknown keys, when there is any. *)
Definition join_loss_log (what : string) (sample_label : option string)
    (before_count after_count : nat) (sample : list (option string))
    : list log_entry :=
  if decide (after_count < before_count)%nat then
    LogWarning ("Lost " +:+ pretty (before_count - after_count)%nat
                +:+ " rows when joining " +:+ what +:+ " data")
    :: match sample_label with
       | Some label =>
           if decide (sample = []) then []
           else [LogWarning (label +:+ " (sample): " +:+ repr_list sample)]
       | None => []
       end
  else [].

(** The three joins of [enrich_flight_data], in order. *)
Definition join_origin (flight_data : list LegRecord)
    (reference_data : ReferenceDataDict) : list (LegRecord * AirportColumns) :=
  merge_inner flight_data (airport_columns <$> ref_airport reference_data)
    lr_origin (λ a, Some (apc_code a)).

Definition join_destination (results : list (LegRecord * AirportColumns))
    (reference_data : ReferenceDataDict)
    : list (LegRecord * AirportColumns * AirportColumns) :=
  merge_inner results (airport_columns <$> ref_airport reference_data)
    (λ r, lr_destination r.1) (λ a, Some (apc_code a)).

Definition join_carrier
    (results : list (LegRecord * AirportColumns * AirportColumns))
    (reference_data : ReferenceDataDict)
    : list (LegRecord * AirportColumns * AirportColumns * (string * string)) :=
  merge_inner results (carrier_columns <$> ref_carrier reference_data)
    (λ r, lr_airline_code r.1.1) (λ c, Some c.1).

Section Enrichment.

(** [dateutil.parser.parse] on a string. *)
Variable date_parse : string → exn + Z.

(** [date_parse(x)] on the value of a timestamp column. *)
Definition date_parse_value (x : pyval) : exn + Z :=
  match x with
  | VStr s => date_parse s
  | _ => inl (TypeError "Parser must be a string or character stream")
  end.

Definition parse_times
    (r : LegRecord * AirportColumns * AirportColumns * (string * string))
    : exn + EnrichedRow :=
  match date_parse_value (lr_departure_time r.1.1.1) with
  | inl e => inl e
  | inr dep =>
      match date_parse_value (lr_arrival_time r.1.1.1) with
      | inl e => inl e
      | inr arr => inr (mkEnrichedRow r.1.1.1 r.1.1.2 r.1.2 r.2.2 dep arr)
      end
  end.

(** The departure column is converted first, then the arrival column;
    the first value that does not parse raises. *)
Fixpoint apply_parse (col : LegRecord → pyval)
    (rows : list (LegRecord * AirportColumns * AirportColumns * (string * string)))
    : exn + unit :=
  match rows with
  | [] => inr ()
  | r :: rows' =>
      match date_parse_value (col r.1.1.1) with
      | inl e => inl e
      | inr _ => apply_parse col rows'
      end
  end.

Fixpoint parse_all
    (rows : list (LegRecord * AirportColumns * AirportColumns * (string * string)))
    : exn + list EnrichedRow :=
  match rows with
  | [] => inr []
  | r :: rows' =>
      match parse_times r, parse_all rows' with
      | inr x, inr xs => inr (x :: xs)
      | inl e, _ => inl e
      | _, inl e => inl e
      end
  end.

Definition solution_departure_le (a b : EnrichedRow) : bool :=
  (lr_solution_id (er_leg a) <? lr_solution_id (er_leg b))
  || ((lr_solution_id (er_leg a) =? lr_solution_id (er_leg b))
      && (er_departure_time a <=? er_departure_time b)).

Definition enrich_flight_data (flight_data : list LegRecord)
    (reference_data : ReferenceDataDict)
    : (exn + list EnrichedRow) * list log_entry :=
  let codes := ap_code <$> ref_airport reference_data in
  let results1 := join_origin flight_data reference_data in
  let log1 :=
    join_loss_log "origin airport" (Some "Unknown origins")
      (length flight_data) (length results1)
      (unknown_sample (lr_origin <$> flight_data) codes) in
  let results2 := join_destination results1 reference_data in
  let log2 :=
    join_loss_log "destination airport" (Some "Unknown destinations")
      (length results1) (length results2)
      (unknown_sample (lr_destination <$> flight_data) codes) in
  let results3 := join_carrier results2 reference_data in
  let log3 :=
    join_loss_log "carrier" None (length results2) (length results3) [] in
  let log := log1 ++ log2 ++ log3 in
  match apply_parse lr_departure_time results3 with
  | inl e => (inl e, log)
  | inr _ =>
      match parse_all results3 with
      | inl e => (inl e, log)
      | inr results => (inr (sort_values solution_departure_le results), log)
      end
  end.

End Enrichment.

(** ** eduardo.py: the itinerary fold *)

(** A row of the grouped frame, with the columns as renamed. *)
Record GroupedRow : Type := mkGroupedRow {
  g_flight_type : option string;
  g_flights : list (option string);
  g_num_stops : Z;
  g_origin_iata : option string;
  g_origin_airport_name : option string;
  g_origin_iso_country_code : option string;
  g_origin_latitude : option string;
  g_origin_longitude : option string;
  g_via_iata : option string;
  g_destination_iata : option string;
  g_via_airport_name : option string;
  g_destination_airport_name : option string;
  g_via_iso_country_code : option string;
  g_destination_iso_country_code : option string;
  g_via_latitude : option string;
  g_destination_latitude : option string;
  g_via_longitude : option string;
  g_destination_longitude : option string;
  g_airline_codes : string;
  g_airline_names : string;
  g_aircrafts : string;
  g_widths : string;
  g_departure_dt : option Z;
  g_arrival_dt : option Z
}.

(** A row of the frame [transform_flight_structure] returns. *)
Record Itinerary : Type := mkItinerary {
  it_grouped : GroupedRow;
  it_origin_country : string;
  it_destination_country : string;
  it_via_iata : option string;
  it_flights : string
}.

Definition origin_col (f : AirportColumns → string) (r : EnrichedRow)
    : option string := Some (f (er_origin_airport r)).
Definition destination_col (f : AirportColumns → string) (r : EnrichedRow)
    : option string := Some (f (er_destination_airport r)).

(** The aggregation of one group. *)
Definition aggregate (g : list EnrichedRow) : exn + GroupedRow :=
  match pipe_join ((λ r, lr_airline_code (er_leg r)) <$> g),
        pipe_join ((λ r, Some (er_airline_name r)) <$> g),
        pipe_join ((λ r, lr_aircraft (er_leg r)) <$> g),
        pipe_join ((λ r, lr_width (er_leg r)) <$> g) with
  | inr codes, inr names, inr aircrafts, inr widths =>
      inr (mkGroupedRow
             (agg_first (λ r, Some (lr_flight_type (er_leg r))) g)
             ((λ r, lr_flight_no (er_leg r)) <$> g)
             (agg_count (λ r, lr_flight_no (er_leg r)) g)
             (agg_first (λ r, lr_origin (er_leg r)) g)
             (agg_first (origin_col apc_name) g)
             (agg_first (origin_col apc_country) g)
             (agg_first (origin_col apc_latitude) g)
             (agg_first (origin_col apc_longitude) g)
             (agg_first (λ r, lr_destination (er_leg r)) g)
             (agg_last (λ r, lr_destination (er_leg r)) g)
             (agg_first (destination_col apc_name) g)
             (agg_last (destination_col apc_name) g)
             (agg_first (destination_col apc_country) g)
             (agg_last (destination_col apc_country) g)
             (agg_first (destination_col apc_latitude) g)
             (agg_last (destination_col apc_latitude) g)
             (agg_first (destination_col apc_longitude) g)
             (agg_last (destination_col apc_longitude) g)
             codes names aircrafts widths
             (agg_first (λ r, Some (er_departure_time r)) g)
             (agg_last (λ r, Some (er_arrival_time r)) g))
  | inl e, _, _, _ => inl e
  | _, inl e, _, _ => inl e
  | _, _, inl e, _ => inl e
  | _, _, _, inl e => inl e
  end.

(** [flight_data.groupby('Solution ID').agg(...)] *)
Fixpoint aggregate_groups (groups : list (Z * list EnrichedRow))
    : exn + list GroupedRow :=
  match groups with
  | [] => inr []
  | (_, g) :: groups' =>
      match aggregate g with
      | inl e => inl e
      | inr x =>
          match aggregate_groups groups' with
          | inl e => inl e
          | inr xs => inr (x :: xs)
          end
      end
  end.

(** The two joins against the country table, which bring the country names.
    The table is taken to have its [code] and [name] columns, so that the
    handler around the joins is never entered. *)
Definition join_countries (cleaned : list GroupedRow)
    (reference_data : ReferenceDataDict)
    : list (GroupedRow * CountryRow * CountryRow) :=
  merge_inner
    (merge_inner cleaned (ref_countries reference_data)
       g_origin_iso_country_code (λ c, Some (co_code c)))
    (ref_countries reference_data)
    (λ r, g_destination_iso_country_code r.1) (λ c, Some (co_code c)).

(** The via code is kept when it differs from the destination code and
    replaced by [None] otherwise. *)
Definition fix_via (via destination : option string) : option string :=
  if decide (via ≠ destination) then via else None.

Fixpoint join_flights (rows : list (GroupedRow * CountryRow * CountryRow))
    : exn + list Itinerary :=
  match rows with
  | [] => inr []
  | r :: rows' =>
      match pipe_join (g_flights r.1.1) with
      | inl e => inl e
      | inr flights =>
          match join_flights rows' with
          | inl e => inl e
          | inr xs =>
              inr (mkItinerary r.1.1 (co_name r.1.2) (co_name r.2)
                     (fix_via (g_via_iata r.1.1) (g_destination_iata r.1.1))
                     flights :: xs)
          end
      end
  end.

Definition transform_flight_structure (flight_data : list EnrichedRow)
    (reference_data : ReferenceDataDict) : exn + list Itinerary :=
  match aggregate_groups (groupby (λ r, lr_solution_id (er_leg r)) flight_data) with
  | inl e => inl e
  | inr cleaned => join_flights (join_countries cleaned reference_data)
  end.

(** ** Python floats

    A [float] is an IEEE 754 binary64 value, given by its specification in
    [SpecFloat]: operations are exact results rounded to nearest, ties to
    even. *)

Definition float : Type := spec_float.
Definition prec : Z := 53.
Definition emax : Z := 1024.

(** [float(n)] *)
Definition float_of_Z (n : Z) : float := binary_normalize prec emax n 0 false.

(** [x / y] on floats, for [y] other than zero. *)
Definition float_div (x y : float) : float := SFdiv prec emax x y.

(** [n / d] on integers with [d > 0]: the quotient correctly rounded. *)
Definition int_truediv (n : Z) (d : positive) : float :=
  match n with
  | 0 => S754_zero false
  | Zpos p => SFdiv prec emax (S754_finite false p 0) (S754_finite false d 0)
  | Zneg p => SFdiv prec emax (S754_finite true p 0) (S754_finite false d 0)
  end.

(** The integer nearest to [n / d], ties to the even one ([0 ≤ n], [0 < d]). *)
Definition round_half_even (n d : Z) : Z :=
  let q := n `div` d in
  match (2 * (n `mod` d)) ?= d with
  | Lt => q
  | Gt => q + 1
  | Eq => if Z.even q then q else q + 1
  end.

(** The number of units of [10^-ndigits] nearest to the magnitude of a
    finite float with a negative exponent. *)
Definition decimal_units (m : positive) (e : Z) (ndigits : nat) : Z :=
  round_half_even (Zpos m * 10 ^ Z.of_nat ndigits) (2 ^ (- e)).

(** [round(x, ndigits)] for [ndigits ≥ 0]: the exact value of [x] is rounded
    to [ndigits] decimals, ties to even, and the decimal obtained is
    converted back to the nearest float.  Zeros, infinities, NaN and integral
    values are returned as they are. *)
Definition py_round (x : float) (ndigits : nat) : float :=
  match x with
  | S754_finite s m e =>
      if decide (0 ≤ e) then x
      else
        match decimal_units m e ndigits with
        | Zpos k =>
            SFdiv prec emax (S754_finite s k 0)
              (S754_finite false (Z.to_pos (10 ^ Z.of_nat ndigits)) 0)
        | _ => S754_zero s
        end
  | _ => x
  end.

(** The exact value of a finite float, as a reduced fraction. *)
Definition float_value (x : float) : option Q :=
  match x with
  | S754_zero _ => Some 0%Q
  | S754_finite s m e =>
      Some (Qred ((if s then -1 else 1) * inject_Z (Zpos m) * Qpower 2 e))
  | _ => None
  end.

(** ** Timestamps

    A [datetime] is the count of microseconds since 1970-01-01T00:00:00. *)

Definition days_from_civil (y m d : Z) : Z :=
  let y := if decide (m ≤ 2) then y - 1 else y in
  let era := y `div` 400 in
  let yoe := y - era * 400 in
  let doy := (153 * (if decide (2 < m) then m - 3 else m + 9) + 2) `div` 5 + d - 1 in
  let doe := yoe * 365 + yoe `div` 4 - yoe `div` 100 + doy in
  era * 146097 + doe - 719468.

(** [datetime(y, m, d, hh, mm, ss)] *)
Definition datetime (y m d hh mm ss : Z) : Z :=
  (((days_from_civil y m d * 24 + hh) * 60 + mm) * 60 + ss) * 1000000.

(** [timedelta.total_seconds()] of a difference of [us] microseconds. *)
Definition total_seconds (us : Z) : float := int_truediv us 1000000.

(** ** eduardo.py: the metrics step *)

Record FinalRow : Type := mkFinalRow {
  fr_itinerary : Itinerary;
  fr_duration_dt : float;
  fr_duration : float;
  fr_padded : list string;
  fr_updated : string
}.

(** The columns of the frame once the two durations are set. *)
Definition frame_columns : list string :=
  [ "Flight Type"; "Flights"; "Num Stops"; "Origin IATA";
    "Origin Airport Name"; "Origin ISO Country Code"; "Origin Latitude";
    "Origin Longitude"; "Via IATA"; "Destination IATA"; "Via Airport Name";
    "Destination Airport Name"; "Via ISO Country Code";
    "Destination ISO Country Code"; "Via Latitude"; "Destination Latitude";
    "Via Longitude"; "Destination Longitude"; "Airline Code(s)";
    "Airline Name(s)"; "Aircraft(s)"; "Width(s)"; "Departure DT"; "Arrival DT";
    "Origin Country"; "Destination Country"; "Duration DT"; "duration" ].

Definition required_columns : list string :=
  [ "Origin IATA"; "Origin ISO Country Code"; "Origin Country";
    "Destination IATA"; "Destination ISO Country Code"; "Destination Country";
    "Departure Time (local)"; "Arrival Time (local)"; "Flight Num";
    "Airline IATA"; "duration"; "Arrival Time Hour"; "Origin Latitude";
    "Origin Longitude"; "Origin Airport Name"; "Origin Closed";
    "Destination Latitude"; "Destination Longitude";
    "Destination Airport Name"; "Destination Closed"; "Country Alert Updated";
    "Alert Date"; "Alert Time"; "Message"; "Mode"; "Num Stops";
    "Current Capacity Status"; "Current Capacity Status Ind";
    "Passenger Flight Capacity % Change";
    "Passenger Flight Capacity % Change Num"; "Freighter Capacity % Change";
    "Freighter Capacity % Change Num"; "Flights"; "Via IATA"; "Departure DT";
    "Arrival DT"; "Dummy Column 4"; "Dummy Column 5"; "Dummy Column 6" ].

(** ['Arrival DT' - 'Departure DT'] in seconds; a null on either side gives
    a null difference, whose seconds are NaN. *)
Definition duration_seconds (it : Itinerary) : float :=
  match g_arrival_dt (it_grouped it), g_departure_dt (it_grouped it) with
  | Some arrival, Some departure => total_seconds (arrival - departure)
  | _, _ => S754_nan
  end.

(** [round(x / (60**2), 2)] *)
Definition duration_hours (x : float) : float :=
  py_round (float_div x (float_of_Z (60 ^ 2))) 2.

(** [updated] is the text of the clock at the time of the call. *)
Definition calculate_flight_metrics (flight_data : list Itinerary)
    (updated : string) : list FinalRow :=
  (λ it, mkFinalRow it (duration_seconds it)
           (duration_hours (duration_seconds it))
           (filter (λ col, col ∉ frame_columns) required_columns)
           updated) <$> flight_data.

(** ** Notions used to state the properties of the parser *)

(** The four attributes a leg element is read for. *)
Definition leg_attributes : list string :=
  ["origin"; "destination"; "departure"; "arrival"].

Definition leg_attribute_missing (child : Element) : Prop :=
  ∃ k, k ∈ leg_attributes ∧ attrib child !! k = None.

(** A field holds a non-empty string. *)
Definition nonempty (v : option string) : Prop :=
  ∃ s, v = Some s ∧ s ≠ "".

(** The six required fields of the in-progress record are all non-empty:
    the flight type is a member of the enumeration, hence always present,
    the itinerary id is an integer other than zero, and the four text fields
    hold non-empty strings. *)
Definition required_fields_nonempty (acc : FlightDetails) : Prop :=
  nonempty (fd_origin acc) ∧ nonempty (fd_destination acc) ∧
  nonempty (fd_f_id acc) ∧ nonempty (fd_carrier acc) ∧ fd_s_id acc ≠ 0.

(** The diagnostic of a dropped record. *)
Definition invalid_row_diagnostic : log_entry :=
  LogError "Skipping invalid row: Flight details are not valid".

(** The reference accumulators after the elements of [l] have been seen. *)
Definition accumulate (l : list Element) (w : world) : world :=
  foldl (λ w child, process_dict_updates child w) w l.

(** Column [k] of the reference accumulator of kind [t], if there is one. *)
Definition column (w : world) (t k : string) : option (list string) :=
  dictionaries w !! t ≫= (.!! k).

(** What the elements of [l] hold for column [k] of kind [t], in order. *)
Definition column_values (t k : string) (l : list Element) : list string :=
  omap (λ e, attrib e !! k) (filter (λ e, tag e = t) l).

(** Two in-progress records agree on everything a row can show: all the
    fields but the timestamps are equal, and the timestamps are equal once
    the origin is a non-empty string. *)
Definition fd_agree (a b : FlightDetails) : Prop :=
  fd_flight_type a = fd_flight_type b ∧ fd_s_id a = fd_s_id b ∧
  fd_f_id a = fd_f_id b ∧ fd_carrier a = fd_carrier b ∧
  fd_origin a = fd_origin b ∧ fd_destination a = fd_destination b ∧
  fd_aircraft a = fd_aircraft b ∧ fd_width a = fd_width b ∧
  fd_query_type a = fd_query_type b ∧ fd_batch_num a = fd_batch_num b ∧
  (truthy_str (fd_origin a) = true →
   fd_depart_dt a = fd_depart_dt b ∧ fd_arrive_dt a = fd_arrive_dt b).

Definition state_agree (a b : option FlightDetails) : Prop :=
  match a, b with
  | None, None => True
  | Some x, Some y => fd_agree x y
  | _, _ => False
  end.

Definition loop_agree (a b : loop_state) : Prop :=
  dfs a = dfs b ∧ s_id a = s_id b ∧ row a = row b ∧
  started_yet a = started_yet b ∧ state_agree (state a) (state b).

Definition outcome_agree (a b : exn + loop_state) : Prop :=
  match a, b with
  | inl e1, inl e2 => e1 = e2
  | inr x, inr y => loop_agree x y
  | _, _ => False
  end.

(** The loop never holds a record before the start marker has been seen. *)
Definition loop_wf (ls : loop_state) : Prop :=
  is_Some (state ls) → started_yet ls = true.

Definition sample_state : FlightDetails := new_FlightDetails FT_F 1 ORIGIN 1.

(** A record in progress with a flight and a leg read, the same record after
    a leg element that lacked an attribute, and the loop holding either one
    inside its first itinerary. *)
Definition sample_record : FlightDetails :=
  mkFlightDetails FT_F 1 (Some "KQ100") (Some "KQ") (Some "NBO") (Some "MBA")
    (VStr "2024-01-01T10:00+03:00") (VStr "2024-01-01T11:00+03:00")
    None None ORIGIN 1.
Definition sample_record_partial : FlightDetails :=
  set_leg sample_record (Some "") (Some "")
    (VDatetime 1704103200) (VDatetime 1704103200).
Definition sample_loop (acc : FlightDetails) : loop_state :=
  LoopState [] 1 0 true (Some acc).

(** The row [create_flight_row] makes of a record whose aircraft element
    gave [name] and [width]. *)
Definition row_of_record (acc : FlightDetails) (name width : string)
    (index : Z) : LegRecord :=
  mkLegRecord index (FlightType_name (fd_flight_type acc))
    (fd_origin acc) (fd_destination acc) (fd_f_id acc) (fd_carrier acc)
    (Some name) (Some width) (fd_s_id acc)
    (fd_depart_dt acc) (fd_arrive_dt acc)
    (QueryType_name (fd_query_type acc)) (fd_batch_num acc).

(** What [parse_results] returns of the loop variables. *)
Definition loop_result (o : exn + loop_state) : exn + (list LegRecord * Z * Z) :=
  match o with
  | inl e => inl e
  | inr ls => inr (dfs ls, row ls, s_id ls)
  end.

(** The loop variables while no itinerary has started. *)
Definition idle_loop_state (started : bool) : loop_state :=
  LoopState [] 0 0 started None.

(** One itinerary whose first leg element lacks its destination and arrival,
    so that the clock is read, followed by a complete leg. *)
Definition sample_results_partial : Element :=
  Elem "result" ∅ None
    [ Elem "itineraryFullDetail" ∅ None
        [ Elem "solution" ∅ None
            [ sample_flight; sample_leg_partial; sample_aircraft;
              sample_leg2; sample_aircraft ] ] ].

Definition sample_clock2 : nat → Z := λ k, 1800000000 + 60 * Z.of_nat k.

(** The elements of [sample_results] ahead of the marker, from the marker to
    the first itinerary, and from there on. *)
Definition sample_pre1 : list Element := take 4 (iter sample_results).
Definition sample_pre2 : list Element := take 1 (drop 4 (iter sample_results)).
Definition sample_rest : list Element := drop 5 (iter sample_results).

(** The rows a run of the parser returns, none if it raises. *)
Definition rows_of (run : (exn + (list LegRecord * Z * Z)) * world)
    : list LegRecord :=
  match run.1 with
  | inr (rows, _, _) => rows
  | inl _ => []
  end.

Definition sample_rows : list LegRecord :=
  rows_of (parse_results sample_results FT_F ORIGIN 1
             (initial_world sample_clock)).
Definition sample_rows_partial : list LegRecord :=
  rows_of (parse_results sample_results_partial FT_H DESTINATION 2
             (initial_world sample_clock)).

(** Whether a run returned, and what it returned. *)
Definition succeeded {A : Type} (o : exn + A) : bool :=
  match o with inr _ => true | inl _ => false end.
Definition returned {A : Type} (o : exn + A) (default : A) : A :=
  match o with inr x => x | inl _ => default end.

(** The walk over [sample_results] cut in four: up to its first aircraft
    element, that element, the leg element after it, the second aircraft
    element. *)
Definition sample_run0 : (exn + loop_state) * world :=
  parse_children FT_F ORIGIN 1 initial_loop_state
    (take 8 (iter sample_results)) (initial_world sample_clock).
Definition sample_run1 : (exn + loop_state) * world :=
  parse_child FT_F ORIGIN 1 (returned sample_run0.1 initial_loop_state)
    sample_aircraft sample_run0.2.
Definition sample_run2 : (exn + loop_state) * world :=
  parse_children FT_F ORIGIN 1 (returned sample_run1.1 initial_loop_state)
    [sample_leg2] sample_run1.2.
Definition sample_run3 : (exn + loop_state) * world :=
  parse_child FT_F ORIGIN 1 (returned sample_run2.1 initial_loop_state)
    sample_aircraft sample_run2.2.

(** The element [SubElement_text] appends. *)
Definition code_element (t : string) (code : string) : Element :=
  Elem t ∅ (Some code) [].

Definition payload_summary (q : Element * Z) : list string * list string * Z :=
  (payload_codes "origin" q.1, payload_codes "destination" q.1, q.2).

(** ** Sample tables *)

Fixpoint digits_value (acc : Z) (s : string) : option Z :=
  match s with
  | EmptyString => Some acc
  | String c s' =>
      let n := Z.of_N (Ascii.N_of_ascii c) - 48 in
      if decide (0 ≤ n ≤ 9) then digits_value (acc * 10 + n) s' else None
  end.

(** A stand-in for [dateutil.parser.parse] on the timestamps of the samples,
    [YYYY-MM-DDTHH:MM] followed by an offset that is ignored. *)
Definition sample_date_parse (s : string) : exn + Z :=
  match digits_value 0 (substring 0 4 s), digits_value 0 (substring 5 2 s),
        digits_value 0 (substring 8 2 s), digits_value 0 (substring 11 2 s),
        digits_value 0 (substring 14 2 s) with
  | Some y, Some m, Some d, Some hh, Some mm =>
      if decide (String.length s < 16)%nat
      then inl (ValueError "Unknown string format")
      else inr (datetime y m d hh mm 0)
  | _, _, _, _, _ => inl (ValueError "Unknown string format")
  end.

Definition sample_reference : ReferenceDataDict :=
  mkReferenceDataDict
    [ mkAircraftRow "737" "Boeing 737" "NARROW" ]
    [ mkCarrierRow "KQ" "Kenya Airways" "Kenya" ]
    [ mkCityRow "NBO" "KE" "Nairobi"; mkCityRow "MBA" "KE" "Mombasa";
      mkCityRow "DAR" "TZ" "Dar es Salaam" ]
    [ mkAirportRow "NBO" "NBO" "-1.319" "36.927" "Jomo Kenyatta" "KE";
      mkAirportRow "MBA" "MBA" "-4.034" "39.594" "Moi" "KE";
      mkAirportRow "DAR" "DAR" "-6.878" "39.202" "Julius Nyerere" "TZ" ]
    [ mkCountryRow "KE" "Kenya"; mkCountryRow "TZ" "Tanzania" ].

(** The enriched frame of the two legs of [sample_results]. *)
Definition sample_enriched : list EnrichedRow :=
  returned (enrich_flight_data sample_date_parse
              (clean_raw_flight_data (pd_concat [sample_rows]))
              sample_reference).1 [].

(** A single leg, as read by a second batch under the itinerary id 2. *)
Definition sample_single_leg : list EnrichedRow :=
  match sample_enriched with
  | r :: _ =>
      [ mkEnrichedRow
          (mkLegRecord 0 "F" (Some "NBO") (Some "MBA") (Some "KQ100")
             (Some "KQ") (Some "Boeing 737") (Some "NARROW") 2
             (lr_departure_time (er_leg r)) (lr_arrival_time (er_leg r))
             "ORIGIN" 2)
          (er_origin_airport r) (er_destination_airport r) (er_airline_name r)
          (er_departure_time r) (er_arrival_time r) ]
  | [] => []
  end.

(** The final leg of a group, the first one when there is no other. *)
Definition final_leg (first : EnrichedRow) (rest : list EnrichedRow)
    : EnrichedRow :=
  default first (last rest).

Definition destination_of (r : EnrichedRow) : option string :=
  lr_destination (er_leg r).

(** A leg table with one origin unknown to an airport table in which the
    code NBO occurs twice, under two names. *)
Definition sample_leg_table : list LegRecord :=
  [ mkLegRecord 0 "F" (Some "NBO") (Some "MBA") (Some "KQ100") (Some "KQ")
      (Some "Boeing 737") (Some "NARROW") 1
      (VStr "2024-01-01T10:00+03:00") (VStr "2024-01-01T11:00+03:00")
      "ORIGIN" 1;
    mkLegRecord 1 "F" (Some "ZZZ") (Some "MBA") (Some "KQ200") (Some "KQ")
      (Some "Boeing 737") (Some "NARROW") 2
      (VStr "2024-01-01T12:00+03:00") (VStr "2024-01-01T13:00+03:00")
      "ORIGIN" 1 ].

Definition sample_reference_duplicate : ReferenceDataDict :=
  mkReferenceDataDict
    [ mkAircraftRow "737" "Boeing 737" "NARROW" ]
    [ mkCarrierRow "KQ" "Kenya Airways" "Kenya" ]
    [ mkCityRow "NBO" "KE" "Nairobi"; mkCityRow "MBA" "KE" "Mombasa" ]
    [ mkAirportRow "NBO" "NBO" "-1.319" "36.927" "Jomo Kenyatta" "KE";
      mkAirportRow "NBO" "NBO" "-1.319" "36.927" "Jomo Kenyatta Intl" "KE";
      mkAirportRow "MBA" "MBA" "-4.034" "39.594" "Moi" "KE" ]
    [ mkCountryRow "KE" "Kenya" ].

(** The codes of the airport table, as the keys the leg columns hold. *)
Definition airport_keys (reference_data : ReferenceDataDict)
    : list (option string) :=
  (λ a, Some (ap_code a)) <$> ref_airport reference_data.

(** A leg table whose second row has an origin unknown to
    [sample_reference]. *)
Definition sample_leg_table_pre : list LegRecord := take 1 sample_leg_table.
Definition sample_leg_table_row : LegRecord :=
  mkLegRecord 1 "F" (Some "ZZZ") (Some "MBA") (Some "KQ200") (Some "KQ")
    (Some "Boeing 737") (Some "NARROW") 2
    (VStr "2024-01-01T12:00+03:00") (VStr "2024-01-01T13:00+03:00")
    "ORIGIN" 1.

(** ** Notions used to state the properties of the metrics step *)

#[global] Instance spec_float_eq_dec : EqDecision spec_float.
Proof. solve_decision. Defined.

(** [hours] is the float nearest to [k / 100] for a count [k] of hundredths
    that lies within half a hundredth of [s / 3600]. *)
Definition rounded_hours (s : Z) (hours : float) (k : Z) : Prop :=
  hours = int_truediv k 100 ∧ Z.abs (36 * k - s) ≤ 18.

(** The check that a duration of [s] whole seconds is turned into [s] as a
    float and then into hours rounded as in [rounded_hours]. *)
Definition duration_check (s : Z) : bool :=
  bool_decide (total_seconds (s * 1000000) = float_of_Z s)
  && existsb (λ k, bool_decide (duration_hours (float_of_Z s) = int_truediv k 100)
                   && (Z.abs (36 * k - s) <=? 18))
       [ (s * 100 + 1800) `div` 3600 - 1; (s * 100 + 1800) `div` 3600 ].

(** The check on every duration of a whole number of minutes below [n]. *)
Fixpoint duration_check_below (n : nat) : bool :=
  match n with
  | O => true
  | S m => duration_check (60 * Z.of_nat m) && duration_check_below m
  end.

(** The itineraries of the samples. *)
Definition sample_itinerary_rows : list Itinerary :=
  returned (transform_flight_structure (sample_enriched ++ sample_single_leg)
              sample_reference) [].

(** The durations, in whole minutes, on which the rounding is checked one
    by one: up to two days. *)
Definition duration_bound : nat := 2880.

(** * The rest of the pipeline *)

(** ** models.py: [Config] *)


(** ** eduardo.py: the planner as [query_and_process_flights] calls it *)

Section PlannedQueries.

Variables origins_iata_codes destinations_iata_codes
          origin_and_destination_iata_codes : list string.
Variable get_parameters_dict : string → gmap string string.
Variable get_parameter_value : string → string.
Variable today : nat → string.


End PlannedQueries.

(** The number of chunks of at most [size] items that [n] items fill. *)
Definition chunk_count (n : nat) (size : Z) : nat :=
  Z.to_nat ((Z.of_nat n + size - 1) `div` size).

(** ** Notions used to state further properties of the parser *)

(** The number of solution elements of [l] that the loop counts: those met
    once the results-start marker has been seen ([started] tells whether it
    has been seen ahead of [l]). *)
Fixpoint solutions_from (started : bool) (l : list Element) : Z :=
  match l with
  | [] => 0
  | e :: l' =>
      let started' :=
        started || bool_decide (tag e = "itineraryFullDetail") in
      (if started' && bool_decide (tag e = "solution") then 1 else 0)
      + solutions_from started' l'
  end.

(** The counters and the rows of the loop are in step: the row counter is
    the number of rows, row [i] has index [i], the itinerary ids of the rows
    lie between 1 and the itinerary counter and never go down, every row
    carries the flight type, query type and batch number of the call, and so
    does the record in progress, whose itinerary id is the counter. *)
Definition loop_counted (ft : FlightType) (qt : QueryType) (bn : Z)
    (ls : loop_state) : Prop :=
  row ls = Z.of_nat (length (dfs ls))
  ∧ 0 ≤ s_id ls
  ∧ (∀ i r, dfs ls !! i = Some r →
       lr_index r = Z.of_nat i ∧ 1 ≤ lr_solution_id r ≤ s_id ls ∧
       lr_flight_type r = FlightType_name ft ∧
       lr_query_type r = QueryType_name qt ∧ lr_batch_number r = bn)
  ∧ (∀ i j r1 r2, (i ≤ j)%nat → dfs ls !! i = Some r1 → dfs ls !! j = Some r2 →
       lr_solution_id r1 ≤ lr_solution_id r2)
  ∧ (∀ acc, state ls = Some acc →
       fd_s_id acc = s_id ls ∧ 1 ≤ s_id ls ∧ fd_flight_type acc = ft ∧
       fd_query_type acc = qt ∧ fd_batch_num acc = bn).

(** The attribute whose absence makes the handler of [child] raise: the
    first of carrier and number for a flight element, of name and width for
    an aircraft element. *)
Definition missing_key (child : Element) : option string :=
  let first_missing := λ k1 k2 : string,
    match attrib child !! k1, attrib child !! k2 with
    | None, _ => Some k1
    | Some _, None => Some k2
    | Some _, Some _ => None
    end in
  if decide (tag child = "flight") then first_missing "carrier" "number"
  else if decide (tag child = "aircraft") then first_missing "name" "width"
  else None.

(** An itinerary whose aircraft element has no width. *)
Definition sample_results_no_width : Element :=
  Elem "result" ∅ None
    [ Elem "itineraryFullDetail" ∅ None
        [ Elem "solution" ∅ None
            [ sample_flight; sample_leg; sample_aircraft;
              sample_leg2; leaf "aircraft" [("name", "Boeing 737")] ] ] ].

(** Two itineraries after a solution element that comes ahead of the
    marker and is not counted. *)
Definition sample_results_two : Element :=
  Elem "result" ∅ None
    [ Elem "solution" ∅ None [sample_flight; sample_leg; sample_aircraft];
      Elem "itineraryFullDetail" ∅ None
        [ Elem "solution" ∅ None [sample_flight; sample_leg; sample_aircraft];
          Elem "solution" ∅ None
            [ sample_flight; sample_leg; sample_aircraft;
              sample_leg2; sample_aircraft ] ] ].

(** ** eduardo.py: the reference tables *)

(** The module-level dict of a kind: the object the table [dictionaries]
    holds under that tag.  The four dicts are created with their columns
    and [append_to_dict_lists] adds and removes none; a column that is not
    there is reported when the frame is built. *)
Definition reference_dict (w : world) (t : string) : gmap string (list string) :=
  default ∅ (dictionaries w !! t).

Definition get_column (d : gmap string (list string)) (k : string)
    : exn + list string :=
  match d !! k with
  | Some c => inr c
  | None => inl (KeyError k)
  end.

Definition same_length (cols : list (list string)) : bool :=
  match cols with
  | [] => true
  | c :: cs => forallb (λ c', Nat.eqb (length c') (length c)) cs
  end.

Definition ragged : exn := ValueError "All arrays must be of the same length".

(** [pd.DataFrame(aircraft_dict)] and the like: one row per position of the
    columns, which must all have the same length. *)
Definition aircraft_frame (d : gmap string (list string))
    : exn + list AircraftRow :=
  match get_column d "code", get_column d "name", get_column d "width" with
  | inr c, inr n, inr w =>
      if same_length [c; n; w]
      then inr (zip_with (λ c nw, mkAircraftRow c nw.1 nw.2) c (zip n w))
      else inl ragged
  | inl e, _, _ => inl e
  | _, inl e, _ => inl e
  | _, _, inl e => inl e
  end.

Definition carrier_frame (d : gmap string (list string))
    : exn + list CarrierRow :=
  match get_column d "code", get_column d "name", get_column d "shortName" with
  | inr c, inr n, inr s =>
      if same_length [c; n; s]
      then inr (zip_with (λ c ns, mkCarrierRow c ns.1 ns.2) c (zip n s))
      else inl ragged
  | inl e, _, _ => inl e
  | _, inl e, _ => inl e
  | _, _, inl e => inl e
  end.

Definition city_frame (d : gmap string (list string)) : exn + list CityRow :=
  match get_column d "code", get_column d "country", get_column d "name" with
  | inr c, inr k, inr n =>
      if same_length [c; k; n]
      then inr (zip_with (λ c kn, mkCityRow c kn.1 kn.2) c (zip k n))
      else inl ragged
  | inl e, _, _ => inl e
  | _, inl e, _ => inl e
  | _, _, inl e => inl e
  end.

(** A row of [pd.DataFrame(airport_dict)], which has no country yet. *)
Record AirportEntry : Type := mkAirportEntry {
  ae_city : string; ae_code : string; ae_latitude : string;
  ae_longitude : string; ae_name : string }.

Definition airport_frame (d : gmap string (list string))
    : exn + list AirportEntry :=
  match get_column d "city", get_column d "code", get_column d "latitude",
        get_column d "longitude", get_column d "name" with
  | inr c, inr k, inr la, inr lo, inr n =>
      if same_length [c; k; la; lo; n]
      then inr (zip_with (λ c r, mkAirportEntry c r.1 r.2.1 r.2.2.1 r.2.2.2)
                  c (zip k (zip la (zip lo n))))
      else inl ragged
  | inl e, _, _, _, _ => inl e
  | _, inl e, _, _, _ => inl e
  | _, _, inl e, _, _ => inl e
  | _, _, _, inl e, _ => inl e
  | _, _, _, _, inl e => inl e
  end.

(** [df.drop_duplicates(subset=[key])]: the first row of every key. *)
Fixpoint drop_duplicates_on {A K : Type} `{EqDecision K} (key : A → K)
    (df : list A) : list A :=
  match df with
  | [] => []
  | x :: df' => x :: filter (λ y, key y ≠ key x) (drop_duplicates_on key df')
  end.

(** [df.drop_duplicates()]: the first occurrence of every row. *)
Definition drop_duplicates {A : Type} `{EqDecision A} (df : list A) : list A :=
  unique df.

(** [city_df.loc[city_df['code'].duplicated(keep=False), 'code'].unique()]:
    the codes that more than one row holds, each once, in frame order. *)
Definition duplicate_codes (codes : list string) : list string :=
  unique (filter (λ c, (1 < length (filter (λ c', c' = c) codes))%nat) codes).

(** The row of the merge of an airport with the city of its code. *)
Definition with_country (a : AirportEntry) (c : CityRow) : AirportRow :=
  mkAirportRow (ae_city a) (ae_code a) (ae_latitude a) (ae_longitude a)
    (ae_name a) (ci_country c).

#[global] Instance AircraftRow_eq_dec : EqDecision AircraftRow.
Proof. solve_decision. Defined.
#[global] Instance CityRow_eq_dec : EqDecision CityRow.
Proof. solve_decision. Defined.
#[global] Instance AirportEntry_eq_dec : EqDecision AirportEntry.
Proof. solve_decision. Defined.

(** [create_reference_dataframes], with the country sheet of the workbook
    given; the result comes with the warnings logged on the way.  The merge
    is validated as many-to-one, which holds since the city codes are
    unique once the duplicates are dropped. *)
Definition create_reference_dataframes (w : world)
    (countries : list CountryRow)
    : (exn + ReferenceDataDict) * list log_entry :=
  match aircraft_frame (reference_dict w "aircraft") with
  | inl e => (inl e, [])
  | inr aircraft_df =>
      match city_frame (reference_dict w "city") with
      | inl e => (inl e, [])
      | inr city_df =>
          let duplicate_city_codes := duplicate_codes (ci_code <$> city_df) in
          let log :=
            if decide (duplicate_city_codes = []) then []
            else [ LogWarning ("Found "
                               +:+ pretty (length duplicate_city_codes)
                               +:+ " duplicate city codes");
                   LogWarning ("Examples: "
                               +:+ repr_list
                                     (Some <$> take 5 duplicate_city_codes)) ] in
          let city_df :=
            if decide (duplicate_city_codes = []) then city_df
            else drop_duplicates_on ci_code city_df in
          match airport_frame (reference_dict w "airport") with
          | inl e => (inl e, log)
          | inr airport_df =>
              let airport_df :=
                (λ ac, with_country ac.1 ac.2)
                  <$> merge_inner airport_df city_df ae_city ci_code in
              let airport_df := drop_duplicates airport_df in
              match carrier_frame (reference_dict w "carrier") with
              | inl e => (inl e, log)
              | inr carrier_df =>
                  (inr (mkReferenceDataDict aircraft_df
                          (drop_duplicates carrier_df) city_df airport_df
                          countries), log)
              end
          end
      end
  end.

(** The columns of the four kinds. *)
Definition reference_columns : list (string * list string) :=
  [ ("aircraft", ["code"; "name"; "width"]);
    ("city", ["code"; "country"; "name"]);
    ("airport", ["city"; "code"; "latitude"; "longitude"; "name"]);
    ("carrier", ["code"; "name"; "shortName"]) ].

(** The columns of kind [t] are all there and all of length [n]. *)
Definition columns_aligned (w : world) (t : string) (keys : list string)
    (n : nat) : Prop :=
  ∀ k, k ∈ keys → ∃ c, column w t k = Some c ∧ length c = n.

(** A response in which two airport elements share a code. *)
Definition sample_results_airports : Element :=
  Elem "result" ∅ None
    [ Elem "data" ∅ None
        [ leaf "city" [("code", "NBO"); ("country", "KE"); ("name", "Nairobi")];
          leaf "city" [("code", "NBO"); ("country", "XX"); ("name", "Nairobi")];
          leaf "airport" [("city", "NBO"); ("code", "NBO"); ("latitude", "-1.3");
                          ("longitude", "36.9"); ("name", "Jomo Kenyatta")];
          leaf "airport" [("city", "NBO"); ("code", "NBO"); ("latitude", "-1.3");
                          ("longitude", "36.9"); ("name", "Nairobi JKIA")];
          leaf "airport" [("city", "NBO"); ("code", "NBO"); ("latitude", "-1.3");
                          ("longitude", "36.9"); ("name", "Jomo Kenyatta")];
          leaf "airport" [("city", "ZZZ"); ("code", "ZZZ"); ("latitude", "0");
                          ("longitude", "0"); ("name", "Nowhere")];
          sample_carrier_ref; sample_carrier_ref ] ].

Definition sample_reference_world : world :=
  (parse_results sample_results_airports FT_F ORIGIN 1
     (initial_world sample_clock)).2.

(** The tables built after [sample_results_airports]. *)
Definition sample_reference_tables : ReferenceDataDict :=
  mkReferenceDataDict []
    [ mkCarrierRow "KQ" "Kenya Airways" "Kenya" ]
    [ mkCityRow "NBO" "KE" "Nairobi" ]
    [ mkAirportRow "NBO" "NBO" "-1.3" "36.9" "Jomo Kenyatta" "KE";
      mkAirportRow "NBO" "NBO" "-1.3" "36.9" "Nairobi JKIA" "KE" ]
    [].

(** ** excel_data.py: the workbook *)

(** The members of [FlightType], in definition order. *)
Definition all_flight_types : list FlightType :=
  [ FT_A; FT_B; FT_C; FT_D; FT_E; FT_F; FT_G; FT_H; FT_J; FT_K; FT_L;
    FT_M; FT_O; FT_P; FT_Q; FT_R; FT_S; FT_T; FT_U; FT_V; FT_W; FT_X ].

(** [FlightType[code]]: the member of that name, or [KeyError]. *)
Definition FlightType_getitem (code : string) : exn + FlightType :=
  match list_find (λ ft, FlightType_name ft = code) all_flight_types with
  | Some (_, ft) => inr ft
  | None => inl (KeyError code)
  end.

(** A row of the flight types sheet; an empty cell is [None]. *)
Record FlightTypeRow : Type := mkFlightTypeRow {
  ftr_code : string;
  ftr_selected : option string
}.

(** [get_flight_types]: the members named by the selected rows, in sheet
    order, with a warning for every selected code that names none. *)
Definition get_flight_types (sheet : list FlightTypeRow)
    : list FlightType * list log_entry :=
  let selected_types :=
    ftr_code <$> filter (λ r, ftr_selected r = Some "X") sheet in
  foldl (λ acc code,
           match FlightType_getitem code with
           | inr flight_type => (acc.1 ++ [flight_type], acc.2)
           | inl _ =>
               (acc.1,
                acc.2 ++ [LogWarning ("Unknown flight type code: " +:+ code)])
           end) ([], []) selected_types.

(** A row of the origins and destinations sheet. *)
Record LocationRow : Type := mkLocationRow {
  loc_iata : string;
  loc_origin : option string;
  loc_destination : option string
}.

#[global] Instance LocationRow_eq_dec : EqDecision LocationRow.
Proof. solve_decision. Defined.

(** [get_origins_and_destinations]: the rows marked as origin only, as
    destination only, and as both. *)
Definition get_origins_and_destinations (sheet : list LocationRow)
    : list LocationRow * list LocationRow * list LocationRow :=
  (filter (λ r, loc_origin r = Some "X" ∧ loc_destination r = None) sheet,
   filter (λ r, loc_origin r = None ∧ loc_destination r = Some "X") sheet,
   filter (λ r, loc_origin r = Some "X" ∧ loc_destination r = Some "X") sheet).

Definition sample_flight_types_sheet : list FlightTypeRow :=
  [ mkFlightTypeRow "F" (Some "X"); mkFlightTypeRow "I" (Some "X");
    mkFlightTypeRow "J" None; mkFlightTypeRow "H" (Some "X");
    mkFlightTypeRow "f" (Some "X"); mkFlightTypeRow "L" (Some "x") ].

Definition sample_locations_sheet : list LocationRow :=
  [ mkLocationRow "NBO" (Some "X") (Some "X");
    mkLocationRow "MBA" (Some "X") None;
    mkLocationRow "DXB" None (Some "X");
    mkLocationRow "LHR" None None;
    mkLocationRow "ADD" (Some "x") None ].

(** * Properties of the result parser *)

Example sample_results_rows :
  (parse_results sample_results FT_F ORIGIN 1 (initial_world sample_clock)).1
  = inr ([ mkLegRecord 0 "F" (Some "NBO") (Some "MBA") (Some "KQ100") (Some "KQ")
             (Some "Boeing 737") (Some "NARROW") 1
             (VStr "2024-01-01T10:00+03:00") (VStr "2024-01-01T11:00+03:00")
             "ORIGIN" 1;
           mkLegRecord 1 "F" (Some "MBA") (Some "DAR") (Some "KQ100") (Some "KQ")
             (Some "Boeing 737") (Some "NARROW") 1
             (VStr "2024-01-01T12:00+03:00") (VStr "2024-01-01T13:30+03:00")
             "ORIGIN" 1 ], 2, 1).
Proof. vm_compute. reflexivity. Qed.

(** ** Leg elements *)

Lemma leg_attribute_missing_iff child :
  leg_attribute_missing child ↔
  attrib child !! "origin" = None ∨ attrib child !! "destination" = None ∨
  attrib child !! "departure" = None ∨ attrib child !! "arrival" = None.
Proof.
  unfold leg_attribute_missing, leg_attributes. split.
  - intros (k & Hk & Hnone).
    repeat (apply elem_of_cons in Hk as [-> | Hk]; [tauto |]).
    by apply elem_of_nil in Hk.
  - intros [H | [H | [H | H]]]; eexists; (split; [| exact H]); set_solver.
Qed.

(** C6. A leg element lacking any of origin, destination, departure,
    arrival leaves the record with empty origin and destination and with the
    clock reading taken at that moment in both timestamp fields; a leg
    element carrying all four leaves each attribute value in its field, and
    reads no clock. *)
Theorem update_leg_info_defaulting child st w :
  (leg_attribute_missing child →
   fd_origin (update_leg_info child st w).1 = Some "" ∧
   fd_destination (update_leg_info child st w).1 = Some "" ∧
   fd_depart_dt (update_leg_info child st w).1 = VDatetime (clock w (ticks w)) ∧
   fd_arrive_dt (update_leg_info child st w).1 = VDatetime (clock w (ticks w)))
  ∧
  (∀ o d dep arr,
     attrib child !! "origin" = Some o →
     attrib child !! "destination" = Some d →
     attrib child !! "departure" = Some dep →
     attrib child !! "arrival" = Some arr →
     fd_origin (update_leg_info child st w).1 = Some o ∧
     fd_destination (update_leg_info child st w).1 = Some d ∧
     fd_depart_dt (update_leg_info child st w).1 = VStr dep ∧
     fd_arrive_dt (update_leg_info child st w).1 = VStr arr ∧
     (update_leg_info child st w).2 = w).
Proof.
  split.
  - intros Hmiss. apply leg_attribute_missing_iff in Hmiss.
    unfold update_leg_info.
    destruct (attrib child !! "origin"), (attrib child !! "destination"),
      (attrib child !! "departure"), (attrib child !! "arrival");
      simpl; auto; destruct Hmiss as [H | [H | [H | H]]]; discriminate H.
  - intros o d dep arr Ho Hd Hdep Harr.
    unfold update_leg_info. rewrite Ho, Hd, Hdep, Harr. done.
Qed.

Lemma update_leg_info_defaulting_witness :
  (fd_origin (update_leg_info sample_leg_partial sample_state
                (initial_world sample_clock)).1 = Some "" ∧
   fd_destination (update_leg_info sample_leg_partial sample_state
                     (initial_world sample_clock)).1 = Some "" ∧
   fd_depart_dt (update_leg_info sample_leg_partial sample_state
                   (initial_world sample_clock)).1 = VDatetime 1704103200 ∧
   fd_arrive_dt (update_leg_info sample_leg_partial sample_state
                   (initial_world sample_clock)).1 = VDatetime 1704103200)
  ∧
  (fd_origin (update_leg_info sample_leg sample_state
                (initial_world sample_clock)).1 = Some "NBO" ∧
   fd_destination (update_leg_info sample_leg sample_state
                     (initial_world sample_clock)).1 = Some "MBA" ∧
   fd_depart_dt (update_leg_info sample_leg sample_state
                   (initial_world sample_clock)).1
     = VStr "2024-01-01T10:00+03:00" ∧
   fd_arrive_dt (update_leg_info sample_leg sample_state
                   (initial_world sample_clock)).1
     = VStr "2024-01-01T11:00+03:00" ∧
   (update_leg_info sample_leg sample_state (initial_world sample_clock)).2
     = initial_world sample_clock).
Proof.
  split.
  - apply (proj1 (update_leg_info_defaulting sample_leg_partial sample_state
                    (initial_world sample_clock))).
    exists "destination". split; [| vm_compute; reflexivity].
    unfold leg_attributes. set_solver.
  - apply (proj2 (update_leg_info_defaulting sample_leg sample_state
                    (initial_world sample_clock))); vm_compute; reflexivity.
Defined.

(** ** The walk over the elements *)

Lemma parse_children_app ft qt bn ls l1 l2 w :
  parse_children ft qt bn ls (l1 ++ l2) w =
  match parse_children ft qt bn ls l1 w with
  | (inl e, w') => (inl e, w')
  | (inr ls', w') => parse_children ft qt bn ls' l2 w'
  end.
Proof.
  revert ls w. induction l1 as [| child l1 IH]; intros ls w; simpl; [done |].
  destruct (parse_child ft qt bn ls child w) as [[e | ls'] w']; [done |].
  apply IH.
Qed.

(** A walk that returns has returned on every prefix. *)
Lemma parse_children_split ft qt bn ls l1 l2 w ls_end w_end :
  parse_children ft qt bn ls (l1 ++ l2) w = (inr ls_end, w_end) →
  ∃ ls' w', parse_children ft qt bn ls l1 w = (inr ls', w') ∧
            parse_children ft qt bn ls' l2 w' = (inr ls_end, w_end).
Proof.
  rewrite parse_children_app.
  destruct (parse_children ft qt bn ls l1 w) as [[e | ls'] w']; [done |].
  eauto.
Qed.

Lemma validate_flight_details_agree a b :
  fd_agree a b → validate_flight_details a = validate_flight_details b.
Proof.
  intros (Hft & Hs & Hf & Hc & Ho & Hd & _).
  unfold validate_flight_details. by rewrite Hs, Hf, Hc, Ho, Hd.
Qed.

Lemma validate_flight_details_origin a :
  validate_flight_details a = true → truthy_str (fd_origin a) = true.
Proof.
  unfold validate_flight_details. intros H.
  repeat (apply andb_true_iff in H as [H ?]). done.
Qed.

Lemma create_flight_row_agree a b n :
  fd_agree a b → validate_flight_details a = true →
  create_flight_row a n = create_flight_row b n.
Proof.
  intros Hab Hv. pose proof (validate_flight_details_origin _ Hv) as Ho.
  destruct Hab as (Hft & Hs & Hf & Hc & Hor & Hd & Ha & Hw & Hq & Hb & Hdt).
  destruct (Hdt Ho) as [Hdep Harr].
  unfold create_flight_row. congruence.
Qed.

Lemma update_flight_details_agree child a b w1 w2 :
  fd_agree a b →
  match (update_flight_details child a w1).1,
        (update_flight_details child b w2).1 with
  | inl e1, inl e2 => e1 = e2
  | inr a', inr b' => fd_agree a' b'
  | _, _ => False
  end.
Proof.
  intros Hab.
  pose proof Hab as (Hft & Hs & Hf & Hc & Hor & Hd & Ha & Hw & Hq & Hb & Hdt).
  unfold update_flight_details.
  destruct (decide (tag child = "flight")) as [_ | _].
  { simpl. unfold update_flight_info.
    destruct (getitem (attrib child) "carrier"); [done |].
    destruct (getitem (attrib child) "number"); [done |].
    repeat split; simpl; auto; by apply Hdt. }
  destruct (decide (tag child = "leg")) as [_ | _].
  { unfold update_leg_info.
    destruct (attrib child !! "origin"), (attrib child !! "destination"),
      (attrib child !! "departure"), (attrib child !! "arrival");
      simpl; repeat split; simpl; auto; done. }
  destruct (decide (tag child = "aircraft")) as [_ | _]; [| done].
  simpl. unfold update_aircraft_info.
  destruct (getitem (attrib child) "name"); [done |].
  destruct (getitem (attrib child) "width"); [done |].
  repeat split; simpl; auto; by apply Hdt.
Qed.

Lemma fd_agree_refl a : fd_agree a a.
Proof. by repeat split. Qed.

Lemma loop_agree_refl ls : loop_agree ls ls.
Proof.
  repeat split. destruct (state ls); simpl; [apply fd_agree_refl | done].
Qed.

(** One iteration on agreeing loop variables, under any two worlds, ends
    the same way and leaves agreeing loop variables. *)
Lemma parse_child_agree ft qt bn a b child w1 w2 :
  loop_agree a b →
  outcome_agree (parse_child ft qt bn a child w1).1
                (parse_child ft qt bn b child w2).1.
Proof.
  destruct a as [dfs1 sid1 row1 st1 acc1], b as [dfs2 sid2 row2 st2 acc2].
  intros (Hd & Hs & Hr & Hst & Hacc); simpl in *; subst dfs2 sid2 row2 st2.
  unfold parse_child; simpl.
  destruct (negb (if decide (tag child = "itineraryFullDetail") then true
                  else st1)) eqn:Hstarted.
  { simpl. unfold loop_agree; simpl. by split_and!. }
  destruct (decide (tag child = "solution")) as [Hsol | Hsol].
  - unfold update_flight_details, handle_create_df_row.
    rewrite Hsol. simpl. unfold loop_agree; simpl.
    split_and!; first [done | apply fd_agree_refl].
  - destruct acc1 as [x |], acc2 as [y |]; simpl in Hacc; try done;
      try (simpl; unfold loop_agree; simpl; by split_and!).
    pose proof (update_flight_details_agree child x y
                  (process_dict_updates child w1)
                  (process_dict_updates child w2) Hacc) as Hupd.
    destruct (update_flight_details child x (process_dict_updates child w1))
      as [[e1 | x'] w1'],
      (update_flight_details child y (process_dict_updates child w2))
      as [[e2 | y'] w2']; simpl in Hupd; try done.
    unfold handle_create_df_row.
    destruct (decide (tag child = "aircraft")) as [_ | _];
      [| simpl; unfold loop_agree; simpl; by split_and!].
    rewrite <- (validate_flight_details_agree x' y' Hupd).
    destruct (validate_flight_details x') eqn:Hv; simpl.
    + rewrite (create_flight_row_agree x' y' row1 Hupd Hv).
      unfold loop_agree; simpl; by split_and!.
    + unfold loop_agree; simpl; by split_and!.
Qed.

Lemma parse_children_agree ft qt bn l a b w1 w2 :
  loop_agree a b →
  outcome_agree (parse_children ft qt bn a l w1).1
                (parse_children ft qt bn b l w2).1.
Proof.
  revert a b w1 w2. induction l as [| child l IH]; intros a b w1 w2 Hab.
  { done. }
  simpl.
  pose proof (parse_child_agree ft qt bn a b child w1 w2 Hab) as Hstep.
  destruct (parse_child ft qt bn a child w1) as [[e1 | a'] w1'],
    (parse_child ft qt bn b child w2) as [[e2 | b'] w2'];
    simpl in Hstep; try done.
  by apply IH.
Qed.

(** Reading a child touches the clock at most. *)
Lemma update_flight_details_world child st w :
  dictionaries (update_flight_details child st w).2 = dictionaries w ∧
  logged (update_flight_details child st w).2 = logged w ∧
  clock (update_flight_details child st w).2 = clock w.
Proof.
  unfold update_flight_details, update_leg_info, now.
  repeat case_decide; simpl; try done.
  repeat case_match; simplify_eq; done.
Qed.

(** The reference accumulators after an iteration are those that
    [process_dict_updates] leaves, whatever the loop variables. *)
Lemma parse_child_dictionaries ft qt bn ls child w :
  dictionaries (parse_child ft qt bn ls child w).2
  = dictionaries (process_dict_updates child w).
Proof.
  unfold parse_child.
  destruct (negb _); [done |].
  destruct (if decide (tag child = "solution") then _ else _) as [sid acc].
  destruct acc as [st |]; [| done].
  pose proof (update_flight_details_world child st
                (process_dict_updates child w)) as (Hd & _ & _).
  destruct (update_flight_details child st (process_dict_updates child w))
    as [[e | st'] w']; simpl in Hd; [done |].
  destruct (handle_create_df_row child st' (row ls)) as [[] | []]; done.
Qed.

Lemma process_dict_updates_world child w :
  logged (process_dict_updates child w) = logged w ∧
  clock (process_dict_updates child w) = clock w ∧
  ticks (process_dict_updates child w) = ticks w.
Proof. unfold process_dict_updates. by case_match. Qed.

Lemma process_dict_updates_dictionaries child w1 w2 :
  dictionaries w1 = dictionaries w2 →
  dictionaries (process_dict_updates child w1)
  = dictionaries (process_dict_updates child w2).
Proof.
  intros H. unfold process_dict_updates. rewrite H.
  by destruct (dictionaries w2 !! tag child).
Qed.

Lemma parse_children_dictionaries_agree ft qt bn l a b w1 w2 :
  loop_agree a b → dictionaries w1 = dictionaries w2 →
  dictionaries (parse_children ft qt bn a l w1).2
  = dictionaries (parse_children ft qt bn b l w2).2.
Proof.
  revert a b w1 w2. induction l as [| child l IH]; intros a b w1 w2 Hab Hd.
  { done. }
  simpl.
  pose proof (parse_child_agree ft qt bn a b child w1 w2 Hab) as Hstep.
  pose proof (parse_child_dictionaries ft qt bn a child w1) as Hd1.
  pose proof (parse_child_dictionaries ft qt bn b child w2) as Hd2.
  rewrite (process_dict_updates_dictionaries child w1 w2 Hd) in Hd1.
  destruct (parse_child ft qt bn a child w1) as [[e1 | a'] w1'],
    (parse_child ft qt bn b child w2) as [[e2 | b'] w2'];
    simpl in *; try done; [congruence |].
  apply IH; [done | congruence].
Qed.

Lemma parse_results_loop_result t ft qt bn w :
  (parse_results t ft qt bn w).1
  = loop_result (parse_children ft qt bn initial_loop_state (iter t) w).1.
Proof.
  unfold parse_results.
  by destruct (parse_children ft qt bn initial_loop_state (iter t) w) as [[] ?].
Qed.

Lemma parse_results_world t ft qt bn w :
  (parse_results t ft qt bn w).2
  = (parse_children ft qt bn initial_loop_state (iter t) w).2.
Proof.
  unfold parse_results.
  by destruct (parse_children ft qt bn initial_loop_state (iter t) w) as [[] ?].
Qed.

Lemma loop_result_agree a b :
  outcome_agree a b → loop_result a = loop_result b.
Proof.
  destruct a as [e1 | x], b as [e2 | y]; simpl; try done; [congruence |].
  intros (Hd & Hs & Hr & _). congruence.
Qed.

(** C5. Two runs of the parser over the same document, flight type, query
    type and batch number return the same rows, the same row counter and the
    same itinerary counter (or raise the same exception), whatever the clock
    reads and whatever the accumulators held; started from equal
    accumulators, they also leave equal accumulators. *)
Theorem parse_results_deterministic results_tree ft qt bn w1 w2 :
  (parse_results results_tree ft qt bn w1).1
  = (parse_results results_tree ft qt bn w2).1
  ∧ (dictionaries w1 = dictionaries w2 →
     dictionaries (parse_results results_tree ft qt bn w1).2
     = dictionaries (parse_results results_tree ft qt bn w2).2).
Proof.
  split.
  - rewrite !parse_results_loop_result.
    apply loop_result_agree, parse_children_agree, loop_agree_refl.
  - intros Hd. rewrite !parse_results_world.
    apply parse_children_dictionaries_agree; [apply loop_agree_refl | done].
Qed.

Lemma parse_results_deterministic_witness :
  (parse_results sample_results_partial FT_F ORIGIN 1
     (initial_world sample_clock)).1
  = (parse_results sample_results_partial FT_F ORIGIN 1
       (initial_world sample_clock2)).1
  ∧ dictionaries (parse_results sample_results_partial FT_F ORIGIN 1
                    (initial_world sample_clock)).2
    = dictionaries (parse_results sample_results_partial FT_F ORIGIN 1
                      (initial_world sample_clock2)).2.
Proof.
  pose proof (parse_results_deterministic sample_results_partial FT_F ORIGIN 1
                (initial_world sample_clock) (initial_world sample_clock2))
    as [Hout Hdict].
  split; [exact Hout | apply Hdict; reflexivity].
Defined.

(** The clock is read on the way, and the record that held its reading is
    dropped: one row, one diagnostic. *)
Example sample_results_partial_rows :
  let run := parse_results sample_results_partial FT_F ORIGIN 1
               (initial_world sample_clock) in
  run.1 = inr ([ mkLegRecord 0 "F" (Some "MBA") (Some "DAR") (Some "KQ100")
                   (Some "KQ") (Some "Boeing 737") (Some "NARROW") 1
                   (VStr "2024-01-01T12:00+03:00")
                   (VStr "2024-01-01T13:30+03:00") "ORIGIN" 1 ], 1, 1)
  ∧ logged run.2 = [invalid_row_diagnostic] ∧ ticks run.2 = 1%nat.
Proof. vm_compute. done. Qed.

(** ** Elements ahead of the first itinerary *)

Lemma accumulate_world l w :
  logged (accumulate l w) = logged w ∧ clock (accumulate l w) = clock w ∧
  ticks (accumulate l w) = ticks w.
Proof.
  revert w. induction l as [| child l IH]; intros w; [done |].
  unfold accumulate in *. simpl.
  destruct (IH (process_dict_updates child w)) as (-> & -> & ->).
  apply process_dict_updates_world.
Qed.

(** *** What an element appends to the accumulators *)

Lemma append_to_dict_lists_lookup target row_dict k :
  append_to_dict_lists target row_dict !! k
  = (λ l, l ++ option_list (row_dict !! k)) <$> target !! k.
Proof.
  revert k. unfold append_to_dict_lists.
  apply (map_fold_weak_ind
           (λ r m, ∀ k, r !! k
                        = (λ l, l ++ option_list (m !! k)) <$> target !! k)).
  - intros k. rewrite lookup_empty.
    destruct (target !! k); simpl; by rewrite ?app_nil_r.
  - intros i x m r Hi IH k. destruct (decide (i = k)) as [-> | Hne].
    + rewrite (lookup_insert_eq m). pose proof (IH k) as Hk.
      rewrite Hi in Hk. rewrite Hk.
      destruct (target !! k) as [l |]; simpl; [| by rewrite Hk].
      by rewrite lookup_insert_eq, app_nil_r.
    + rewrite (lookup_insert_ne m) by done. rewrite <- IH.
      destruct (r !! i); [by rewrite lookup_insert_ne | done].
Qed.

Lemma process_dict_updates_column child w t k :
  column (process_dict_updates child w) t k
  = (λ c, c ++ (if decide (tag child = t) then option_list (attrib child !! k)
                else [])) <$> column w t k.
Proof.
  unfold column, process_dict_updates.
  destruct (decide (tag child = t)) as [<- | Hne].
  - destruct (dictionaries w !! tag child) as [target |] eqn:Ht; simpl.
    + rewrite lookup_insert_eq. simpl. apply append_to_dict_lists_lookup.
    + by rewrite Ht.
  - assert (∀ o : option (list string), o = (λ c, c ++ []) <$> o) as Hid.
    { intros [c |]; simpl; by rewrite ?app_nil_r. }
    rewrite <- Hid.
    destruct (dictionaries w !! tag child); simpl; [| done].
    by rewrite lookup_insert_ne.
Qed.

Lemma column_dictionaries w1 w2 t k :
  dictionaries w1 = dictionaries w2 → column w1 t k = column w2 t k.
Proof. unfold column. by intros ->. Qed.

Lemma parse_child_column ft qt bn ls child w t k :
  column (parse_child ft qt bn ls child w).2 t k
  = (λ c, c ++ (if decide (tag child = t) then option_list (attrib child !! k)
                else [])) <$> column w t k.
Proof.
  rewrite <- process_dict_updates_column.
  apply column_dictionaries, parse_child_dictionaries.
Qed.

Lemma accumulate_column l w t k :
  column (accumulate l w) t k
  = (λ c, c ++ column_values t k l) <$> column w t k.
Proof.
  revert w. induction l as [| child l IH]; intros w.
  { unfold column_values. simpl.
    destruct (column w t k); simpl; by rewrite ?app_nil_r. }
  unfold accumulate in *. simpl. rewrite IH, process_dict_updates_column.
  rewrite <- option_fmap_compose. apply option_fmap_ext. intros c. simpl.
  rewrite <- app_assoc. f_equal. unfold column_values.
  rewrite filter_cons. destruct (decide (tag child = t)); [| done].
  simpl. by destruct (attrib child !! k).
Qed.

Lemma accumulate_dictionaries l w1 w2 :
  dictionaries w1 = dictionaries w2 →
  dictionaries (accumulate l w1) = dictionaries (accumulate l w2).
Proof.
  revert w1 w2. induction l as [| child l IH]; intros w1 w2 Hd; [done |].
  unfold accumulate in *. simpl.
  by apply IH, process_dict_updates_dictionaries.
Qed.

(** A walk that does not raise has shown every element to the
    accumulators. *)
Lemma parse_children_accumulate ft qt bn l ls w :
  succeeded (parse_children ft qt bn ls l w).1 = true →
  dictionaries (parse_children ft qt bn ls l w).2
  = dictionaries (accumulate l w).
Proof.
  revert ls w. induction l as [| child l IH]; intros ls w Hrun; [done |].
  simpl in *.
  pose proof (parse_child_dictionaries ft qt bn ls child w) as Hd.
  destruct (parse_child ft qt bn ls child w) as [[e | ls1] w1]; [done |].
  rewrite IH by done. unfold accumulate at 2. simpl.
  by apply accumulate_dictionaries.
Qed.

Lemma parse_children_before_marker ft qt bn l w :
  Forall (λ e, tag e ≠ "itineraryFullDetail") l →
  parse_children ft qt bn (idle_loop_state false) l w
  = (inr (idle_loop_state false), accumulate l w).
Proof.
  intros Hl. revert w. induction Hl as [| child l Hc _ IH]; intros w; [done |].
  simpl. unfold parse_child at 1.
  destruct (decide (tag child = "itineraryFullDetail")); [done |].
  simpl. apply IH.
Qed.

Lemma parse_children_before_solution ft qt bn l w started :
  Forall (λ e, tag e ≠ "solution") l →
  parse_children ft qt bn (idle_loop_state started) l w
  = (inr (idle_loop_state
            (started || bool_decide (Exists (λ e, tag e = "itineraryFullDetail") l))),
     accumulate l w).
Proof.
  intros Hl. revert w started.
  induction Hl as [| child l Hc _ IH]; intros w started.
  { rewrite bool_decide_eq_false_2 by (by intros ?%Exists_nil).
    by rewrite orb_false_r. }
  cbn [parse_children]. unfold parse_child at 1.
  cbn [started_yet idle_loop_state state dfs row s_id].
  destruct (decide (tag child = "solution")) as [? | _]; [done |].
  destruct (decide (tag child = "itineraryFullDetail")) as [Hm | Hm].
  - cbn [negb]. fold (idle_loop_state true). rewrite IH.
    rewrite (bool_decide_eq_true_2 (Exists _ (child :: l)))
      by (by apply Exists_cons_hd).
    by rewrite orb_true_r.
  - rewrite (bool_decide_ext (Exists _ (child :: l))
               (Exists (λ e, tag e = "itineraryFullDetail") l))
      by (rewrite Exists_cons; tauto).
    destruct started; cbn [negb orb].
    + fold (idle_loop_state true). by rewrite IH.
    + fold (idle_loop_state false). by rewrite IH.
Qed.

(** C7. Let the document begin with elements [pre1] none of which is the
    results-start marker, followed by elements [pre2] none of which starts
    an itinerary.  After them the loop holds no row, zero counters and no
    record in progress, and the world differs from the initial one in the
    reference accumulators only; the rows and counters of the whole
    document are those of the walk over the remaining elements from that
    empty loop state, in any world.  The accumulators are updated at every
    element, whatever the loop holds: an element of kind [t] appends its
    attribute [k], when it has one, to column [k] of the accumulator of kind
    [t], and leaves every other column as it is.  So after [pre1] and
    [pre2] every column has grown by the values these elements hold for it,
    in document order, and after a parse that does not raise by the values
    of the whole document. *)
Theorem elements_before_first_itinerary results_tree ft qt bn pre1 pre2 rest w :
  iter results_tree = pre1 ++ pre2 ++ rest →
  Forall (λ e, tag e ≠ "itineraryFullDetail") pre1 →
  Forall (λ e, tag e ≠ "solution") pre2 →
  let started :=
    bool_decide (Exists (λ e, tag e = "itineraryFullDetail") pre2) in
  parse_children ft qt bn initial_loop_state (pre1 ++ pre2) w
    = (inr (idle_loop_state started), accumulate (pre1 ++ pre2) w)
  ∧ logged (accumulate (pre1 ++ pre2) w) = logged w
  ∧ ticks (accumulate (pre1 ++ pre2) w) = ticks w
  ∧ (∀ w0, (parse_results results_tree ft qt bn w).1
           = loop_result
               (parse_children ft qt bn (idle_loop_state started) rest w0).1)
  ∧ (∀ ls child w0,
       dictionaries (parse_child ft qt bn ls child w0).2
       = dictionaries (process_dict_updates child w0))
  ∧ (∀ ls child w0 t k,
       column (parse_child ft qt bn ls child w0).2 t k
       = (λ c, c ++ (if decide (tag child = t)
                     then option_list (attrib child !! k) else []))
           <$> column w0 t k)
  ∧ (∀ t k,
       column (parse_children ft qt bn initial_loop_state (pre1 ++ pre2) w).2
         t k
       = (λ c, c ++ column_values t k (pre1 ++ pre2)) <$> column w t k)
  ∧ (∀ t k,
       succeeded (parse_results results_tree ft qt bn w).1 = true →
       column (parse_results results_tree ft qt bn w).2 t k
       = (λ c, c ++ column_values t k (iter results_tree)) <$> column w t k).
Proof.
  intros Hiter Hpre1 Hpre2 started.
  assert (parse_children ft qt bn initial_loop_state (pre1 ++ pre2) w
          = (inr (idle_loop_state started), accumulate (pre1 ++ pre2) w))
    as Hpre.
  { rewrite parse_children_app.
    change initial_loop_state with (idle_loop_state false).
    rewrite parse_children_before_marker by done.
    rewrite parse_children_before_solution by done.
    unfold accumulate. by rewrite foldl_app. }
  split_and!.
  - exact Hpre.
  - apply accumulate_world.
  - apply accumulate_world.
  - intros w0. rewrite parse_results_loop_result, Hiter, app_assoc.
    rewrite parse_children_app, Hpre.
    apply loop_result_agree, parse_children_agree, loop_agree_refl.
  - intros ls child w0. apply parse_child_dictionaries.
  - intros ls child w0 t k. apply parse_child_column.
  - intros t k. rewrite Hpre. apply accumulate_column.
  - intros t k Hrun. rewrite <- accumulate_column.
    apply column_dictionaries. rewrite parse_results_world.
    apply parse_children_accumulate.
    rewrite parse_results_loop_result in Hrun.
    by destruct (parse_children ft qt bn initial_loop_state
                   (iter results_tree) w) as [[] ?].
Qed.

Lemma elements_before_first_itinerary_witness :
  parse_children FT_F ORIGIN 1 initial_loop_state (sample_pre1 ++ sample_pre2)
    (initial_world sample_clock)
  = (inr (idle_loop_state true),
     accumulate (sample_pre1 ++ sample_pre2) (initial_world sample_clock))
  ∧ (parse_results sample_results FT_F ORIGIN 1 (initial_world sample_clock)).1
    = loop_result
        (parse_children FT_F ORIGIN 1 (idle_loop_state true) sample_rest
           (initial_world sample_clock2)).1
  ∧ column (parse_child FT_F ORIGIN 1 initial_loop_state sample_carrier_ref
              (initial_world sample_clock)).2 "carrier" "name"
    = Some ["Kenya Airways"]
  ∧ column (parse_children FT_F ORIGIN 1 initial_loop_state
              (sample_pre1 ++ sample_pre2) (initial_world sample_clock)).2
      "aircraft" "code"
    = Some ["737"]
  ∧ column (parse_results sample_results FT_F ORIGIN 1
              (initial_world sample_clock)).2 "aircraft" "name"
    = Some ["Boeing 737"; "Boeing 737"; "Boeing 737"]
  ∧ column (parse_results sample_results FT_F ORIGIN 1
              (initial_world sample_clock)).2 "aircraft" "code"
    = Some ["737"].
Proof.
  pose proof (elements_before_first_itinerary sample_results FT_F ORIGIN 1
                sample_pre1 sample_pre2 sample_rest (initial_world sample_clock))
    as H.
  destruct H as (Hpre & _ & _ & Hrest & _ & Hstep & Hcol & Hall).
  - reflexivity.
  - apply (bool_decide_unpack _). vm_compute. exact I.
  - apply (bool_decide_unpack _). vm_compute. exact I.
  - split; [exact Hpre |]. split; [apply Hrest |]. split_and!.
    + rewrite Hstep. vm_compute. reflexivity.
    + rewrite Hcol. vm_compute. reflexivity.
    + rewrite Hall by (vm_compute; reflexivity). vm_compute. reflexivity.
    + rewrite Hall by (vm_compute; reflexivity). vm_compute. reflexivity.
Defined.

(** ** Records and the aircraft element *)

Lemma truthy_str_nonempty v : truthy_str v = true ↔ nonempty v.
Proof.
  unfold truthy_str, nonempty. destruct v as [s |].
  - rewrite negb_true_iff, bool_decide_eq_false. split.
    + intros Hs. by exists s.
    + by intros (s' & [= <-] & Hs).
  - split; [done |]. by intros (s & ? & _).
Qed.

Lemma validate_flight_details_required acc :
  validate_flight_details acc = true ↔ required_fields_nonempty acc.
Proof.
  unfold validate_flight_details, required_fields_nonempty, truthy_FlightType,
    truthy_int.
  rewrite !andb_true_iff, !truthy_str_nonempty, negb_true_iff, Z.eqb_neq.
  tauto.
Qed.

Lemma update_aircraft_info_required child acc acc' :
  update_aircraft_info child acc = inr acc' →
  validate_flight_details acc' = validate_flight_details acc.
Proof.
  unfold update_aircraft_info. intros H.
  repeat case_match; simplify_eq. done.
Qed.

(** An iteration that meets no aircraft element with a record in progress
    adds no row and logs nothing. *)
Lemma parse_child_no_row ft qt bn ls child w ls' w' :
  parse_child ft qt bn ls child w = (inr ls', w') →
  tag child ≠ "aircraft" ∨ state ls = None ∨ started_yet ls = false →
  dfs ls' = dfs ls ∧ row ls' = row ls ∧ logged w' = logged w.
Proof.
  intros Hstep Hcase.
  pose proof (process_dict_updates_world child w) as (Hlog & _ & _).
  unfold parse_child in Hstep.
  destruct (decide (tag child = "aircraft")) as [Ha | Ha].
  - rewrite Ha in Hstep. simpl in Hstep.
    destruct Hcase as [? | [Hnone | Hns]]; [done | |].
    + destruct (negb (started_yet ls)); simplify_eq; [done |].
      rewrite Hnone in Hstep. by simplify_eq.
    + rewrite Hns in Hstep. simpl in Hstep. by simplify_eq.
  - destruct (negb _); simplify_eq; [done |].
    destruct (if decide (tag child = "solution") then _ else _) as [sid acc].
    destruct acc as [st |]; simplify_eq; [| done].
    pose proof (update_flight_details_world child st
                  (process_dict_updates child w)) as (_ & Hl & _).
    destruct (update_flight_details child st (process_dict_updates child w))
      as [[e | st'] w1]; simplify_eq.
    unfold handle_create_df_row in Hstep.
    destruct (decide (tag child = "aircraft")); [done |].
    simplify_eq. simpl in *. by rewrite Hl.
Qed.

(** An iteration at an aircraft element with a record in progress. *)
Lemma parse_child_aircraft ft qt bn ls child w ls' w' acc :
  parse_child ft qt bn ls child w = (inr ls', w') →
  tag child = "aircraft" → state ls = Some acc → started_yet ls = true →
  ∃ acc', update_aircraft_info child acc = inr acc' ∧
          state ls' = Some acc' ∧ s_id ls' = s_id ls ∧
          if validate_flight_details acc
          then dfs ls' = dfs ls ++ [create_flight_row acc' (row ls)] ∧
               row ls' = row ls + 1 ∧ logged w' = logged w
          else dfs ls' = dfs ls ∧ row ls' = row ls ∧
               logged w' = logged w ++ [invalid_row_diagnostic].
Proof.
  intros Hstep Ha Hacc Hst.
  pose proof (process_dict_updates_world child w) as (Hlog & _ & _).
  unfold parse_child, update_flight_details, handle_create_df_row in Hstep.
  rewrite Ha, Hst, Hacc in Hstep. simpl in Hstep.
  destruct (update_aircraft_info child acc) as [e | acc'] eqn:Hupd;
    [by simplify_eq |].
  exists acc'. rewrite <- (update_aircraft_info_required child acc acc' Hupd).
  destruct (validate_flight_details acc'); simplify_eq; simpl.
  - by rewrite Hlog.
  - by rewrite Hlog.
Qed.

Lemma parse_child_wf ft qt bn ls child w ls' w' :
  parse_child ft qt bn ls child w = (inr ls', w') → loop_wf ls → loop_wf ls'.
Proof.
  unfold loop_wf, parse_child. intros Hstep Hwf.
  destruct (negb _) eqn:Hneg.
  - simplify_eq. simpl. intros Hsome. specialize (Hwf Hsome).
    rewrite Hwf in Hneg. by case_decide.
  - apply negb_false_iff in Hneg.
    destruct (if decide (tag child = "solution") then _ else _) as [sid acc].
    destruct acc as [st |]; simplify_eq; [| done].
    destruct (update_flight_details child st (process_dict_updates child w))
      as [[e | st'] w1]; simplify_eq.
    destruct (handle_create_df_row child st' (row ls)) as [[] | []];
      by simplify_eq.
Qed.

Lemma parse_children_wf ft qt bn l ls w ls' w' :
  parse_children ft qt bn ls l w = (inr ls', w') → loop_wf ls → loop_wf ls'.
Proof.
  revert ls w. induction l as [| child l IH]; intros ls w Hrun Hwf; simpl in *.
  { by simplify_eq. }
  destruct (parse_child ft qt bn ls child w) as [[e | ls1] w1] eqn:Hstep;
    [done |].
  eapply IH; [done |]. by eapply parse_child_wf.
Qed.

Lemma initial_loop_state_wf : loop_wf initial_loop_state.
Proof. intros [? H]. discriminate H. Qed.

(** Rows are only ever appended. *)
Lemma parse_child_dfs_prefix ft qt bn ls child w ls' w' :
  parse_child ft qt bn ls child w = (inr ls', w') → dfs ls `prefix_of` dfs ls'.
Proof.
  intros Hstep.
  destruct (decide (tag child = "aircraft")) as [Ha | Ha].
  - destruct (state ls) as [acc |] eqn:Hacc, (started_yet ls) eqn:Hst.
    + destruct (parse_child_aircraft _ _ _ _ _ _ _ _ _ Hstep Ha Hacc Hst)
        as (acc' & _ & _ & _ & Hrow).
      destruct (validate_flight_details acc).
      * destruct Hrow as (-> & _). by apply prefix_app_r.
      * by destruct Hrow as (-> & _).
    + by destruct (parse_child_no_row _ _ _ _ _ _ _ _ Hstep) as (-> & _); auto.
    + by destruct (parse_child_no_row _ _ _ _ _ _ _ _ Hstep) as (-> & _); auto.
    + by destruct (parse_child_no_row _ _ _ _ _ _ _ _ Hstep) as (-> & _); auto.
  - by destruct (parse_child_no_row _ _ _ _ _ _ _ _ Hstep) as (-> & _); auto.
Qed.

Lemma parse_children_dfs_prefix ft qt bn l ls w ls' w' :
  parse_children ft qt bn ls l w = (inr ls', w') → dfs ls `prefix_of` dfs ls'.
Proof.
  revert ls w. induction l as [| child l IH]; intros ls w Hrun; simpl in *.
  { by simplify_eq. }
  destruct (parse_child ft qt bn ls child w) as [[e | ls1] w1] eqn:Hstep;
    [done |].
  etrans; [by eapply parse_child_dfs_prefix | by eapply IH].
Qed.

(** In a document that parses, the walk reaches every element [child] with
    some loop variables [ls] and leaves it with [ls']; a row is appended
    there exactly when [child] is an aircraft element and the record in
    progress has its six required fields non-empty. *)
Lemma parse_results_row_at_element results_tree ft qt bn w out
    pre child post :
  (parse_results results_tree ft qt bn w).1 = inr out →
  iter results_tree = pre ++ child :: post →
  ∃ ls w1 ls' w1' ls_end w_end,
    parse_children ft qt bn initial_loop_state pre w = (inr ls, w1) ∧
    parse_child ft qt bn ls child w1 = (inr ls', w1') ∧
    parse_children ft qt bn ls' post w1' = (inr ls_end, w_end) ∧
    out = (dfs ls_end, row ls_end, s_id ls_end) ∧
    dfs ls' `prefix_of` dfs ls_end ∧
    ((∃ r, dfs ls' = dfs ls ++ [r]) ↔
     (tag child = "aircraft" ∧
      ∃ acc, state ls = Some acc ∧ required_fields_nonempty acc)) ∧
    (∀ r, dfs ls' = dfs ls ++ [r] →
          lr_index r = row ls ∧ row ls' = row ls + 1 ∧ logged w1' = logged w1) ∧
    (tag child = "aircraft" →
     ∀ acc, state ls = Some acc → ¬ required_fields_nonempty acc →
            dfs ls' = dfs ls ∧ row ls' = row ls ∧
            logged w1' = logged w1 ++ [invalid_row_diagnostic]) ∧
    (¬ (∃ r, dfs ls' = dfs ls ++ [r]) → dfs ls' = dfs ls ∧ row ls' = row ls).
Proof.
  intros Hparse Hiter.
  rewrite parse_results_loop_result, Hiter in Hparse.
  destruct (parse_children ft qt bn initial_loop_state (pre ++ child :: post) w)
    as [[e | ls_end] w_end] eqn:Hrun; simpl in Hparse; simplify_eq.
  apply parse_children_split in Hrun as (ls & w1 & Hpre & Hrun).
  simpl in Hrun.
  destruct (parse_child ft qt bn ls child w1) as [[e | ls'] w1'] eqn:Hstep;
    [done |].
  exists ls, w1, ls', w1', ls_end, w_end.
  pose proof (parse_children_wf _ _ _ _ _ _ _ _ Hpre initial_loop_state_wf)
    as Hwf.
  split_and!; try done.
  { by eapply parse_children_dfs_prefix. }
  all: destruct (decide (tag child = "aircraft")) as [Ha | Ha].
  all: destruct (state ls) as [acc |] eqn:Hacc.
  all: try (destruct (parse_child_no_row _ _ _ _ _ _ _ _ Hstep)
              as (Hd & Hr & Hl); [by auto |]).
  all: try (assert (started_yet ls = true) as Hst
              by (apply Hwf; rewrite Hacc; eauto);
            destruct (parse_child_aircraft _ _ _ _ _ _ _ _ _ Hstep Ha Hacc Hst)
              as (acc' & _ & _ & _ & Hrow);
            pose proof (validate_flight_details_required acc) as Hreq;
            destruct (validate_flight_details acc);
            destruct Hrow as (Hd & Hr & Hl)).
  (* the equivalence *)
  - split; [| by eauto]. intros _. split; [done |]. exists acc.
    split; [done |]. by apply Hreq.
  - split.
    + intros [r Heq]. rewrite Hd in Heq.
      apply (f_equal length) in Heq. rewrite length_app in Heq. simpl in Heq. lia.
    + intros (_ & acc0 & [= <-] & Hacc0). apply Hreq in Hacc0. done.
  - split.
    + intros [r Heq]. rewrite Hd in Heq.
      apply (f_equal length) in Heq. rewrite length_app in Heq. simpl in Heq. lia.
    + by intros (_ & acc0 & ? & _).
  - split.
    + intros [r Heq]. rewrite Hd in Heq.
      apply (f_equal length) in Heq. rewrite length_app in Heq. simpl in Heq. lia.
    + by intros (? & _).
  - split.
    + intros [r Heq]. rewrite Hd in Heq.
      apply (f_equal length) in Heq. rewrite length_app in Heq. simpl in Heq. lia.
    + by intros (? & _).
  (* the appended row *)
  - intros r Heq. rewrite Hd in Heq. apply app_inv_head in Heq.
    by simplify_eq.
  - intros r Heq. rewrite Hd in Heq.
    apply (f_equal length) in Heq. rewrite length_app in Heq. simpl in Heq. lia.
  - intros r Heq. rewrite Hd in Heq.
    apply (f_equal length) in Heq. rewrite length_app in Heq. simpl in Heq. lia.
  - intros r Heq. rewrite Hd in Heq.
    apply (f_equal length) in Heq. rewrite length_app in Heq. simpl in Heq. lia.
  - intros r Heq. rewrite Hd in Heq.
    apply (f_equal length) in Heq. rewrite length_app in Heq. simpl in Heq. lia.
  (* the dropped record *)
  - intros _ acc0 [= <-] Hnot. destruct Hnot. by apply Hreq.
  - intros _ acc0 [= <-] _. done.
  - by intros _ acc0 ?.
  - by intros ?.
  - by intros ?.
  (* no row *)
  - intros Hno. destruct Hno. eauto.
  - done.
  - done.
  - done.
  - done.
Qed.

(** An aircraft element met with a record in progress, its [name] and
    [width] attributes present: the result of the iteration, in full. *)
Lemma parse_child_aircraft_step ft qt bn ls child w acc name width :
  started_yet ls = true → state ls = Some acc → tag child = "aircraft" →
  attrib child !! "name" = Some name → attrib child !! "width" = Some width →
  parse_child ft qt bn ls child w
  = if validate_flight_details acc
    then (inr (LoopState (dfs ls ++ [row_of_record acc name width (row ls)])
                 (s_id ls) (row ls + 1) true
                 (Some (returned (update_aircraft_info child acc) acc))),
          process_dict_updates child w)
    else (inr (LoopState (dfs ls) (s_id ls) (row ls) true
                 (Some (returned (update_aircraft_info child acc) acc))),
          logger_error "Skipping invalid row: Flight details are not valid"
            (process_dict_updates child w)).
Proof.
  intros Hst Hacc Ha Hname Hwidth.
  unfold parse_child, update_flight_details, handle_create_df_row,
    update_aircraft_info, getitem.
  rewrite Ha, Hst, Hacc, Hname, Hwidth. simpl.
  change (validate_flight_details (mkFlightDetails _ _ _ _ _ _ _ _ _ _ _ _))
    with (validate_flight_details acc).
  by destruct (validate_flight_details acc).
Qed.

(** C1. Take the loop of the parser in any state that holds a record in
    progress [acc], and an aircraft element with its name and width.  The
    iteration returns.  When the six required fields of [acc] are non-empty
    it appends one row, made of the fields of [acc] and of the name and
    width of the element, indexed by the row counter, adds one to the
    counter and logs nothing.  When one of them is empty it appends no row,
    keeps the counter, logs the diagnostic and still returns, so the walk
    goes on to the next element.  Either way a row is appended exactly when
    the required fields are non-empty.  An iteration at any other element,
    or with no record in progress, appends no row and logs nothing.  In a
    document that parses, every element is reached in a state of the loop
    the walk over the elements ahead of it returns, a row is appended there
    exactly when the element is an aircraft element and the record in
    progress has its required fields non-empty, and every row appended so
    far is still in the final output. *)
Theorem parse_results_row_iff_required_fields ft qt bn :
  (∀ ls child w acc name width,
     started_yet ls = true → state ls = Some acc → tag child = "aircraft" →
     attrib child !! "name" = Some name →
     attrib child !! "width" = Some width →
     ∃ ls' w',
       parse_child ft qt bn ls child w = (inr ls', w')
       ∧ s_id ls' = s_id ls ∧ started_yet ls' = true
       ∧ is_Some (state ls')
       ∧ (required_fields_nonempty acc →
          dfs ls' = dfs ls ++ [row_of_record acc name width (row ls)]
          ∧ row ls' = row ls + 1 ∧ logged w' = logged w)
       ∧ (¬ required_fields_nonempty acc →
          dfs ls' = dfs ls ∧ row ls' = row ls
          ∧ logged w' = logged w ++ [invalid_row_diagnostic])
       ∧ ((∃ r, dfs ls' = dfs ls ++ [r]) ↔ required_fields_nonempty acc))
  ∧ (∀ ls child w ls' w',
       parse_child ft qt bn ls child w = (inr ls', w') →
       tag child ≠ "aircraft" ∨ state ls = None ∨ started_yet ls = false →
       dfs ls' = dfs ls ∧ row ls' = row ls ∧ logged w' = logged w)
  ∧ (∀ results_tree w out pre child post,
       (parse_results results_tree ft qt bn w).1 = inr out →
       iter results_tree = pre ++ child :: post →
       ∃ ls w1 ls' w1' ls_end w_end,
         parse_children ft qt bn initial_loop_state pre w = (inr ls, w1) ∧
         parse_child ft qt bn ls child w1 = (inr ls', w1') ∧
         parse_children ft qt bn ls' post w1' = (inr ls_end, w_end) ∧
         out = (dfs ls_end, row ls_end, s_id ls_end) ∧
         dfs ls' `prefix_of` dfs ls_end ∧
         ((∃ r, dfs ls' = dfs ls ++ [r]) ↔
          (tag child = "aircraft" ∧
           ∃ acc, state ls = Some acc ∧ required_fields_nonempty acc)) ∧
         (∀ r, dfs ls' = dfs ls ++ [r] →
               lr_index r = row ls ∧ row ls' = row ls + 1 ∧
               logged w1' = logged w1) ∧
         (tag child = "aircraft" →
          ∀ acc, state ls = Some acc → ¬ required_fields_nonempty acc →
                 dfs ls' = dfs ls ∧ row ls' = row ls ∧
                 logged w1' = logged w1 ++ [invalid_row_diagnostic]) ∧
         (¬ (∃ r, dfs ls' = dfs ls ++ [r]) →
          dfs ls' = dfs ls ∧ row ls' = row ls)).
Proof.
  split_and!.
  - intros ls child w acc name width Hst Hacc Ha Hname Hwidth.
    pose proof (parse_child_aircraft_step ft qt bn ls child w acc name width
                  Hst Hacc Ha Hname Hwidth) as Hstep.
    pose proof (validate_flight_details_required acc) as Hreq.
    pose proof (process_dict_updates_world child w) as (Hlog & _ & _).
    destruct (validate_flight_details acc); eexists _, _;
      (split; [exact Hstep |]); simpl; split_and!; try done.
    + intros Hnot. destruct Hnot. by apply Hreq.
    + split; [intros _; by apply Hreq | eauto].
    + intros Hyes. apply Hreq in Hyes. done.
    + intros _. by rewrite Hlog.
    + split.
      * intros [r Heq]. apply (f_equal length) in Heq.
        rewrite length_app in Heq. simpl in Heq. lia.
      * intros Hyes. apply Hreq in Hyes. done.
  - intros ls child w ls' w'. apply parse_child_no_row.
  - intros results_tree w out pre child post.
    apply parse_results_row_at_element.
Qed.

Lemma parse_results_row_iff_required_fields_witness :
  (∃ ls' w',
     parse_child FT_F ORIGIN 1 (sample_loop sample_record) sample_aircraft
       (initial_world sample_clock) = (inr ls', w')
     ∧ dfs ls'
       = [ mkLegRecord 0 "F" (Some "NBO") (Some "MBA") (Some "KQ100")
             (Some "KQ") (Some "Boeing 737") (Some "NARROW") 1
             (VStr "2024-01-01T10:00+03:00") (VStr "2024-01-01T11:00+03:00")
             "ORIGIN" 1 ]
     ∧ row ls' = 1 ∧ logged w' = [])
  ∧ (∃ ls' w',
       parse_child FT_F ORIGIN 1 (sample_loop sample_record_partial)
         sample_aircraft (initial_world sample_clock) = (inr ls', w')
       ∧ dfs ls' = [] ∧ row ls' = 0
       ∧ logged w' = [invalid_row_diagnostic])
  ∧ (∃ ls w1 ls' w1',
       parse_children FT_F ORIGIN 1 initial_loop_state
         (take 8 (iter sample_results)) (initial_world sample_clock)
       = (inr ls, w1)
       ∧ parse_child FT_F ORIGIN 1 ls sample_aircraft w1 = (inr ls', w1')
       ∧ ((∃ r, dfs ls' = dfs ls ++ [r]) ↔
          (tag sample_aircraft = "aircraft" ∧
           ∃ acc, state ls = Some acc ∧ required_fields_nonempty acc))).
Proof.
  destruct (parse_results_row_iff_required_fields FT_F ORIGIN 1)
    as (Hstep & _ & Hdoc).
  split_and!.
  - destruct (Hstep (sample_loop sample_record) sample_aircraft
                (initial_world sample_clock) sample_record
                "Boeing 737" "NARROW")
      as (ls' & w' & Heq & _ & _ & _ & Hyes & _);
      [reflexivity | reflexivity | reflexivity | reflexivity | reflexivity |].
    exists ls', w'. split; [exact Heq |]. apply Hyes.
    apply validate_flight_details_required. reflexivity.
  - destruct (Hstep (sample_loop sample_record_partial) sample_aircraft
                (initial_world sample_clock) sample_record_partial
                "Boeing 737" "NARROW")
      as (ls' & w' & Heq & _ & _ & _ & _ & Hno & _);
      [reflexivity | reflexivity | reflexivity | reflexivity | reflexivity |].
    exists ls', w'. split; [exact Heq |]. apply Hno.
    intros Hreq. apply validate_flight_details_required in Hreq.
    discriminate Hreq.
  - destruct (Hdoc sample_results (initial_world sample_clock)
                (sample_rows, 2, 1)
                (take 8 (iter sample_results)) sample_aircraft
                (drop 9 (iter sample_results)))
      as (ls & w1 & ls' & w1' & ls_end & w_end & Hpre & Hrun & _ & _ & _
          & Hiff & _).
    { vm_compute. reflexivity. }
    { reflexivity. }
    exists ls, w1, ls', w1'. split_and!; [exact Hpre | exact Hrun | exact Hiff].
Defined.

(** ** Rows have an origin *)

Lemma parse_child_rows_origin ft qt bn ls child w ls' w' :
  parse_child ft qt bn ls child w = (inr ls', w') →
  Forall (λ r, nonempty (lr_origin r)) (dfs ls) →
  Forall (λ r, nonempty (lr_origin r)) (dfs ls').
Proof.
  intros Hstep Hall.
  destruct (decide (tag child = "aircraft")) as [Ha | Ha];
    [destruct (state ls) as [acc |] eqn:Hacc, (started_yet ls) eqn:Hst |].
  2-5: by destruct (parse_child_no_row _ _ _ _ _ _ _ _ Hstep) as (-> & _); auto.
  destruct (parse_child_aircraft _ _ _ _ _ _ _ _ _ Hstep Ha Hacc Hst)
    as (acc' & Hupd & _ & _ & Hrow).
  destruct (validate_flight_details acc) eqn:Hv.
  - destruct Hrow as (-> & _). apply Forall_app. split; [done |].
    apply Forall_singleton. simpl. apply truthy_str_nonempty.
    apply validate_flight_details_origin.
    by rewrite (update_aircraft_info_required _ _ _ Hupd).
  - by destruct Hrow as (-> & _).
Qed.

Lemma parse_children_rows_origin ft qt bn l ls w ls' w' :
  parse_children ft qt bn ls l w = (inr ls', w') →
  Forall (λ r, nonempty (lr_origin r)) (dfs ls) →
  Forall (λ r, nonempty (lr_origin r)) (dfs ls').
Proof.
  revert ls w. induction l as [| child l IH]; intros ls w Hrun Hall; simpl in *.
  { by simplify_eq. }
  destruct (parse_child ft qt bn ls child w) as [[e | ls1] w1] eqn:Hstep;
    [done |].
  eapply IH; [done |]. by eapply parse_child_rows_origin.
Qed.

Lemma parse_results_rows_origin t ft qt bn w rows n s :
  (parse_results t ft qt bn w).1 = inr (rows, n, s) →
  Forall (λ r, nonempty (lr_origin r)) rows.
Proof.
  rewrite parse_results_loop_result. intros H.
  destruct (parse_children ft qt bn initial_loop_state (iter t) w)
    as [[e | ls] w1] eqn:Hrun; simpl in H; simplify_eq.
  eapply parse_children_rows_origin; [done |]. constructor.
Qed.

Lemma Forall_imap_set_index (P : LegRecord → Prop) (l : list LegRecord) :
  (∀ r i, P r → P (set_index i r)) →
  Forall P l → Forall P (imap (λ i r, set_index (Z.of_nat i) r) l).
Proof.
  intros HP Hl. apply Forall_forall. intros r Hr.
  apply elem_of_lookup_imap in Hr as (i & r0 & -> & Hi).
  apply HP. eapply Forall_forall; [done |]. by eapply list_elem_of_lookup_2.
Qed.

(** C9. Every row the parser returns has a non-empty origin; hence the
    cleaning step, which removes the rows of empty origin, removes nothing
    from a dataset put together from frames the parser returned. *)
Theorem parser_rows_survive_cleaning (frames : list (list LegRecord)) :
  Forall (λ rows, ∃ t ft qt bn w n s,
            (parse_results t ft qt bn w).1 = inr (rows, n, s)) frames →
  Forall (Forall (λ r, nonempty (lr_origin r))) frames ∧
  Forall (λ r, nonempty (lr_origin r)) (pd_concat frames) ∧
  clean_raw_flight_data (pd_concat frames) = pd_concat frames ∧
  length (clean_raw_flight_data (pd_concat frames))
  = length (pd_concat frames).
Proof.
  intros Hframes.
  assert (Forall (Forall (λ r, nonempty (lr_origin r))) frames) as Hrows.
  { eapply Forall_impl; [exact Hframes |]. simpl.
    intros rows (t & ft & qt & bn & w & n & s & Hparse).
    by eapply parse_results_rows_origin. }
  assert (Forall (λ r, nonempty (lr_origin r)) (pd_concat frames)) as Hall.
  { unfold pd_concat. apply Forall_imap_set_index; [by intros r i |].
    apply Forall_concat, Hrows. }
  assert (clean_raw_flight_data (pd_concat frames) = pd_concat frames) as Hclean.
  { unfold clean_raw_flight_data.
    induction Hall as [| r l (s & Hs & Hne) _ IH]; [done |].
    rewrite filter_cons_True; [by rewrite IH |].
    rewrite Hs. by intros [= ->]. }
  split_and!; try done. by rewrite Hclean.
Qed.

Lemma parser_rows_survive_cleaning_witness :
  clean_raw_flight_data (pd_concat [sample_rows; sample_rows_partial])
  = pd_concat [sample_rows; sample_rows_partial]
  ∧ length (pd_concat [sample_rows; sample_rows_partial]) = 3%nat.
Proof.
  split; [| reflexivity].
  apply (parser_rows_survive_cleaning [sample_rows; sample_rows_partial]).
  constructor; [| constructor; [| constructor]].
  - exists sample_results, FT_F, ORIGIN, 1, (initial_world sample_clock).
    exists 2, 1. vm_compute. reflexivity.
  - exists sample_results_partial, FT_H, DESTINATION, 2,
      (initial_world sample_clock).
    exists 1, 1. vm_compute. reflexivity.
Defined.

(** ** The record in progress between two rows *)

Lemma update_flight_details_keeps child acc w acc' w' :
  update_flight_details child acc w = (inr acc', w') →
  fd_s_id acc' = fd_s_id acc ∧ fd_flight_type acc' = fd_flight_type acc ∧
  fd_query_type acc' = fd_query_type acc ∧
  fd_batch_num acc' = fd_batch_num acc ∧
  (tag child ≠ "flight" →
   fd_f_id acc' = fd_f_id acc ∧ fd_carrier acc' = fd_carrier acc) ∧
  (tag child ≠ "leg" →
   fd_origin acc' = fd_origin acc ∧ fd_destination acc' = fd_destination acc ∧
   fd_depart_dt acc' = fd_depart_dt acc ∧ fd_arrive_dt acc' = fd_arrive_dt acc) ∧
  (tag child ≠ "aircraft" →
   fd_aircraft acc' = fd_aircraft acc ∧ fd_width acc' = fd_width acc).
Proof.
  unfold update_flight_details, update_flight_info, update_leg_info,
    update_aircraft_info, now.
  intros H. repeat case_decide; repeat case_match; simplify_eq; simpl;
    split_and!; try done; intros; split_and!; done.
Qed.

(** Away from a solution element the record in progress stays in place,
    and [update_flight_details] is all that can have changed it. *)
Lemma parse_child_state ft qt bn ls child w ls' w' acc :
  parse_child ft qt bn ls child w = (inr ls', w') →
  tag child ≠ "solution" → state ls = Some acc →
  s_id ls' = s_id ls ∧
  ∃ acc', state ls' = Some acc' ∧
          (acc' = acc ∨
           ∃ w0 w0', update_flight_details child acc w0 = (inr acc', w0')).
Proof.
  intros Hstep Hsol Hacc. unfold parse_child in Hstep.
  destruct (negb _); [simplify_eq; simpl; eauto |].
  destruct (decide (tag child = "solution")); [done |].
  rewrite Hacc in Hstep.
  destruct (update_flight_details child acc (process_dict_updates child w))
    as [[e | acc'] w1] eqn:Hupd; simplify_eq.
  destruct (handle_create_df_row child acc' (row ls)) as [[] | []];
    simplify_eq; simpl; eauto 10.
Qed.

(** At a solution element, once the marker has been seen, a fresh record
    replaces the one in progress and the itinerary counter goes up. *)
Lemma parse_child_solution ft qt bn ls child w :
  tag child = "solution" → started_yet ls = true →
  (parse_child ft qt bn ls child w).1
  = inr (LoopState (dfs ls) (s_id ls + 1) (row ls) true
           (Some (new_FlightDetails ft (s_id ls + 1) qt bn))).
Proof.
  intros Hsol Hst.
  unfold parse_child, update_flight_details, handle_create_df_row.
  rewrite Hsol, Hst. reflexivity.
Qed.







(** * Properties of the batch planner *)

Example sample_queries_codes :
  match sample_queries with
  | inr qs => payload_summary <$> qs
  | inl _ => []
  end = [ (["ADD"; "NBO"], ["DXB"; "LHR"], 1);
          (["MBA"; "KIS"], ["DXB"; "LHR"], 2) ].
Proof. vm_compute. reflexivity. Qed.

(** ** Chunks *)

Lemma py_range_positive (stop step : Z) :
  0 < step →
  py_range 0 stop step
  = inr ((λ k : nat, Z.of_nat k * step)
           <$> seq 0 (Z.to_nat ((stop + step - 1) `div` step))).
Proof.
  intros Hstep. unfold py_range.
  destruct (decide (step = 0)); [lia |].
  destruct (decide (0 < step)); [| lia].
  f_equal. rewrite Z.sub_0_r. apply list_fmap_ext. intros _ k _. lia.
Qed.

Lemma py_slice_chunk {A : Type} (items : list A) (k : nat) (size : Z) :
  0 < size →
  py_slice items (Z.of_nat k * size) (Z.of_nat k * size + size)
  = take (Z.to_nat size) (drop (k * Z.to_nat size) items).
Proof.
  intros Hsize. unfold py_slice, slice_bound.
  set (len := length items).
  destruct (decide (Z.of_nat k * size < 0)); [nia |].
  destruct (decide (Z.of_nat k * size + size < 0)); [nia |].
  assert (Z.of_nat (k * Z.to_nat size) = Z.of_nat k * size) as Hk by nia.
  destruct (decide (Z.of_nat k * size ≤ Z.of_nat len)) as [Hle | Hgt].
  - rewrite (Z.min_l (Z.of_nat k * size)) by lia.
    replace (Z.to_nat (Z.of_nat k * size)) with (k * Z.to_nat size)%nat by lia.
    destruct (decide (Z.of_nat k * size + size ≤ Z.of_nat len)).
    + rewrite Z.min_l by lia. f_equal. lia.
    + rewrite Z.min_r by lia.
      rewrite (take_ge _ (Z.to_nat size))
        by (rewrite length_drop; fold len; lia).
      apply take_ge. rewrite length_drop. fold len. lia.
  - rewrite !Z.min_r by lia. rewrite Z.sub_diag. simpl.
    rewrite (drop_ge items (k * Z.to_nat size)) by (fold len; lia).
    by rewrite take_nil.
Qed.

Lemma concat_chunks {A : Type} (s n : nat) (l : list A) :
  (length l ≤ n * s)%nat →
  concat ((λ k : nat, take s (drop (k * s) l)) <$> seq 0 n) = l.
Proof.
  revert l. induction n as [| n IH]; intros l Hlen.
  { destruct l; [done | simpl in Hlen; lia]. }
  rewrite <- cons_seq, <- fmap_S_seq. simpl. rewrite <- list_fmap_compose.
  etrans; [| apply (take_drop s l)]. f_equal.
  etrans; [| apply (IH (drop s l)); rewrite length_drop; lia].
  f_equal. apply list_fmap_ext. intros _ k _. simpl.
  by rewrite drop_drop, Nat.add_comm.
Qed.

Lemma batch_list_positive {A : Type} (items : list A) (size : Z) :
  0 < size →
  ∃ batches, batch_list items size = inr batches ∧
             concat batches = items ∧
             Forall (λ b, Z.of_nat (length b) ≤ size) batches.
Proof.
  intros Hsize. unfold batch_list. rewrite py_range_positive by done.
  eexists. split; [reflexivity |].
  rewrite <- list_fmap_compose.
  set (n := Z.to_nat ((Z.of_nat (length items) + size - 1) `div` size)).
  assert (((λ i, py_slice items i (i + size)) ∘ (λ k : nat, Z.of_nat k * size))
            <$> seq 0 n
          = (λ k : nat, take (Z.to_nat size) (drop (k * Z.to_nat size) items))
            <$> seq 0 n) as ->.
  { apply list_fmap_ext. intros _ k _. simpl. by apply py_slice_chunk. }
  split.
  - apply concat_chunks.
    assert (Z.of_nat (length items) ≤ Z.of_nat n * size); [| nia].
    unfold n. rewrite Z2Nat.id by (apply Z.div_pos; lia).
    pose proof (Z.mul_div_le (Z.of_nat (length items) + size - 1) size Hsize).
    pose proof (Z.mod_pos_bound (Z.of_nat (length items) + size - 1) size Hsize).
    pose proof (Z.div_mod (Z.of_nat (length items) + size - 1) size). lia.
  - apply Forall_fmap, Forall_forall. intros k _. simpl.
    rewrite length_take. lia.
Qed.

Lemma batch_list_zero {A : Type} (items : list A) :
  batch_list items 0 = inl (ValueError "range() arg 3 must not be zero").
Proof. reflexivity. Qed.

Lemma batch_list_negative {A : Type} (items : list A) (size : Z) :
  size < 0 → batch_list items size = inr [].
Proof.
  intros Hsize. unfold batch_list, py_range.
  destruct (decide (size = 0)); [lia |].
  destruct (decide (0 < size)); [lia |].
  rewrite Z.sub_0_l.
  set (q := (- Z.of_nat (length items) - size - 1) `div` (- size)).
  assert (q ≤ 0) as Hq.
  { apply Z.lt_succ_r, Z.div_lt_upper_bound; lia. }
  by replace (Z.to_nat q) with 0%nat by lia.
Qed.

(** ** Payloads *)

Lemma foldl_SubElement_text (t : string) (codes : list string) pt pa px cs :
  foldl (λ s code, SubElement_text s t code) (Elem pt pa px cs) codes
  = Elem pt pa px (cs ++ (code_element t <$> codes)).
Proof.
  revert cs. induction codes as [| code codes IH]; intros cs; simpl.
  { by rewrite app_nil_r. }
  rewrite IH. by rewrite <- app_assoc.
Qed.

Lemma iter_leaves tg a x (cs : list Element) :
  Forall (λ c, children c = []) cs → iter (Elem tg a x cs) = Elem tg a x cs :: cs.
Proof.
  intros Hcs. simpl. f_equal.
  induction Hcs as [| c cs Hc _ IH]; [done |].
  destruct c as [ct ca cx ccs]. simpl in Hc. subst ccs. simpl. by rewrite IH.
Qed.

Lemma code_elements_leaves (t : string) (codes : list string) :
  Forall (λ c, children c = []) (code_element t <$> codes).
Proof. apply Forall_fmap, Forall_forall. by intros. Qed.

Lemma filter_code_elements_same (t : string) (codes : list string) :
  filter (λ c, tag c = t) (code_element t <$> codes) = code_element t <$> codes.
Proof.
  induction codes as [| code codes IH]; [done |].
  rewrite fmap_cons, filter_cons_True by done. by rewrite IH.
Qed.

Lemma filter_code_elements_other (t t' : string) (codes : list string) :
  t' ≠ t → filter (λ c, tag c = t) (code_element t' <$> codes) = [].
Proof.
  intros Hne. induction codes as [| code codes IH]; [done |].
  rewrite fmap_cons, filter_cons_False by done. by rewrite IH.
Qed.

Lemma filter_tag_none (t : string) (l : list Element) :
  Forall (λ c, tag c ≠ t) l → filter (λ c, tag c = t) l = [].
Proof.
  induction 1 as [| c l Hc _ IH]; [done |].
  by rewrite filter_cons_False.
Qed.

Lemma omap_text_code_elements (t : string) (codes : list string) :
  omap text (code_element t <$> codes) = codes.
Proof.
  induction codes as [| code codes IH]; [done |].
  change (code :: omap text (code_element t <$> codes) = code :: codes).
  by rewrite IH.
Qed.

Section BatchPlannerProperties.

Variables origins_iata_codes destinations_iata_codes
          origin_and_destination_iata_codes : list string.
Variable get_parameters_dict : string → gmap string string.
Variable get_parameter_value : string → string.
Variable today : nat → string.

(** The walk over a payload: the fixed header, then the primary codes given,
    then all the secondary codes, then the summarizer. *)
Lemma iter_build_query qt ft k codes :
  ∃ header slice_element summarizer,
    iter (build_query origins_iata_codes destinations_iata_codes
            get_parameters_dict get_parameter_value today qt ft k codes)
    = header ++ [slice_element]
      ++ [ Elem "date" ∅ (Some (today k)) [];
           Elem "minConnectionTime" ∅
             (Some (get_parameter_value "minConnectionTime")) [];
           Elem "maxStopCount" ∅ (Some (get_parameter_value "maxStopCount")) [];
           Elem "daysAfter" ∅ (Some (get_parameter_value "daysAfter")) [] ]
      ++ (code_element (primary_element qt) <$> codes)
      ++ (code_element (secondary_element qt)
            <$> secondary_codes origins_iata_codes destinations_iata_codes qt)
      ++ [summarizer]
    ∧ (tag <$> header)
      = ["search"; "inputs"; "searchControl"; "permittedServiceType"]
    ∧ tag slice_element = "slice" ∧ tag summarizer = "summarizer".
Proof.
  unfold build_query, create_base_xml.
  rewrite !foldl_SubElement_text.
  set (sl := Elem "slice" _ _ _).
  assert (iter sl = sl :: children sl) as Hsl.
  { unfold sl. apply iter_leaves. cbn [children].
    rewrite !Forall_app. split_and!; try apply code_elements_leaves.
    by repeat constructor. }
  exists [ Elem "search" (get_parameters_dict "search") None
             [ Elem "inputs" ∅ None
                 [ Elem "searchControl" (get_parameters_dict "searchControl")
                     None
                     [ Elem "permittedServiceType" ∅
                         (Some (FlightType_name ft)) []; sl ] ];
               Elem "summarizer" ∅ (Some (get_parameter_value "summarizer")) [] ];
           Elem "inputs" ∅ None
             [ Elem "searchControl" (get_parameters_dict "searchControl") None
                 [ Elem "permittedServiceType" ∅
                     (Some (FlightType_name ft)) []; sl ] ];
           Elem "searchControl" (get_parameters_dict "searchControl") None
             [ Elem "permittedServiceType" ∅ (Some (FlightType_name ft)) [];
               sl ];
           Elem "permittedServiceType" ∅ (Some (FlightType_name ft)) [] ],
    sl, (Elem "summarizer" ∅ (Some (get_parameter_value "summarizer")) []).
  split; [| by split_and!].
  change (iter (Elem "search" ?a ?x ?cs)) with
    (Elem "search" a x cs
       :: Elem "inputs" ∅ None
            [ Elem "searchControl" (get_parameters_dict "searchControl") None
                [ Elem "permittedServiceType" ∅ (Some (FlightType_name ft)) [];
                  sl ] ]
       :: Elem "searchControl" (get_parameters_dict "searchControl") None
            [ Elem "permittedServiceType" ∅ (Some (FlightType_name ft)) []; sl ]
       :: Elem "permittedServiceType" ∅ (Some (FlightType_name ft)) []
       :: ((iter sl ++ []) ++ [])
       ++ [Elem "summarizer" ∅ (Some (get_parameter_value "summarizer")) []]).
  rewrite Hsl, !app_nil_r. unfold sl at 5. cbn [children].
  rewrite <- !app_assoc. cbn [app]. by rewrite <- app_assoc.
Qed.

Lemma payload_codes_build_query qt ft k codes :
  payload_codes (primary_element qt)
    (build_query origins_iata_codes destinations_iata_codes
       get_parameters_dict get_parameter_value today qt ft k codes) = codes
  ∧ payload_codes (secondary_element qt)
      (build_query origins_iata_codes destinations_iata_codes
         get_parameters_dict get_parameter_value today qt ft k codes)
    = secondary_codes origins_iata_codes destinations_iata_codes qt.
Proof.
  destruct (iter_build_query qt ft k codes)
    as (header & sl & sm & Hiter & Hh & Hsl & Hsm).
  unfold payload_codes, iter_tag. rewrite Hiter.
  destruct header as [| h1 [| h2 [| h3 [| h4 [| ? ?]]]]]; try discriminate Hh.
  injection Hh as Hh1 Hh2 Hh3 Hh4.
  assert (∀ t, t = "origin" ∨ t = "destination" →
               Forall (λ c, tag c ≠ t) [h1; h2; h3; h4]
               ∧ Forall (λ c, tag c ≠ t) [sl]
               ∧ Forall (λ c, tag c ≠ t)
                   [ Elem "date" ∅ (Some (today k)) [];
                     Elem "minConnectionTime" ∅
                       (Some (get_parameter_value "minConnectionTime")) [];
                     Elem "maxStopCount" ∅
                       (Some (get_parameter_value "maxStopCount")) [];
                     Elem "daysAfter" ∅
                       (Some (get_parameter_value "daysAfter")) [] ]
               ∧ Forall (λ c, tag c ≠ t) [sm]) as Hfixed.
  { intros t Ht. rewrite <- !Forall_app. repeat constructor;
      cbn [tag]; rewrite ?Hh1, ?Hh2, ?Hh3, ?Hh4, ?Hsl, ?Hsm;
      by destruct Ht as [-> | ->]. }
  rewrite !filter_app.
  split.
  - destruct (Hfixed (primary_element qt)) as (H1 & H2 & H3 & H4);
      [destruct qt; auto |].
    rewrite (filter_tag_none _ _ H1), (filter_tag_none _ _ H2),
      (filter_tag_none _ _ H3), (filter_tag_none _ _ H4).
    rewrite filter_code_elements_same.
    rewrite (filter_code_elements_other (primary_element qt)
               (secondary_element qt)) by (by destruct qt).
    cbn [app]. rewrite ?app_nil_r. apply omap_text_code_elements.
  - destruct (Hfixed (secondary_element qt)) as (H1 & H2 & H3 & H4);
      [destruct qt; auto |].
    rewrite (filter_tag_none _ _ H1), (filter_tag_none _ _ H2),
      (filter_tag_none _ _ H3), (filter_tag_none _ _ H4).
    rewrite filter_code_elements_same.
    rewrite (filter_code_elements_other (secondary_element qt)
               (primary_element qt)) by (by destruct qt).
    cbn [app]. rewrite ?app_nil_r. apply omap_text_code_elements.
Qed.

Lemma enumerate_lookup {A : Type} (l : list A) (start : Z) i q :
  enumerate l start !! i = Some q → q.1 = start + Z.of_nat i ∧ l !! i = Some q.2.
Proof.
  revert start i. induction l as [| x l IH]; intros start i H; [done |].
  destruct i as [| i]; simpl in H.
  - simplify_eq. simpl. split; [lia | done].
  - apply IH in H as [-> ?]. split; [lia | done].
Qed.

Lemma enumerate_length {A : Type} (l : list A) (start : Z) :
  length (enumerate l start) = length l.
Proof. revert start. induction l; intros; simpl; [done | by f_equal]. Qed.

Lemma enumerate_snd {A : Type} (l : list A) (start : Z) :
  (λ q, q.2) <$> enumerate l start = l.
Proof. revert start. induction l; intros; simpl; [done | by f_equal]. Qed.

(** C2. With batching enabled and a batch size [N] of at least one, the
    planner returns payloads such that: each carries at most [N] primary
    codes; the primary codes of the payloads, put end to end, are the
    primary code list, each occurrence once and in order; each payload
    carries the whole secondary code list; the batch numbers are 1, 2, 3,
    ... in output order; and a non-empty primary code list gives at least
    one payload. *)
Theorem generate_xml_query_batch_partitions qt ft (N : Z) :
  1 ≤ N →
  ∃ queries,
    generate_xml_query_batch origins_iata_codes destinations_iata_codes
      origin_and_destination_iata_codes get_parameters_dict
      get_parameter_value today qt ft true N = inr queries
    ∧ Forall (λ q, Z.of_nat (length (payload_codes (primary_element qt) q.1))
                   ≤ N) queries
    ∧ concat ((λ q, payload_codes (primary_element qt) q.1) <$> queries)
      = primary_codes origins_iata_codes destinations_iata_codes
          origin_and_destination_iata_codes qt
    ∧ Forall (λ q, payload_codes (secondary_element qt) q.1
                   = secondary_codes origins_iata_codes
                       destinations_iata_codes qt) queries
    ∧ (∀ i q, queries !! i = Some q → q.2 = Z.of_nat i + 1)
    ∧ (primary_codes origins_iata_codes destinations_iata_codes
         origin_and_destination_iata_codes qt ≠ [] → queries ≠ []).
Proof.
  intros HN. unfold generate_xml_query_batch. cbn [negb].
  destruct (batch_list_positive
              (primary_codes origins_iata_codes destinations_iata_codes
                 origin_and_destination_iata_codes qt) N)
    as (batches & -> & Hconcat & Hlen); [lia |].
  eexists. split; [reflexivity |].
  assert (∀ i q,
            imap (λ (k : nat) '(batch_num, batch_codes),
                    (build_query origins_iata_codes destinations_iata_codes
                       get_parameters_dict get_parameter_value today qt ft k
                       batch_codes, batch_num))
              (enumerate batches 1) !! i = Some q →
            ∃ codes, batches !! i = Some codes ∧ q.2 = Z.of_nat i + 1 ∧
                     q.1 = build_query origins_iata_codes
                             destinations_iata_codes get_parameters_dict
                             get_parameter_value today qt ft i codes) as Hq.
  { intros i q Hi. rewrite list_lookup_imap in Hi.
    destruct (enumerate batches 1 !! i) as [[n codes] |] eqn:He; [| done].
    apply enumerate_lookup in He as [Hn Hc]. simpl in *. simplify_eq.
    exists codes. split_and!; [done | simpl; lia | done]. }
  assert ((λ q : Element * Z, payload_codes (primary_element qt) q.1)
            <$> imap (λ (k : nat) '(batch_num, batch_codes),
                        (build_query origins_iata_codes destinations_iata_codes
                           get_parameters_dict get_parameter_value today qt ft k
                           batch_codes, batch_num))
                  (enumerate batches 1) = batches) as Hcodes.
  { apply list_eq. intros i. rewrite list_lookup_fmap, list_lookup_imap.
    destruct (enumerate batches 1 !! i) as [[n codes] |] eqn:He; simpl.
    - apply enumerate_lookup in He as [_ Hc]. simpl in Hc. rewrite Hc.
      f_equal. apply payload_codes_build_query.
    - symmetry. apply lookup_ge_None. apply lookup_ge_None in He.
      by rewrite enumerate_length in He. }
  split_and!.
  - apply Forall_forall. intros q Hin.
    apply list_elem_of_lookup in Hin as [i Hi].
    destruct (Hq i q Hi) as (codes & Hb & _ & ->).
    rewrite (proj1 (payload_codes_build_query qt ft i codes)).
    eapply Forall_forall in Hlen; [exact Hlen |].
    by eapply list_elem_of_lookup_2.
  - by rewrite Hcodes.
  - apply Forall_forall. intros q Hin.
    apply list_elem_of_lookup in Hin as [i Hi].
    destruct (Hq i q Hi) as (codes & _ & _ & ->).
    apply payload_codes_build_query.
  - intros i q Hi. by destruct (Hq i q Hi) as (codes & _ & ? & _).
  - intros Hne Hnil. rewrite Hnil in Hcodes. simpl in Hcodes.
    rewrite <- Hcodes in Hconcat. simpl in Hconcat. by symmetry in Hconcat.
Qed.

End BatchPlannerProperties.

Lemma generate_xml_query_batch_partitions_witness :
  ∃ queries,
    sample_queries = inr queries
    ∧ Forall (λ q, Z.of_nat (length (payload_codes "origin" q.1)) ≤ 2) queries
    ∧ concat ((λ q, payload_codes "origin" q.1) <$> queries)
      = ["ADD"; "NBO"; "MBA"; "KIS"]
    ∧ Forall (λ q, payload_codes "destination" q.1 = ["DXB"; "LHR"]) queries.
Proof.
  destruct (generate_xml_query_batch_partitions
              ["NBO"; "MBA"; "KIS"] ["DXB"; "LHR"] ["ADD"]
              (λ _, ∅) (λ _, "1") (λ _, "2024-01-01") ORIGIN FT_F 2)
    as (queries & Hq & Hlen & Hconcat & Hsec & _); [lia |].
  exists queries. split_and!; [exact Hq | exact Hlen | exact Hconcat | exact Hsec].
Defined.

(** With a batch size of zero the planner raises, and with a negative one
    it returns no payload at all. *)
Lemma generate_xml_query_batch_degenerate
    (origins destinations both : list string) params value today qt ft :
  generate_xml_query_batch origins destinations both params value today
    qt ft true 0 = inl (ValueError "range() arg 3 must not be zero")
  ∧ ∀ N, N < 0 →
         generate_xml_query_batch origins destinations both params value today
           qt ft true N = inr [].
Proof.
  split.
  - reflexivity.
  - intros N HN. unfold generate_xml_query_batch. cbn [negb].
    by rewrite batch_list_negative.
Qed.

(** * Properties of the enrichment and of the itinerary fold *)

Example sample_enriched_rows :
  (λ r, (lr_solution_id (er_leg r), lr_origin (er_leg r),
         apc_name (er_origin_airport r), lr_destination (er_leg r),
         apc_country (er_destination_airport r), er_airline_name r,
         er_departure_time r)) <$> sample_enriched
  = [ (1, Some "NBO", "Jomo Kenyatta", Some "MBA", "KE", "Kenya Airways",
       1704103200000000);
      (1, Some "MBA", "Moi", Some "DAR", "TZ", "Kenya Airways",
       1704110400000000) ].
Proof. vm_compute. reflexivity. Qed.

Example sample_itineraries :
  (λ rows, (λ it, (it_flights it, g_num_stops (it_grouped it),
                   g_origin_iata (it_grouped it), it_via_iata it,
                   g_destination_iata (it_grouped it),
                   it_origin_country it, it_destination_country it)) <$> rows)
    (returned (transform_flight_structure (sample_enriched ++ sample_single_leg)
                 sample_reference) [])
  = [ ("KQ100|KQ100", 2, Some "NBO", Some "MBA", Some "DAR", "Kenya", "Tanzania");
      ("KQ100", 1, Some "NBO", None, Some "MBA", "Kenya", "Kenya") ].
Proof. vm_compute. reflexivity. Qed.

(** ** Joins *)

Lemma elem_of_merge_inner {L R K : Type} `{EqDecision K} (left : list L)
    (right : list R) (left_on : L → K) (right_on : R → K) (l : L) (r : R) :
  (l, r) ∈ merge_inner left right left_on right_on
  ↔ l ∈ left ∧ r ∈ right ∧ right_on r = left_on l.
Proof.
  unfold merge_inner. rewrite list_elem_of_bind. split.
  - intros (l0 & Hin & Hl0).
    apply list_elem_of_fmap in Hin as (r0 & [= -> ->] & Hr0).
    apply list_elem_of_filter in Hr0 as [? ?]. done.
  - intros (Hl & Hr & Hk). exists l. split; [| done].
    apply list_elem_of_fmap. exists r. split; [done |].
    by apply list_elem_of_filter.
Qed.

(** ** Groups *)

Lemma elem_of_sort_insert {A : Type} (le : A → A → bool) (x y : A) (l : list A) :
  y ∈ sort_insert le x l ↔ y = x ∨ y ∈ l.
Proof.
  induction l as [| z l IH]; simpl.
  - rewrite list_elem_of_singleton. set_solver.
  - destruct (le x z); set_solver.
Qed.

Lemma elem_of_sort_values {A : Type} (le : A → A → bool) (y : A) (l : list A) :
  y ∈ sort_values le l ↔ y ∈ l.
Proof.
  unfold sort_values. induction l as [| x l IH]; simpl; [done |].
  rewrite elem_of_sort_insert, IH. set_solver.
Qed.

Lemma elem_of_unique {A : Type} `{EqDecision A} (y : A) (l : list A) :
  y ∈ unique l ↔ y ∈ l.
Proof.
  induction l as [| x l IH]; simpl; [done |].
  rewrite !elem_of_cons, list_elem_of_filter, IH.
  destruct (decide (y = x)); naive_solver.
Qed.

(** Every group is the non-empty list of the rows of one key. *)
Lemma elem_of_groupby {A : Type} (key : A → Z) (df : list A) k g :
  (k, g) ∈ groupby key df →
  g = filter (λ r, key r = k) df ∧ ∃ first rest, g = first :: rest.
Proof.
  unfold groupby. intros Hin.
  apply list_elem_of_fmap in Hin as (k0 & [= -> ->] & Hk).
  split; [done |].
  apply elem_of_sort_values, elem_of_unique, list_elem_of_fmap in Hk
    as (r & -> & Hr).
  assert (r ∈ filter (λ r0, key r0 = key r) df) as Hf
    by (by apply list_elem_of_filter).
  destruct (filter (λ r0, key r0 = key r) df) as [| first rest]; [| eauto].
  by apply elem_of_nil in Hf.
Qed.

Lemma aggregate_groups_elem groups cleaned x :
  aggregate_groups groups = inr cleaned → x ∈ cleaned →
  ∃ k g, (k, g) ∈ groups ∧ aggregate g = inr x.
Proof.
  revert cleaned. induction groups as [| [k g] groups IH]; intros cleaned H Hx;
    simpl in H.
  { simplify_eq. by apply elem_of_nil in Hx. }
  destruct (aggregate g) as [e | y] eqn:Hg; [done |].
  destruct (aggregate_groups groups) as [e | ys]; [done |]. simplify_eq.
  apply elem_of_cons in Hx as [-> | Hx].
  - exists k, g. split; [apply list_elem_of_here | done].
  - destruct (IH ys eq_refl Hx) as (k' & g' & Hin & Hagg).
    exists k', g'. split; [by apply list_elem_of_further | done].
Qed.

Lemma aggregate_via g x :
  aggregate g = inr x →
  g_via_iata x = agg_first destination_of g ∧
  g_destination_iata x = agg_last destination_of g.
Proof.
  unfold aggregate. intros H. repeat case_match; simplify_eq. done.
Qed.

Lemma join_flights_elem rows its it :
  join_flights rows = inr its → it ∈ its →
  ∃ r, r ∈ rows ∧ it_grouped it = r.1.1 ∧
       it_via_iata it = fix_via (g_via_iata r.1.1) (g_destination_iata r.1.1).
Proof.
  revert its. induction rows as [| r rows IH]; intros its H Hit; simpl in H.
  { simplify_eq. by apply elem_of_nil in Hit. }
  destruct (pipe_join (g_flights r.1.1)) as [e | flights]; [done |].
  destruct (join_flights rows) as [e | xs]; [done |]. simplify_eq.
  apply elem_of_cons in Hit as [-> | Hit].
  - exists r. split; [apply list_elem_of_here | done].
  - destruct (IH xs eq_refl Hit) as (r' & Hin & Hg & Hv).
    exists r'. split; [by apply list_elem_of_further | done].
Qed.

Lemma agg_first_cons (first : EnrichedRow) rest d :
  destination_of first = Some d →
  agg_first destination_of (first :: rest) = Some d.
Proof. intros H. unfold agg_first. simpl. by rewrite H. Qed.

Lemma last_omap {A B : Type} (f : A → option B) (l : list A) :
  Forall (λ x, is_Some (f x)) l → last (omap f l) = last l ≫= f.
Proof.
  induction 1 as [| x l [d Hd] Hl IH]; [done |].
  destruct Hl as [| y l [d' Hd'] Hl].
  - simpl. by rewrite Hd.
  - rewrite last_cons_cons, <- IH. cbn [omap list_omap]. rewrite Hd, Hd'.
    apply last_cons_cons.
Qed.

Lemma agg_last_final (first : EnrichedRow) rest :
  Forall (λ r, is_Some (destination_of r)) (first :: rest) →
  agg_last destination_of (first :: rest)
  = destination_of (final_leg first rest).
Proof.
  intros Hall. unfold agg_last, final_leg. rewrite last_omap by done.
  destruct rest as [| r rest]; [done |].
  rewrite last_cons_cons.
  destruct (last (r :: rest)) as [final |] eqn:Hlast; [done |].
  by apply last_None in Hlast.
Qed.

(** C3. Every row of the folded frame comes from one itinerary group, the
    rows of one itinerary id in frame order.  When no leg of the frame has
    a null destination, the via code of the row is null exactly when the
    destination of the first leg of the group equals the destination of its
    final leg, and is the destination of the first leg otherwise; for a
    group of a single leg it is always null. *)
Theorem transform_flight_structure_via flight_data reference_data its it :
  transform_flight_structure flight_data reference_data = inr its →
  it ∈ its →
  Forall (λ r, is_Some (destination_of r)) flight_data →
  ∃ k first rest,
    first :: rest
    = filter (λ r, lr_solution_id (er_leg r) = k) flight_data
    ∧ g_destination_iata (it_grouped it)
      = destination_of (final_leg first rest)
    ∧ (it_via_iata it = None
       ↔ destination_of first = destination_of (final_leg first rest))
    ∧ (destination_of first ≠ destination_of (final_leg first rest) →
       it_via_iata it = destination_of first)
    ∧ (rest = [] → it_via_iata it = None).
Proof.
  unfold transform_flight_structure. intros Htr Hit Hdest.
  destruct (aggregate_groups
              (groupby (λ r, lr_solution_id (er_leg r)) flight_data))
    as [e | cleaned] eqn:Hagg; [done |].
  destruct (join_flights_elem _ _ _ Htr Hit) as (r & Hr & Hg & Hvia).
  destruct r as [[x c1] c2]. simpl in Hg, Hvia.
  unfold join_countries in Hr.
  apply elem_of_merge_inner in Hr as (Hr & _ & _).
  apply elem_of_merge_inner in Hr as (Hx & _ & _).
  destruct (aggregate_groups_elem _ _ _ Hagg Hx) as (k & g & Hkg & Hgx).
  apply elem_of_groupby in Hkg as (Hfilter & first & rest & Hg').
  apply aggregate_via in Hgx as (Hv & Hd).
  assert (Forall (λ r, is_Some (destination_of r)) (first :: rest)) as Hall.
  { rewrite <- Hg', Hfilter. apply Forall_forall. intros y Hy.
    apply list_elem_of_filter in Hy as [_ Hy].
    by eapply Forall_forall in Hdest. }
  pose proof Hall as [[d Hfirst] _]%Forall_cons_1.
  rewrite Hg' in Hv, Hd.
  rewrite (agg_first_cons first rest d Hfirst) in Hv.
  rewrite (agg_last_final first rest Hall) in Hd.
  exists k, first, rest. rewrite Hg, Hvia, Hv, Hd, Hfirst.
  split_and!.
  - by rewrite <- Hg', Hfilter.
  - done.
  - unfold fix_via.
    destruct (decide (Some d ≠ destination_of (final_leg first rest)))
      as [Hne | Heq].
    + split; [done |]. intros Heq. by destruct Hne.
    + split; [| done]. intros _.
      by destruct (decide (Some d = destination_of (final_leg first rest))).
  - intros Hne. unfold fix_via. by rewrite decide_True.
  - intros ->. unfold final_leg. simpl. rewrite Hfirst.
    unfold fix_via. by rewrite decide_False by (by intros Hne; apply Hne).
Qed.

Lemma transform_flight_structure_via_witness :
  ∃ its it k first rest,
    transform_flight_structure (sample_enriched ++ sample_single_leg)
      sample_reference = inr its
    ∧ it ∈ its
    ∧ first :: rest
      = filter (λ r, lr_solution_id (er_leg r) = k)
          (sample_enriched ++ sample_single_leg)
    ∧ (rest = [] → it_via_iata it = None)
    ∧ (destination_of first ≠ destination_of (final_leg first rest) →
       it_via_iata it = destination_of first).
Proof.
  destruct (transform_flight_structure (sample_enriched ++ sample_single_leg)
              sample_reference) as [e | its] eqn:Htr.
  { vm_compute in Htr. discriminate Htr. }
  destruct its as [| it its].
  { vm_compute in Htr. discriminate Htr. }
  destruct (transform_flight_structure_via
              (sample_enriched ++ sample_single_leg) sample_reference
              (it :: its) it Htr)
    as (k & first & rest & Hgroup & _ & _ & Hkeep & Hsingle).
  - apply list_elem_of_here.
  - apply (bool_decide_unpack _). vm_compute. exact I.
  - exists (it :: its), it, k, first, rest.
    split_and!; [reflexivity | apply list_elem_of_here | exact Hgroup
                | exact Hsingle | exact Hkeep].
Defined.

(** ** Row counts of the joins *)

Lemma filter_key_absent {R K : Type} `{EqDecision K} (right_on : R → K)
    (right : list R) (k : K) :
  k ∉ right_on <$> right → filter (λ r, right_on r = k) right = [].
Proof.
  induction right as [| r right IH]; [done |].
  rewrite fmap_cons, not_elem_of_cons. intros [Hne Hnin].
  rewrite filter_cons_False by done. by apply IH.
Qed.

Lemma filter_key_unique {R K : Type} `{EqDecision K} (right_on : R → K)
    (right : list R) (k : K) :
  NoDup (right_on <$> right) → k ∈ right_on <$> right →
  length (filter (λ r, right_on r = k) right) = 1%nat.
Proof.
  induction right as [| r right IH]; intros Hnd Hin.
  { by apply elem_of_nil in Hin. }
  rewrite fmap_cons in Hnd, Hin. apply NoDup_cons in Hnd as [Hr Hnd].
  destruct (decide (right_on r = k)) as [<- | Hne].
  - rewrite filter_cons_True by done. by rewrite filter_key_absent.
  - rewrite filter_cons_False by done. apply IH; [done |].
    apply elem_of_cons in Hin as [-> | ?]; done.
Qed.

(** Against a table without repeated keys, an inner join keeps the left
    rows whose key is in the table, once each and in order. *)
Lemma merge_inner_unique_keys {L R K : Type} `{EqDecision K} (left : list L)
    (right : list R) (left_on : L → K) (right_on : R → K) :
  NoDup (right_on <$> right) →
  (λ o, o.1) <$> merge_inner left right left_on right_on
  = filter (λ l, left_on l ∈ right_on <$> right) left.
Proof.
  intros Hnd. unfold merge_inner.
  induction left as [| l left IH]; [done |].
  rewrite bind_cons, fmap_app, IH, <- list_fmap_compose.
  destruct (decide (left_on l ∈ right_on <$> right)) as [Hin | Hnin].
  - rewrite filter_cons_True by done.
    pose proof (filter_key_unique right_on right (left_on l) Hnd Hin) as Hlen.
    destruct (filter (λ r, right_on r = left_on l) right) as [| r [| ? ?]];
      done.
  - rewrite filter_cons_False by done.
    by rewrite filter_key_absent.
Qed.

Lemma enrich_flight_data_log date_parse flight_data reference_data :
  (enrich_flight_data date_parse flight_data reference_data).2
  = join_loss_log "origin airport" (Some "Unknown origins")
      (length flight_data) (length (join_origin flight_data reference_data))
      (unknown_sample (lr_origin <$> flight_data)
         (ap_code <$> ref_airport reference_data))
    ++ join_loss_log "destination airport" (Some "Unknown destinations")
         (length (join_origin flight_data reference_data))
         (length (join_destination (join_origin flight_data reference_data)
                    reference_data))
         (unknown_sample (lr_destination <$> flight_data)
            (ap_code <$> ref_airport reference_data))
    ++ join_loss_log "carrier" None
         (length (join_destination (join_origin flight_data reference_data)
                    reference_data))
         (length (join_carrier
                    (join_destination
                       (join_origin flight_data reference_data)
                       reference_data) reference_data)) [].
Proof. unfold enrich_flight_data. by repeat case_match. Qed.

Lemma filter_Forall_id {A : Type} (P : A → Prop) `{∀ x, Decision (P x)}
    (l : list A) :
  Forall P l → filter P l = l.
Proof.
  induction 1 as [| x l Hx _ IH]; [done |].
  by rewrite filter_cons_True, IH.
Qed.

Lemma filter_all_but_one (P : LegRecord → Prop) `{∀ r, Decision (P r)}
    (pre post : list LegRecord) (row : LegRecord) :
  ¬ P row → Forall P (pre ++ post) →
  filter P (pre ++ row :: post) = pre ++ post.
Proof.
  intros Hrow [Hpre Hpost]%Forall_app.
  rewrite filter_app, filter_cons_False by done.
  f_equal; by apply filter_Forall_id.
Qed.

(** C4, as amended.  The three joins of the enrichment are inner joins:
    every row they return pairs a row of their input with a row of the
    reference table that has its key, so that a leg whose key is absent from
    the table is in no returned row.  When no code occurs twice in the
    airport table and exactly one leg of the table has an origin that the
    airport table lacks, the origin join returns the other legs, once each
    and in order, hence one row less than it was given, and the loss of one
    row is logged. *)
Theorem enrich_joins_inner date_parse flight_data reference_data :
  (∀ out, out ∈ join_origin flight_data reference_data →
          out.1 ∈ flight_data ∧ lr_origin out.1 ∈ airport_keys reference_data ∧
          ∃ a, a ∈ ref_airport reference_data ∧
               lr_origin out.1 = Some (ap_code a) ∧ out.2 = airport_columns a)
  ∧ (∀ results out, out ∈ join_destination results reference_data →
          out.1 ∈ results ∧
          ∃ a, a ∈ ref_airport reference_data ∧
               lr_destination out.1.1 = Some (ap_code a) ∧
               out.2 = airport_columns a)
  ∧ (∀ results out, out ∈ join_carrier results reference_data →
          out.1 ∈ results ∧
          ∃ c, c ∈ ref_carrier reference_data ∧
               lr_airline_code out.1.1.1 = Some (ca_code c) ∧
               out.2 = carrier_columns c)
  ∧ (NoDup (airport_keys reference_data) →
     ∀ pre row post,
       flight_data = pre ++ row :: post →
       lr_origin row ∉ airport_keys reference_data →
       Forall (λ r, lr_origin r ∈ airport_keys reference_data) (pre ++ post) →
       (λ o, o.1) <$> join_origin flight_data reference_data = pre ++ post
       ∧ length (join_origin flight_data reference_data)
         = (length flight_data - 1)%nat
       ∧ LogWarning "Lost 1 rows when joining origin airport data"
         ∈ (enrich_flight_data date_parse flight_data reference_data).2).
Proof.
  split_and!.
  - intros [l a] Hout. unfold join_origin in Hout.
    apply elem_of_merge_inner in Hout as (Hl & Ha & Hkey).
    apply list_elem_of_fmap in Ha as (a0 & -> & Ha0). simpl in *.
    split_and!; [done | |].
    + rewrite <- Hkey. unfold airport_keys.
      apply list_elem_of_fmap. by exists a0.
    + exists a0. by split_and!.
  - intros results [l a] Hout. unfold join_destination in Hout.
    apply elem_of_merge_inner in Hout as (Hl & Ha & Hkey).
    apply list_elem_of_fmap in Ha as (a0 & -> & Ha0). simpl in *.
    split; [done |]. exists a0. by split_and!.
  - intros results [l c] Hout. unfold join_carrier in Hout.
    apply elem_of_merge_inner in Hout as (Hl & Hc & Hkey).
    apply list_elem_of_fmap in Hc as (c0 & -> & Hc0). simpl in *.
    split; [done |]. exists c0. by split_and!.
  - intros Hnd pre row post -> Hrow Hothers.
    assert ((λ a, Some (apc_code a))
              <$> (airport_columns <$> ref_airport reference_data)
            = airport_keys reference_data) as Hkeys.
    { unfold airport_keys. by rewrite <- list_fmap_compose. }
    assert ((λ o : LegRecord * AirportColumns, o.1)
              <$> join_origin (pre ++ row :: post) reference_data
            = pre ++ post) as Hrows.
    { unfold join_origin. rewrite merge_inner_unique_keys by (by rewrite Hkeys).
      rewrite Hkeys. by apply filter_all_but_one. }
    assert (length (join_origin (pre ++ row :: post) reference_data)
            = (length (pre ++ row :: post) - 1)%nat) as Hlen.
    { rewrite <- (length_fmap (λ o : LegRecord * AirportColumns, o.1)), Hrows.
      rewrite !length_app. simpl. lia. }
    split_and!; [done | done |].
    rewrite enrich_flight_data_log, Hlen. unfold join_loss_log at 1.
    assert (length (pre ++ row :: post) ≠ 0)%nat as Hpos
      by (rewrite length_app; simpl; lia).
    rewrite decide_True by lia.
    replace (length (pre ++ row :: post)
             - (length (pre ++ row :: post) - 1))%nat with 1%nat by lia.
    apply elem_of_app. left. apply list_elem_of_here.
Qed.

Lemma enrich_joins_inner_witness :
  (λ o : LegRecord * AirportColumns, o.1)
    <$> join_origin sample_leg_table sample_reference
  = sample_leg_table_pre
  ∧ length (join_origin sample_leg_table sample_reference) = 1%nat
  ∧ LogWarning "Lost 1 rows when joining origin airport data"
    ∈ (enrich_flight_data sample_date_parse sample_leg_table
         sample_reference).2.
Proof.
  destruct (enrich_joins_inner sample_date_parse sample_leg_table
              sample_reference) as (_ & _ & _ & Hcount).
  apply (Hcount ltac:(apply (bool_decide_unpack _); vm_compute; exact I)
           sample_leg_table_pre sample_leg_table_row []).
  - reflexivity.
  - apply (bool_decide_unpack _). vm_compute. exact I.
  - apply (bool_decide_unpack _). vm_compute. exact I.
Defined.

(** With the code NBO twice in the airport table, the leg from NBO comes
    back twice and the leg from ZZZ, the only one of unknown origin, is
    lost: the row count is unchanged and nothing is logged. *)
Lemma enrich_origin_join_counterexample :
  sample_leg_table = sample_leg_table_pre ++ [sample_leg_table_row]
  ∧ lr_origin sample_leg_table_row ∉ airport_keys sample_reference_duplicate
  ∧ Forall (λ r, lr_origin r ∈ airport_keys sample_reference_duplicate)
      sample_leg_table_pre
  ∧ length (join_origin sample_leg_table sample_reference_duplicate)
    ≠ (length sample_leg_table - 1)%nat
  ∧ length (join_origin sample_leg_table sample_reference_duplicate)
    = length sample_leg_table
  ∧ (enrich_flight_data sample_date_parse sample_leg_table
       sample_reference_duplicate).2 = [].
Proof.
  split_and!.
  - reflexivity.
  - apply (bool_decide_unpack _). vm_compute. exact I.
  - apply (bool_decide_unpack _). vm_compute. exact I.
  - vm_compute. discriminate.
  - reflexivity.
  - vm_compute. reflexivity.
Qed.

(** * Properties of the metrics step *)

Lemma duration_check_below_spec (n : nat) (m : Z) :
  duration_check_below n = true → 0 ≤ m < Z.of_nat n →
  duration_check (60 * m) = true.
Proof.
  induction n as [| n IH]; intros Hall Hm; [lia |].
  simpl in Hall. apply andb_true_iff in Hall as [Hn Hall].
  destruct (decide (m = Z.of_nat n)) as [-> | Hne]; [done |].
  apply IH; [done | lia].
Qed.

Lemma duration_check_bound : duration_check_below duration_bound = true.
Proof. vm_compute. reflexivity. Qed.

Lemma duration_check_sound (s : Z) :
  duration_check s = true →
  total_seconds (s * 1000000) = float_of_Z s
  ∧ ∃ k, rounded_hours s (duration_hours (float_of_Z s)) k.
Proof.
  unfold duration_check. intros [Hsec Hround]%andb_true_iff.
  apply bool_decide_eq_true in Hsec. split; [done |].
  apply existsb_exists in Hround as (k & _ & [Hk Hnear]%andb_true_iff).
  apply bool_decide_eq_true in Hk. apply Z.leb_le in Hnear.
  exists k. by split.
Qed.

(** C8. Every row of the finalizer is an itinerary of its input with the
    two durations added: the seconds are the seconds of (arrival −
    departure) as a float, the hours are those seconds divided by 3600 and
    rounded to two decimals.  For a difference of [m] whole minutes, up to
    the bound checked, the seconds are [60 m] exactly and the hours are the
    float nearest to some [k / 100] within half a hundredth of
    [60 m / 3600].  For the departure 2024-01-01T10:00:00 and the arrival
    2024-01-01T13:30:00 the seconds are 12600 and the hours are 3.5. *)
Theorem calculate_flight_metrics_duration flight_data updated row :
  row ∈ calculate_flight_metrics flight_data updated →
  fr_itinerary row ∈ flight_data
  ∧ ∀ arrival departure,
      g_arrival_dt (it_grouped (fr_itinerary row)) = Some arrival →
      g_departure_dt (it_grouped (fr_itinerary row)) = Some departure →
      fr_duration_dt row = total_seconds (arrival - departure)
      ∧ fr_duration row
        = py_round (float_div (fr_duration_dt row) (float_of_Z 3600)) 2
      ∧ (∀ m, 0 ≤ m < Z.of_nat duration_bound →
              arrival - departure = 60 * m * 1000000 →
              fr_duration_dt row = float_of_Z (60 * m)
              ∧ ∃ k, rounded_hours (60 * m) (fr_duration row) k)
      ∧ (departure = datetime 2024 1 1 10 0 0 →
         arrival = datetime 2024 1 1 13 30 0 →
         float_value (fr_duration_dt row) = Some (12600 # 1)
         ∧ float_value (fr_duration row) = Some (7 # 2)).
Proof.
  unfold calculate_flight_metrics. intros Hrow.
  apply list_elem_of_fmap in Hrow as (it & -> & Hit). simpl.
  split; [done |]. intros arrival departure Harr Hdep.
  unfold duration_seconds. rewrite Harr, Hdep.
  split_and!; [done | done | |].
  - intros m Hm Hdiff. rewrite Hdiff.
    pose proof (duration_check_below_spec duration_bound m
                  duration_check_bound Hm) as Hcheck.
    apply duration_check_sound in Hcheck as [Hsec Hhours].
    unfold duration_hours in *. rewrite Hsec. by split.
  - intros -> ->. split; vm_compute; reflexivity.
Qed.

Lemma calculate_flight_metrics_duration_witness :
  ∃ row,
    row ∈ calculate_flight_metrics sample_itinerary_rows "2024-01-02 08:00:00"
    ∧ float_value (fr_duration_dt row) = Some (12600 # 1)
    ∧ float_value (fr_duration row) = Some (7 # 2)
    ∧ ∃ k, rounded_hours (60 * 210) (fr_duration row) k.
Proof.
  destruct (calculate_flight_metrics sample_itinerary_rows
              "2024-01-02 08:00:00") as [| row rows] eqn:Hrows.
  { vm_compute in Hrows. discriminate Hrows. }
  assert (row ∈ calculate_flight_metrics sample_itinerary_rows
                  "2024-01-02 08:00:00") as Hin
    by (rewrite Hrows; apply list_elem_of_here).
  assert (g_arrival_dt (it_grouped (fr_itinerary row))
          = Some (datetime 2024 1 1 13 30 0)
          ∧ g_departure_dt (it_grouped (fr_itinerary row))
            = Some (datetime 2024 1 1 10 0 0)) as [Harr Hdep].
  { vm_compute in Hrows. injection Hrows as <- _. split; reflexivity. }
  destruct (calculate_flight_metrics_duration sample_itinerary_rows
              "2024-01-02 08:00:00" row Hin) as [_ Hdur].
  destruct (Hdur _ _ Harr Hdep) as (_ & _ & Hwhole & Hexample).
  destruct (Hexample eq_refl eq_refl) as [Hsec Hhours].
  destruct (Hwhole 210) as (_ & Hk);
    [split; [lia | apply Z.ltb_lt; vm_compute; reflexivity] | reflexivity |].
  exists row.
  split_and!;
    [apply list_elem_of_here | exact Hsec | exact Hhours | exact Hk].
Defined.

(** * Further properties of the batch planner *)

Lemma batch_list_chunks {A : Type} (items : list A) (size : Z) :
  0 < size →
  batch_list items size
  = inr ((λ k : nat, take (Z.to_nat size) (drop (k * Z.to_nat size) items))
           <$> seq 0 (chunk_count (length items) size)).
Proof.
  intros Hsize. unfold batch_list, chunk_count.
  rewrite py_range_positive by done. f_equal.
  rewrite <- list_fmap_compose. apply list_fmap_ext. intros _ k _. simpl.
  by apply py_slice_chunk.
Qed.

Lemma chunk_count_bounds (n : nat) (size : Z) :
  0 < size →
  Z.of_nat n ≤ Z.of_nat (chunk_count n size) * size
  ∧ (Z.of_nat (chunk_count n size) - 1) * size < Z.of_nat n
  ∨ n = 0%nat ∧ chunk_count n size = 0%nat.
Proof.
  intros Hsize. unfold chunk_count.
  destruct (decide (n = 0%nat)) as [-> | Hn].
  { right. split; [done |]. rewrite Z.div_small by lia. done. }
  left.
  assert (0 ≤ (Z.of_nat n + size - 1) `div` size) by (apply Z.div_pos; lia).
  rewrite Z2Nat.id by done.
  pose proof (Z.div_mod (Z.of_nat n + size - 1) size ltac:(lia)).
  pose proof (Z.mod_pos_bound (Z.of_nat n + size - 1) size Hsize).
  nia.
Qed.

(** The shape of the batches: as many as the items fill, none of them
    empty, every one but the last of exactly [size] items. *)
Theorem batch_list_shape {A : Type} (items : list A) (size : Z) :
  0 < size →
  ∃ batches,
    batch_list items size = inr batches
    ∧ length batches = chunk_count (length items) size
    ∧ Forall (λ b, b ≠ []) batches
    ∧ (∀ i b, batches !! i = Some b → (S i < length batches)%nat →
              Z.of_nat (length b) = size)
    ∧ (∀ i b, batches !! i = Some b →
              b = take (Z.to_nat size) (drop (i * Z.to_nat size) items)).
Proof.
  intros Hsize. rewrite batch_list_chunks by done. eexists. split; [done |].
  set (n := chunk_count (length items) size).
  assert (∀ i b,
            ((λ k : nat, take (Z.to_nat size) (drop (k * Z.to_nat size) items))
               <$> seq 0 n) !! i = Some b →
            (i < n)%nat
            ∧ b = take (Z.to_nat size) (drop (i * Z.to_nat size) items))
    as Hlookup.
  { intros i b Hi. rewrite list_lookup_fmap in Hi.
    destruct (seq 0 n !! i) as [k |] eqn:Hk; [| done].
    apply lookup_seq in Hk as [-> Hlt]. simpl in Hi. by simplify_eq. }
  destruct (chunk_count_bounds (length items) size Hsize)
    as [[Hup Hlow] | [Hlen Hzero]].
  - fold n in Hup, Hlow. split_and!.
    + by rewrite length_fmap, length_seq.
    + apply Forall_forall. intros b Hb.
      apply list_elem_of_lookup in Hb as [i Hi].
      apply Hlookup in Hi as [Hi ->]. intros Hnil.
      apply (f_equal length) in Hnil.
      rewrite length_take, length_drop in Hnil. simpl in Hnil. nia.
    + intros i b Hi Hnext. rewrite length_fmap, length_seq in Hnext.
      apply Hlookup in Hi as [_ ->].
      rewrite length_take, length_drop. nia.
    + intros i b Hi. by apply Hlookup in Hi as [_ ->].
  - fold n in Hzero. rewrite Hzero. simpl. by split_and!.
Qed.

Lemma batch_list_shape_witness :
  ∃ batches,
    batch_list ["ADD"; "NBO"; "MBA"; "KIS"; "DAR"] 2 = inr batches
    ∧ length batches = 3%nat
    ∧ Forall (λ b, b ≠ []) batches.
Proof.
  destruct (batch_list_shape ["ADD"; "NBO"; "MBA"; "KIS"; "DAR"] 2)
    as (batches & Hb & Hlen & Hne & _); [lia |].
  exists batches. split_and!; [exact Hb | exact Hlen | exact Hne].
Defined.

Lemma generate_xml_query_batch_degenerate_witness :
  generate_xml_query_batch ["NBO"; "MBA"; "KIS"] ["DXB"; "LHR"] ["ADD"]
    (λ _, ∅) (λ _, "1") (λ _, "2024-01-01") ORIGIN FT_F true (-1) = inr [].
Proof.
  apply (generate_xml_query_batch_degenerate
           ["NBO"; "MBA"; "KIS"] ["DXB"; "LHR"] ["ADD"]
           (λ _, ∅) (λ _, "1") (λ _, "2024-01-01") ORIGIN FT_F).
  lia.
Defined.

Section PlannerFurther.

Variables origins_iata_codes destinations_iata_codes
          origin_and_destination_iata_codes : list string.
Variable get_parameters_dict : string → gmap string string.
Variable get_parameter_value : string → string.
Variable today : nat → string.

(** With batching disabled the planner returns one payload, numbered 1,
    that carries all the primary codes and all the secondary codes,
    whatever the batch size. *)
Theorem generate_xml_query_batch_unbatched qt ft (N : Z) :
  ∃ q,
    generate_xml_query_batch origins_iata_codes destinations_iata_codes
      origin_and_destination_iata_codes get_parameters_dict
      get_parameter_value today qt ft false N = inr [(q, 1)]
    ∧ payload_codes (primary_element qt) q
      = primary_codes origins_iata_codes destinations_iata_codes
          origin_and_destination_iata_codes qt
    ∧ payload_codes (secondary_element qt) q
      = secondary_codes origins_iata_codes destinations_iata_codes qt.
Proof.
  eexists. split; [reflexivity |]. apply payload_codes_build_query.
Qed.


End PlannerFurther.

(** * Further properties of the result parser *)

(** ** Counters and rows *)

Lemma initial_loop_state_counted ft qt bn :
  loop_counted ft qt bn initial_loop_state.
Proof. unfold loop_counted. simpl. split_and!; done. Qed.

Lemma parse_child_started ft qt bn ls child w ls' w' :
  parse_child ft qt bn ls child w = (inr ls', w') →
  started_yet ls'
  = started_yet ls || bool_decide (tag child = "itineraryFullDetail")
  ∧ s_id ls'
    = s_id ls + (if started_yet ls' && bool_decide (tag child = "solution")
                 then 1 else 0).
Proof.
  unfold parse_child. intros Hstep.
  assert ((if decide (tag child = "itineraryFullDetail") then true
           else started_yet ls)
          = started_yet ls || bool_decide (tag child = "itineraryFullDetail"))
    as Hst.
  { case_decide.
    - rewrite bool_decide_eq_true_2 by done. by rewrite orb_true_r.
    - rewrite bool_decide_eq_false_2 by done. by rewrite orb_false_r. }
  rewrite Hst in Hstep.
  destruct (started_yet ls || bool_decide (tag child = "itineraryFullDetail"));
    cbn [negb] in Hstep; simplify_eq; simpl; [| split; [done | lia]].
  destruct (decide (tag child = "solution")) as [Hs | Hs].
  - rewrite (bool_decide_eq_true_2 _ Hs).
    unfold update_flight_details, handle_create_df_row in Hstep.
    rewrite Hs in Hstep. simpl in Hstep. by simplify_eq.
  - rewrite (bool_decide_eq_false_2 _ Hs).
    destruct (state ls) as [st |]; simplify_eq; simpl; [| split; [done | lia]].
    destruct (update_flight_details child st (process_dict_updates child w))
      as [[e | st'] w1]; simplify_eq.
    destruct (handle_create_df_row child st' (row ls)) as [[] | []];
      simplify_eq; simpl; split; done || lia.
Qed.

Lemma parse_child_counted ft qt bn ls child w ls' w' :
  parse_child ft qt bn ls child w = (inr ls', w') →
  loop_counted ft qt bn ls → loop_counted ft qt bn ls'.
Proof.
  intros Hstep (Hrow & Hpos & Hrows & Hmono & Hacc).
  destruct (decide (tag child = "solution")) as [Hs | Hs].
  { (* a solution element *)
    destruct (started_yet ls) eqn:Hst.
    - pose proof (parse_child_solution ft qt bn ls child w Hs Hst) as Hsol.
      rewrite Hstep in Hsol. simpl in Hsol. simplify_eq.
      unfold loop_counted. simpl. split_and!; try done; try lia.
      + intros i r Hi. destruct (Hrows i r Hi) as (? & [? ?] & ? & ? & ?).
        split_and!; try done; lia.
      + intros acc [= <-]. simpl. split_and!; try done; lia.
    - unfold parse_child in Hstep. rewrite Hs, Hst in Hstep.
      simpl in Hstep. simplify_eq. by unfold loop_counted. }
  destruct (state ls) as [acc |] eqn:Hstate.
  2: { (* no record in progress *)
    destruct (parse_child_no_row _ _ _ _ _ _ _ _ Hstep) as (Hd & Hr & _);
      [by auto |].
    destruct (parse_child_started _ _ _ _ _ _ _ _ Hstep) as (_ & Hsid).
    rewrite (bool_decide_eq_false_2 _ Hs), andb_false_r, Z.add_0_r in Hsid.
    assert (state ls' = None) as Hnone.
    { unfold parse_child in Hstep. destruct (negb _); [by simplify_eq |].
      destruct (decide (tag child = "solution")); [done |].
      rewrite Hstate in Hstep. by simplify_eq. }
    unfold loop_counted. rewrite Hd, Hr, Hsid, Hnone.
    split_and!; try done. }
  destruct (Hacc acc eq_refl) as (Hsid & Hone & Hft & Hqt & Hbn).
  destruct (parse_child_state _ _ _ _ _ _ _ _ _ Hstep Hs Hstate)
    as (Hsid' & acc' & Hstate' & Hchg).
  assert (fd_s_id acc' = fd_s_id acc ∧ fd_flight_type acc' = fd_flight_type acc
          ∧ fd_query_type acc' = fd_query_type acc
          ∧ fd_batch_num acc' = fd_batch_num acc) as (Ha1 & Ha2 & Ha3 & Ha4).
  { destruct Hchg as [-> | (w0 & w0' & Hupd)]; [done |].
    destruct (update_flight_details_keeps _ _ _ _ _ Hupd)
      as (? & ? & ? & ? & _). done. }
  assert (∀ acc0, state ls' = Some acc0 →
            fd_s_id acc0 = s_id ls' ∧ 1 ≤ s_id ls' ∧ fd_flight_type acc0 = ft ∧
            fd_query_type acc0 = qt ∧ fd_batch_num acc0 = bn) as Hacc'.
  { intros acc0 Heq. rewrite Hstate' in Heq. simplify_eq.
    rewrite Hsid'. split_and!; congruence || lia. }
  destruct (decide (dfs ls' = dfs ls)) as [Hd | Hd].
  { (* no row *)
    assert (row ls' = row ls) as Hr.
    { destruct (decide (tag child = "aircraft")) as [Ha | Ha];
        [destruct (started_yet ls) eqn:Hst |].
      - destruct (parse_child_aircraft _ _ _ _ _ _ _ _ _ Hstep Ha Hstate Hst)
          as (? & _ & _ & _ & Hcase).
        destruct (validate_flight_details acc); destruct Hcase as (Hd' & ? & _);
          [| done].
        rewrite Hd in Hd'. apply (f_equal length) in Hd'.
        rewrite length_app in Hd'. simpl in Hd'. lia.
      - by destruct (parse_child_no_row _ _ _ _ _ _ _ _ Hstep) as (_ & ? & _);
          auto.
      - by destruct (parse_child_no_row _ _ _ _ _ _ _ _ Hstep) as (_ & ? & _);
          auto. }
    unfold loop_counted. rewrite Hd, Hr, Hsid'. split_and!; try done.
    by rewrite <- Hsid'. }
  (* a row *)
  destruct (decide (tag child = "aircraft")) as [Ha | Ha];
    [destruct (started_yet ls) eqn:Hst |].
  2-3: by destruct (parse_child_no_row _ _ _ _ _ _ _ _ Hstep) as (? & _); auto.
  destruct (parse_child_aircraft _ _ _ _ _ _ _ _ _ Hstep Ha Hstate Hst)
    as (acc1 & Hupd & Hstate1 & _ & Hcase).
  destruct (validate_flight_details acc); destruct Hcase as (Hd' & Hr & _);
    [| done].
  rewrite Hstate' in Hstate1. simplify_eq.
  assert (∀ i r, dfs ls' !! i = Some r →
            (dfs ls !! i = Some r ∧ (i < length (dfs ls))%nat)
            ∨ (i = length (dfs ls) ∧ r = create_flight_row acc1 (row ls)))
    as Hlook.
  { intros i r Hi. rewrite Hd' in Hi.
    apply lookup_app_Some in Hi as [Hi | [Hge Hi]].
    - left. split; [done |]. by eapply lookup_lt_Some.
    - right. apply list_lookup_singleton_Some in Hi as [Hi <-].
      split; [lia | done]. }
  unfold loop_counted. split_and!.
  - rewrite Hr, Hd', length_app. simpl. lia.
  - lia.
  - intros i r Hi. destruct (Hlook i r Hi) as [[Hi' _] | [-> ->]].
    + destruct (Hrows i r Hi') as (? & [? ?] & ? & ? & ?).
      split_and!; try done; lia.
    + simpl. split_and!; congruence || lia.
  - intros i j r1 r2 Hij Hi Hj.
    destruct (Hlook i r1 Hi) as [[Hi' Hlti] | [-> ->]],
             (Hlook j r2 Hj) as [[Hj' Hltj] | [-> ->]].
    + exact (Hmono i j r1 r2 Hij Hi' Hj').
    + destruct (Hrows i r1 Hi') as (_ & [_ ?] & _). simpl. lia.
    + lia.
    + done.
  - done.
Qed.

Lemma parse_children_counted ft qt bn l ls w ls' w' :
  parse_children ft qt bn ls l w = (inr ls', w') →
  loop_counted ft qt bn ls →
  loop_counted ft qt bn ls'
  ∧ s_id ls' = s_id ls + solutions_from (started_yet ls) l.
Proof.
  revert ls w. induction l as [| child l IH]; intros ls w Hrun Hinv;
    simpl in Hrun.
  { simplify_eq. simpl. split; [done | lia]. }
  destruct (parse_child ft qt bn ls child w) as [[e | ls1] w1] eqn:Hstep;
    [done |].
  destruct (parse_child_started _ _ _ _ _ _ _ _ Hstep) as (Hst & Hsid).
  destruct (IH _ _ Hrun) as (Hinv' & Hsid');
    [by eapply parse_child_counted |].
  split; [done |]. cbn [solutions_from]. rewrite Hsid', Hsid, Hst. lia.
Qed.

Lemma parse_results_counted results_tree ft qt bn w rows n s :
  (parse_results results_tree ft qt bn w).1 = inr (rows, n, s) →
  ∃ ls, rows = dfs ls ∧ n = row ls ∧ s = s_id ls ∧ loop_counted ft qt bn ls
        ∧ s_id ls = solutions_from false (iter results_tree).
Proof.
  rewrite parse_results_loop_result. intros Hrun.
  destruct (parse_children ft qt bn initial_loop_state (iter results_tree) w)
    as [[e | ls] w'] eqn:Hwalk; simpl in Hrun; simplify_eq.
  destruct (parse_children_counted _ _ _ _ _ _ _ _ Hwalk
              (initial_loop_state_counted ft qt bn)) as (Hinv & Hsid).
  exists ls. split_and!; try done.
Qed.

(** The rows returned are numbered from zero in the order they were made,
    and the row counter returned is their number. *)
Theorem parse_results_row_numbers results_tree ft qt bn w rows n s :
  (parse_results results_tree ft qt bn w).1 = inr (rows, n, s) →
  n = Z.of_nat (length rows)
  ∧ ∀ i r, rows !! i = Some r → lr_index r = Z.of_nat i.
Proof.
  intros Hrun.
  destruct (parse_results_counted _ _ _ _ _ _ _ _ Hrun)
    as (ls & -> & -> & -> & (Hrow & _ & Hrows & _) & _).
  split; [done |]. intros i r Hi. by destruct (Hrows i r Hi) as (? & _).
Qed.

Lemma parse_results_row_numbers_witness :
  2 = Z.of_nat (length sample_rows)
  ∧ ∀ i r, sample_rows !! i = Some r → lr_index r = Z.of_nat i.
Proof.
  apply (parse_results_row_numbers sample_results FT_F ORIGIN 1
           (initial_world sample_clock) sample_rows 2 1).
  vm_compute. reflexivity.
Defined.

(** The itinerary counter returned is the number of solution elements that
    follow the results-start marker; a solution element ahead of the marker
    is not counted.  The itinerary ids of the rows lie between 1 and that
    counter and never go down along the rows. *)
Theorem parse_results_solution_ids results_tree ft qt bn w rows n s :
  (parse_results results_tree ft qt bn w).1 = inr (rows, n, s) →
  s = solutions_from false (iter results_tree)
  ∧ Forall (λ r, 1 ≤ lr_solution_id r ≤ s) rows
  ∧ ∀ i j r1 r2, (i ≤ j)%nat → rows !! i = Some r1 → rows !! j = Some r2 →
                 lr_solution_id r1 ≤ lr_solution_id r2.
Proof.
  intros Hrun.
  destruct (parse_results_counted _ _ _ _ _ _ _ _ Hrun)
    as (ls & -> & -> & -> & (_ & _ & Hrows & Hmono & _) & Hsid).
  split_and!; [done | | done].
  apply Forall_forall. intros r Hin.
  apply list_elem_of_lookup in Hin as [i Hi].
  by destruct (Hrows i r Hi) as (_ & ? & _).
Qed.

Lemma parse_results_solution_ids_witness :
  ∃ rows,
    (parse_results sample_results_two FT_F ORIGIN 1
       (initial_world sample_clock)).1 = inr (rows, 3, 2)
    ∧ 2 = solutions_from false (iter sample_results_two)
    ∧ Forall (λ r, 1 ≤ lr_solution_id r ≤ 2) rows
    ∧ lr_solution_id <$> rows = [1; 2; 2].
Proof.
  eexists. split; [vm_compute; reflexivity |].
  split; [| split; [| vm_compute; reflexivity]];
    eapply (parse_results_solution_ids sample_results_two FT_F ORIGIN 1
              (initial_world sample_clock));
    vm_compute; reflexivity.
Defined.

(** Every row carries the name of the flight type, the name of the query
    type and the batch number the parser was called with. *)
Theorem parse_results_rows_arguments results_tree ft qt bn w rows n s :
  (parse_results results_tree ft qt bn w).1 = inr (rows, n, s) →
  Forall (λ r, lr_flight_type r = FlightType_name ft
               ∧ lr_query_type r = QueryType_name qt
               ∧ lr_batch_number r = bn) rows.
Proof.
  intros Hrun.
  destruct (parse_results_counted _ _ _ _ _ _ _ _ Hrun)
    as (ls & -> & -> & -> & (_ & _ & Hrows & _) & _).
  apply Forall_forall. intros r Hin.
  apply list_elem_of_lookup in Hin as [i Hi].
  by destruct (Hrows i r Hi) as (_ & _ & ? & ? & ?).
Qed.

Lemma parse_results_rows_arguments_witness :
  Forall (λ r, lr_flight_type r = "H" ∧ lr_query_type r = "DESTINATION"
               ∧ lr_batch_number r = 2) sample_rows_partial.
Proof.
  apply (parse_results_rows_arguments sample_results_partial FT_H DESTINATION 2
           (initial_world sample_clock) sample_rows_partial 1 1).
  vm_compute. reflexivity.
Defined.

(** ** What makes the parser raise *)

Lemma update_flight_details_missing child st w k :
  missing_key child = Some k →
  update_flight_details child st w = (inl (KeyError k), w).
Proof.
  unfold missing_key, update_flight_details, update_flight_info,
    update_aircraft_info, getitem.
  intros Hk. repeat case_decide; try done; try congruence;
    repeat case_match; by simplify_eq.
Qed.

Lemma update_flight_details_raises child st w e w' :
  update_flight_details child st w = (inl e, w') →
  ∃ k, missing_key child = Some k ∧ e = KeyError k
       ∧ k ∈ ["carrier"; "number"; "name"; "width"].
Proof.
  unfold missing_key, update_flight_details, update_flight_info,
    update_leg_info, update_aircraft_info, getitem, now.
  intros Hupd. repeat case_decide; try congruence;
    repeat case_match; simplify_eq; eexists; (split; [done |]);
    (split; [done |]); set_solver.
Qed.

Lemma parse_child_raises ft qt bn ls child w e w' :
  parse_child ft qt bn ls child w = (inl e, w') →
  ∃ k, is_Some (state ls) ∧ missing_key child = Some k ∧ e = KeyError k
       ∧ k ∈ ["carrier"; "number"; "name"; "width"].
Proof.
  unfold parse_child. intros Hstep.
  destruct (negb _); [done |].
  destruct (decide (tag child = "solution")) as [Hs | Hs].
  { unfold update_flight_details, handle_create_df_row in Hstep.
    rewrite Hs in Hstep. simpl in Hstep. done. }
  destruct (state ls) as [st |]; [| done].
  destruct (update_flight_details child st (process_dict_updates child w))
    as [[e0 | st'] w1] eqn:Hupd; simplify_eq.
  - apply update_flight_details_raises in Hupd as (k & ? & ? & ?). eauto 10.
  - unfold handle_create_df_row in Hstep.
    repeat case_decide; repeat case_match; simplify_eq.
Qed.

Lemma parse_child_missing ft qt bn ls child w k :
  started_yet ls = true → is_Some (state ls) → missing_key child = Some k →
  (parse_child ft qt bn ls child w).1 = inl (KeyError k).
Proof.
  intros Hst [st Hstate] Hk. unfold parse_child.
  rewrite Hst. assert (tag child ≠ "solution") as Hs.
  { intros Hs. unfold missing_key in Hk. rewrite Hs in Hk. done. }
  destruct (decide (tag child = "solution")); [done |].
  rewrite Hstate.
  rewrite (update_flight_details_missing _ _ _ _ Hk).
  by case_decide.
Qed.

Lemma parse_children_raises ft qt bn l ls w e w' :
  parse_children ft qt bn ls l w = (inl e, w') →
  ∃ pre child post ls1 w1,
    l = pre ++ child :: post
    ∧ parse_children ft qt bn ls pre w = (inr ls1, w1)
    ∧ parse_child ft qt bn ls1 child w1 = (inl e, w').
Proof.
  revert ls w. induction l as [| child l IH]; intros ls w Hrun; [done |].
  simpl in Hrun.
  destruct (parse_child ft qt bn ls child w) as [[e0 | ls1] w1] eqn:Hstep.
  - simplify_eq. by exists [], child, l, ls, w.
  - destruct (IH _ _ Hrun) as (pre & c & post & ls2 & w2 & -> & Hpre & Hc).
    exists (child :: pre), c, post, ls2, w2. split_and!; [done | | done].
    simpl. by rewrite Hstep.
Qed.

(** A flight element without its carrier or number, or an aircraft element
    without its name or width, met while a record is in progress, makes
    [parse_results] raise [KeyError] with the name of the first attribute
    that is missing: the rows made so far are not returned. *)
Theorem parse_results_key_error results_tree ft qt bn w pre child post ls k :
  iter results_tree = pre ++ child :: post →
  (parse_children ft qt bn initial_loop_state pre w).1 = inr ls →
  is_Some (state ls) → missing_key child = Some k →
  (parse_results results_tree ft qt bn w).1 = inl (KeyError k).
Proof.
  intros Hiter Hpre Hstate Hk.
  rewrite parse_results_loop_result, Hiter, parse_children_app.
  destruct (parse_children ft qt bn initial_loop_state pre w)
    as [[e | ls0] w1] eqn:Hwalk; simpl in Hpre; simplify_eq.
  pose proof (parse_children_wf _ _ _ _ _ _ _ _ Hwalk initial_loop_state_wf)
    as Hwf.
  cbn [parse_children].
  pose proof (parse_child_missing ft qt bn ls child w1 k (Hwf Hstate)
                Hstate Hk) as Hstep.
  by destruct (parse_child ft qt bn ls child w1) as [[e | ls1] w2];
    simpl in Hstep; simplify_eq.
Qed.

Lemma parse_results_key_error_witness :
  (parse_results sample_results_no_width FT_F ORIGIN 1
     (initial_world sample_clock)).1 = inl (KeyError "width").
Proof.
  apply (parse_results_key_error sample_results_no_width FT_F ORIGIN 1
           (initial_world sample_clock)
           (take 7 (iter sample_results_no_width))
           (leaf "aircraft" [("name", "Boeing 737")]) []
           (returned (parse_children FT_F ORIGIN 1 initial_loop_state
                        (take 7 (iter sample_results_no_width))
                        (initial_world sample_clock)).1
              initial_loop_state)).
  - reflexivity.
  - vm_compute. reflexivity.
  - vm_compute. eexists. reflexivity.
  - reflexivity.
Defined.

(** [parse_results] raises nothing else: when it raises, the walk has
    reached, with a record in progress, a flight or aircraft element that
    lacks one of the attributes its handler reads, and the exception is the
    [KeyError] of that attribute. *)
Theorem parse_results_raises_only results_tree ft qt bn w e :
  (parse_results results_tree ft qt bn w).1 = inl e →
  ∃ pre child post ls k,
    iter results_tree = pre ++ child :: post
    ∧ (parse_children ft qt bn initial_loop_state pre w).1 = inr ls
    ∧ is_Some (state ls) ∧ missing_key child = Some k ∧ e = KeyError k
    ∧ k ∈ ["carrier"; "number"; "name"; "width"].
Proof.
  rewrite parse_results_loop_result. intros Hrun.
  destruct (parse_children ft qt bn initial_loop_state (iter results_tree) w)
    as [[e0 | ls] w'] eqn:Hwalk; simpl in Hrun; simplify_eq.
  apply parse_children_raises in Hwalk
    as (pre & child & post & ls1 & w1 & Hiter & Hpre & Hstep).
  apply parse_child_raises in Hstep as (k & Hstate & Hk & -> & Hin).
  exists pre, child, post, ls1, k. rewrite Hpre. by split_and!.
Qed.

Lemma parse_results_raises_only_witness :
  ∃ pre child post k,
    iter sample_results_no_width = pre ++ child :: post
    ∧ missing_key child = Some k
    ∧ k ∈ ["carrier"; "number"; "name"; "width"].
Proof.
  destruct (parse_results_raises_only sample_results_no_width FT_F ORIGIN 1
              (initial_world sample_clock) (KeyError "width"))
    as (pre & child & post & ls & k & Hiter & _ & _ & Hk & _ & Hin).
  { vm_compute. reflexivity. }
  exists pre, child, post, k. split_and!; [exact Hiter | exact Hk | exact Hin].
Defined.

(** ** auxiliary.py: [append_to_dict_lists] *)

(** The target keeps its keys: a key of the row that the target lacks is
    ignored.  Every column of the target whose key the row has grows by the
    row's value, at its end, and every other column is left as it is, so
    that a row without one of the keys leaves the columns of the target
    with different lengths. *)
Theorem append_to_dict_lists_columns target row_dict :
  dom (append_to_dict_lists target row_dict) = dom target
  ∧ (∀ k l v, target !! k = Some l → row_dict !! k = Some v →
              append_to_dict_lists target row_dict !! k = Some (l ++ [v]))
  ∧ (∀ k, row_dict !! k = None →
          append_to_dict_lists target row_dict !! k = target !! k).
Proof.
  split_and!.
  - apply set_eq. intros k. rewrite !elem_of_dom, append_to_dict_lists_lookup.
    by rewrite fmap_is_Some.
  - intros k l v Hl Hv. by rewrite append_to_dict_lists_lookup, Hl, Hv.
  - intros k Hk. rewrite append_to_dict_lists_lookup, Hk.
    destruct (target !! k); simpl; by rewrite ?app_nil_r.
Qed.

Lemma append_to_dict_lists_columns_witness :
  append_to_dict_lists aircraft_dict (attrib sample_aircraft) !! "name"
  = Some ["Boeing 737"]
  ∧ append_to_dict_lists aircraft_dict (attrib sample_aircraft) !! "code"
    = Some [].
Proof.
  destruct (append_to_dict_lists_columns aircraft_dict (attrib sample_aircraft))
    as (_ & Hyes & Hno).
  split.
  - apply (Hyes "name" [] "Boeing 737"); reflexivity.
  - rewrite (Hno "code"); reflexivity.
Defined.

(** ** The fields of a row *)

Lemma update_aircraft_info_row child acc acc' i :
  update_aircraft_info child acc = inr acc' →
  ∃ name width, create_flight_row acc' i = row_of_record acc name width i.
Proof.
  unfold update_aircraft_info, getitem. intros Hupd.
  repeat case_match; simplify_eq. by eexists _, _.
Qed.

Lemma parse_children_rows_made (P : LegRecord → Prop) ft qt bn l ls w ls' w' :
  (∀ acc name width i,
     required_fields_nonempty acc → P (row_of_record acc name width i)) →
  parse_children ft qt bn ls l w = (inr ls', w') →
  Forall P (dfs ls) → Forall P (dfs ls').
Proof.
  intros HP. revert ls w.
  induction l as [| child l IH]; intros ls w Hrun Hall; simpl in Hrun.
  { by simplify_eq. }
  destruct (parse_child ft qt bn ls child w) as [[e | ls1] w1] eqn:Hstep;
    [done |].
  eapply IH; [done |].
  destruct (decide (tag child = "aircraft")) as [Ha | Ha];
    [destruct (state ls) as [acc |] eqn:Hacc, (started_yet ls) eqn:Hst |].
  2-5: by destruct (parse_child_no_row _ _ _ _ _ _ _ _ Hstep) as (-> & _); auto.
  destruct (parse_child_aircraft _ _ _ _ _ _ _ _ _ Hstep Ha Hacc Hst)
    as (acc' & Hupd & _ & _ & Hrow).
  destruct (validate_flight_details acc) eqn:Hv.
  - destruct Hrow as (-> & _). apply Forall_app. split; [done |].
    apply Forall_singleton.
    destruct (update_aircraft_info_row child acc acc' (row ls) Hupd)
      as (name & width & ->).
    by apply HP, validate_flight_details_required.
  - by destruct Hrow as (-> & _).
Qed.

(** No row the parser returns has a null or an empty text in its origin,
    destination, flight number or carrier code, a null aircraft or width, or
    a zero itinerary id. *)
Theorem parse_results_rows_fields results_tree ft qt bn w rows n s :
  (parse_results results_tree ft qt bn w).1 = inr (rows, n, s) →
  Forall (λ r, nonempty (lr_origin r) ∧ nonempty (lr_destination r)
               ∧ nonempty (lr_flight_no r) ∧ nonempty (lr_airline_code r)
               ∧ is_Some (lr_aircraft r) ∧ is_Some (lr_width r)
               ∧ lr_solution_id r ≠ 0) rows.
Proof.
  rewrite parse_results_loop_result. intros Hrun.
  destruct (parse_children ft qt bn initial_loop_state (iter results_tree) w)
    as [[e | ls] w1] eqn:Hwalk; simpl in Hrun; simplify_eq.
  eapply parse_children_rows_made; [| exact Hwalk | constructor].
  intros acc name width i (Ho & Hd & Hf & Hc & Hs). simpl.
  split_and!; eauto.
Qed.

Lemma parse_results_rows_fields_witness :
  Forall (λ r, nonempty (lr_origin r) ∧ nonempty (lr_destination r)
               ∧ nonempty (lr_flight_no r) ∧ nonempty (lr_airline_code r)
               ∧ is_Some (lr_aircraft r) ∧ is_Some (lr_width r)
               ∧ lr_solution_id r ≠ 0) sample_rows_partial.
Proof.
  apply (parse_results_rows_fields sample_results_partial FT_H DESTINATION 2
           (initial_world sample_clock) sample_rows_partial 1 1).
  vm_compute. reflexivity.
Defined.

(** * The reference tables *)

(** ** Dropping duplicates *)

Lemma NoDup_unique {A : Type} `{EqDecision A} (l : list A) : NoDup (unique l).
Proof.
  induction l as [| x l IH]; simpl; [constructor |].
  apply NoDup_cons. split.
  - rewrite list_elem_of_filter. naive_solver.
  - by apply NoDup_filter.
Qed.

Lemma unique_nil_inv {A : Type} `{EqDecision A} (l : list A) :
  unique l = [] → l = [].
Proof. by destruct l. Qed.

Lemma elem_of_drop_duplicates_on {A K : Type} `{EqDecision K} (key : A → K)
    (df : list A) x :
  x ∈ drop_duplicates_on key df → x ∈ df.
Proof.
  revert x. induction df as [| y df IH]; intros x; simpl; [done |].
  rewrite !elem_of_cons, list_elem_of_filter. naive_solver.
Qed.

Lemma drop_duplicates_on_keys {A K : Type} `{EqDecision K} (key : A → K)
    (df : list A) x :
  x ∈ df → ∃ y, y ∈ drop_duplicates_on key df ∧ key y = key x.
Proof.
  induction df as [| z df IH]; simpl; [by intros ?%elem_of_nil |].
  rewrite elem_of_cons. intros [-> | Hin].
  - exists z. split; [apply list_elem_of_here | done].
  - destruct (IH Hin) as (y & Hy & Hk).
    destruct (decide (key y = key z)) as [Hyz | Hyz].
    + exists z. split; [apply list_elem_of_here | congruence].
    + exists y. split; [| done]. apply list_elem_of_further.
      by apply list_elem_of_filter.
Qed.

Lemma NoDup_drop_duplicates_on {A K : Type} `{EqDecision K} (key : A → K)
    (df : list A) :
  NoDup (key <$> drop_duplicates_on key df).
Proof.
  induction df as [| x df IH]; simpl; [constructor |].
  apply NoDup_cons. split.
  - intros Hin. apply list_elem_of_fmap in Hin as (y & Hk & Hy).
    apply list_elem_of_filter in Hy as [Hne _]. by destruct Hne.
  - eapply sublist_NoDup; [exact IH |]. apply fmap_sublist, sublist_filter.
Qed.

Lemma drop_duplicates_on_id {A K : Type} `{EqDecision K} (key : A → K)
    (df : list A) :
  NoDup (key <$> df) → drop_duplicates_on key df = df.
Proof.
  induction df as [| x df IH]; simpl; [done |].
  intros [Hx Hdf]%NoDup_cons. rewrite IH by done. f_equal.
  apply filter_Forall_id, Forall_forall. intros y Hy Hk.
  apply Hx. rewrite <- Hk. apply list_elem_of_fmap. eauto.
Qed.

Lemma filter_nil_Forall {A : Type} (P : A → Prop) `{∀ x, Decision (P x)}
    (l : list A) :
  filter P l = [] ↔ Forall (λ x, ¬ P x) l.
Proof.
  induction l as [| x l IH]; simpl; [done |].
  rewrite filter_cons, Forall_cons. destruct (decide (P x)); naive_solver.
Qed.

Lemma duplicate_codes_nil codes : duplicate_codes codes = [] ↔ NoDup codes.
Proof.
  unfold duplicate_codes. split.
  - intros Hnil%unique_nil_inv. apply filter_nil_Forall in Hnil.
    assert (∀ l : list string,
              Forall (λ c, ¬ (1 < length (filter (λ c', c' = c) l))%nat) l →
              NoDup l) as Hgen; [| by apply Hgen].
    clear. induction l as [| a l IH]; [constructor |].
    intros [Ha Hl]%Forall_cons. apply NoDup_cons. split.
    + intros Hin. apply Ha. rewrite filter_cons.
      destruct (decide (a = a)); [| done]. simpl.
      assert (a ∈ filter (λ c', c' = a) l) as Hf
        by (by apply list_elem_of_filter).
      destruct (filter (λ c', c' = a) l); [by apply elem_of_nil in Hf |].
      simpl. lia.
    + apply IH. eapply Forall_impl; [exact Hl |]. intros c Hc Hlt. apply Hc.
      rewrite filter_cons. destruct (decide (a = c)); simpl; lia.
  - intros Hnd.
    assert (filter (λ c, (1 < length (filter (λ c', c' = c) codes))%nat) codes
            = []) as ->; [| done].
    apply filter_nil_Forall.
    induction Hnd as [| a l Ha Hnd IH]; [constructor |].
    apply Forall_cons. split.
    + rewrite filter_cons. destruct (decide (a = a)); [| done]. simpl.
      assert (filter (λ c', c' = a) l = []) as ->; [| simpl; lia].
      apply filter_nil_Forall, Forall_forall. by intros c Hc ->.
    + apply Forall_forall. intros c Hc.
      rewrite Forall_forall in IH. specialize (IH c Hc).
      rewrite filter_cons. destruct (decide (a = c)) as [-> | _]; [done |].
      done.
Qed.

(** ** Building the frames *)

Lemma column_reference_dict w t k : column w t k = reference_dict w t !! k.
Proof.
  unfold column, reference_dict. by destruct (dictionaries w !! t).
Qed.

Lemma get_column_inr d k c : get_column d k = inr c ↔ d !! k = Some c.
Proof. unfold get_column. destruct (d !! k); naive_solver. Qed.

Lemma get_column_succeeded d k :
  succeeded (get_column d k) = true ↔ is_Some (d !! k).
Proof.
  unfold get_column. destruct (d !! k); simpl; split; eauto; try done.
Qed.

Lemma same_length_spec cols :
  same_length cols = true ↔ ∃ n, Forall (λ c, length c = n) cols.
Proof.
  destruct cols as [| c cs]; simpl.
  { split; [by exists 0%nat | done]. }
  rewrite forallb_forall. split.
  - intros Hall. exists (length c). apply Forall_cons. split; [done |].
    apply Forall_forall. intros c' Hc'.
    apply Nat.eqb_eq, Hall. by apply list_elem_of_In.
  - intros [n [Hc Hcs]%Forall_cons] c' Hc'%list_elem_of_In.
    rewrite Forall_forall in Hcs. apply Nat.eqb_eq. rewrite Hc.
    by apply Hcs.
Qed.

(** A frame is built exactly when its columns are there and have one
    length. *)
Lemma frame_columns_aligned (d : gmap string (list string))
    (keys : list string) cols :
  Forall2 (λ k c, d !! k = Some c) keys cols →
  same_length cols = true
  ↔ ∃ n, ∀ k, k ∈ keys → ∃ c, d !! k = Some c ∧ length c = n.
Proof.
  intros Hcols. rewrite same_length_spec. split; intros [n Hn]; exists n.
  - intros k Hk. apply list_elem_of_lookup in Hk as [i Hi].
    destruct (Forall2_lookup_l _ _ _ _ _ Hcols Hi) as (c & Hc & Hd).
    exists c. split; [done |]. rewrite Forall_forall in Hn.
    apply Hn. by eapply list_elem_of_lookup_2.
  - apply Forall_forall. intros c Hc. apply list_elem_of_lookup in Hc as [i Hi].
    destruct (Forall2_lookup_r _ _ _ _ _ Hcols Hi) as (k & Hk & Hd).
    destruct (Hn k) as (c' & Hc' & Hlen); [by eapply list_elem_of_lookup_2 |].
    congruence.
Qed.

Lemma aligned_present (d : gmap string (list string)) (keys : list string) n k :
  (∀ k, k ∈ keys → ∃ c, d !! k = Some c ∧ length c = n) → k ∈ keys →
  ∃ c, get_column d k = inr c.
Proof.
  intros Hn Hk. destruct (Hn k Hk) as (c & Hc & _). exists c.
  by apply get_column_inr.
Qed.

Ltac frame_succeeded :=
  let Hn := fresh "Hn" in
  split;
  [ intros Hok;
    repeat match goal with
           | H : context [get_column ?d ?k] |- _ =>
               let c := fresh "c" in
               let Hc := fresh "Hc" in
               destruct (get_column d k) as [? | c] eqn:Hc;
               [simpl in H; done |]; apply get_column_inr in Hc
           end;
    match goal with
    | H : context [same_length ?cols] |- _ =>
        destruct (same_length cols) eqn:Hsame; [| done];
        eapply frame_columns_aligned; [| exact Hsame];
        repeat constructor; done
    end
  | intros [n Hn];
    repeat match goal with
           | |- context [get_column ?d ?k] =>
               let c := fresh "c" in
               let Hc := fresh "Hc" in
               destruct (aligned_present d _ n k Hn) as [c Hc];
               [set_solver |]; rewrite Hc; apply get_column_inr in Hc
           end;
    match goal with
    | |- context [same_length ?cols] =>
        assert (same_length cols = true) as ->; [| done];
        eapply frame_columns_aligned; [| by exists n];
        repeat constructor; done
    end ].

Lemma aircraft_frame_succeeded d :
  succeeded (aircraft_frame d) = true
  ↔ ∃ n, ∀ k, k ∈ ["code"; "name"; "width"] →
              ∃ c, d !! k = Some c ∧ length c = n.
Proof. unfold aircraft_frame. frame_succeeded. Qed.

Lemma carrier_frame_succeeded d :
  succeeded (carrier_frame d) = true
  ↔ ∃ n, ∀ k, k ∈ ["code"; "name"; "shortName"] →
              ∃ c, d !! k = Some c ∧ length c = n.
Proof. unfold carrier_frame. frame_succeeded. Qed.

Lemma city_frame_succeeded d :
  succeeded (city_frame d) = true
  ↔ ∃ n, ∀ k, k ∈ ["code"; "country"; "name"] →
              ∃ c, d !! k = Some c ∧ length c = n.
Proof. unfold city_frame. frame_succeeded. Qed.

Lemma airport_frame_succeeded d :
  succeeded (airport_frame d) = true
  ↔ ∃ n, ∀ k, k ∈ ["city"; "code"; "latitude"; "longitude"; "name"] →
              ∃ c, d !! k = Some c ∧ length c = n.
Proof. unfold airport_frame. frame_succeeded. Qed.

Lemma create_reference_dataframes_succeeded w countries :
  succeeded (create_reference_dataframes w countries).1
  = succeeded (aircraft_frame (reference_dict w "aircraft"))
    && succeeded (city_frame (reference_dict w "city"))
    && succeeded (airport_frame (reference_dict w "airport"))
    && succeeded (carrier_frame (reference_dict w "carrier")).
Proof.
  unfold create_reference_dataframes.
  destruct (aircraft_frame _); [done |].
  destruct (city_frame _); [done |].
  destruct (airport_frame _); [done |].
  by destruct (carrier_frame _).
Qed.

Lemma create_reference_dataframes_aligned w countries :
  succeeded (create_reference_dataframes w countries).1 = true
  ↔ (∃ n, columns_aligned w "aircraft" ["code"; "name"; "width"] n)
    ∧ (∃ n, columns_aligned w "city" ["code"; "country"; "name"] n)
    ∧ (∃ n, columns_aligned w "airport"
              ["city"; "code"; "latitude"; "longitude"; "name"] n)
    ∧ (∃ n, columns_aligned w "carrier" ["code"; "name"; "shortName"] n).
Proof.
  rewrite create_reference_dataframes_succeeded, !andb_true_iff.
  rewrite aircraft_frame_succeeded, city_frame_succeeded,
    airport_frame_succeeded, carrier_frame_succeeded.
  unfold columns_aligned.
  setoid_rewrite column_reference_dict. tauto.
Qed.

(** ** What the builder returns *)

(** [create_reference_dataframes] returns exactly when, for each of the
    four kinds, the columns of the module-level dict are all of one length;
    otherwise building the frame raises. *)
Theorem create_reference_dataframes_succeeds w countries :
  succeeded (create_reference_dataframes w countries).1 = true
  ↔ ∀ t keys, (t, keys) ∈ reference_columns → ∃ n, columns_aligned w t keys n.
Proof.
  rewrite create_reference_dataframes_aligned. unfold reference_columns. split.
  - intros (Ha & Hc & Hp & Hr) t keys Hin.
    repeat (apply elem_of_cons in Hin as [[= -> ->] | Hin]); try done.
    by apply elem_of_nil in Hin.
  - intros Hall. split_and!; apply Hall; set_solver.
Qed.

Lemma create_reference_dataframes_succeeds_witness :
  succeeded (create_reference_dataframes
               (parse_results sample_results FT_F ORIGIN 1
                  (initial_world sample_clock)).2 []).1 = false.
Proof.
  destruct (succeeded (create_reference_dataframes
                         (parse_results sample_results FT_F ORIGIN 1
                            (initial_world sample_clock)).2 []).1) eqn:Hok;
    [| reflexivity].
  pose proof (proj1 (create_reference_dataframes_succeeds
                       (parse_results sample_results FT_F ORIGIN 1
                          (initial_world sample_clock)).2 []) Hok) as Hall.
  destruct (Hall "aircraft" ["code"; "name"; "width"]) as [n Hn].
  { apply list_elem_of_here. }
  destruct (Hn "code") as (c1 & Hc1 & Hl1); [apply list_elem_of_here |].
  destruct (Hn "name") as (c2 & Hc2 & Hl2);
    [apply list_elem_of_further, list_elem_of_here |].
  vm_compute in Hc1. vm_compute in Hc2.
  injection Hc1 as <-. injection Hc2 as <-.
  simpl in Hl1, Hl2. rewrite <- Hl1 in Hl2. discriminate Hl2.
Defined.

(** When it returns: the city table is the city frame with the first row of
    every code, so its codes are distinct; the airport table holds, once
    each, the airports whose city is in the city table, with the country of
    that city, and nothing else, so an airport of an unknown city is left
    out and two airports of one code that differ elsewhere are both kept;
    the carrier table holds the carriers once each; the country table is
    the sheet of the workbook; and a warning is logged exactly when the
    city frame holds a code twice. *)
Theorem create_reference_dataframes_tables w countries r :
  (create_reference_dataframes w countries).1 = inr r →
  ∃ cities airports carriers,
    city_frame (reference_dict w "city") = inr cities
    ∧ airport_frame (reference_dict w "airport") = inr airports
    ∧ carrier_frame (reference_dict w "carrier") = inr carriers
    ∧ aircraft_frame (reference_dict w "aircraft") = inr (ref_aircraft r)
    ∧ ref_city r = drop_duplicates_on ci_code cities
    ∧ NoDup (ci_code <$> ref_city r)
    ∧ (∀ x, x ∈ ref_airport r
            ↔ ∃ a c, a ∈ airports ∧ c ∈ ref_city r ∧ ci_code c = ae_city a
                     ∧ x = with_country a c)
    ∧ NoDup (ref_airport r)
    ∧ (∀ x, x ∈ ref_carrier r ↔ x ∈ carriers)
    ∧ NoDup (ref_carrier r)
    ∧ ref_countries r = countries
    ∧ ((create_reference_dataframes w countries).2 = []
       ↔ NoDup (ci_code <$> cities)).
Proof.
  unfold create_reference_dataframes.
  destruct (aircraft_frame _) as [? | aircraft]; [done |].
  destruct (city_frame _) as [? | cities]; [done |].
  destruct (airport_frame _) as [? | airports]; [done |].
  destruct (carrier_frame _) as [? | carriers]; [done |].
  simpl. intros [= <-]. simpl. exists cities, airports, carriers.
  assert ((if decide (duplicate_codes (ci_code <$> cities) = []) then cities
           else drop_duplicates_on ci_code cities)
          = drop_duplicates_on ci_code cities) as ->.
  { case_decide as Hdup; [| done].
    apply duplicate_codes_nil in Hdup. by rewrite drop_duplicates_on_id. }
  split_and!; try done.
  - apply NoDup_drop_duplicates_on.
  - intros x. unfold drop_duplicates. rewrite elem_of_unique, list_elem_of_fmap.
    split.
    + intros ([a c] & -> & Hin). apply elem_of_merge_inner in Hin.
      exists a, c. simpl. naive_solver.
    + intros (a & c & Ha & Hc & Hk & ->). exists (a, c). split; [done |].
      by apply elem_of_merge_inner.
  - apply NoDup_unique.
  - intros x. apply elem_of_unique.
  - apply NoDup_unique.
  - rewrite <- duplicate_codes_nil. by case_decide.
Qed.

Lemma create_reference_dataframes_tables_witness :
  (create_reference_dataframes sample_reference_world []).1
  = inr sample_reference_tables
  ∧ NoDup (ci_code <$> ref_city sample_reference_tables)
  ∧ NoDup (ref_airport sample_reference_tables)
  ∧ ap_code <$> ref_airport sample_reference_tables = ["NBO"; "NBO"]
  ∧ (create_reference_dataframes sample_reference_world []).2 ≠ [].
Proof.
  assert ((create_reference_dataframes sample_reference_world []).1
          = inr sample_reference_tables) as Hrun
    by (vm_compute; reflexivity).
  destruct (create_reference_dataframes_tables sample_reference_world []
              sample_reference_tables Hrun)
    as (cities & airports & carriers & Hcities & _ & _ & _ & _ & Hcodes & _
        & Hrows & _ & _ & _ & Hlog).
  split_and!; [exact Hrun | exact Hcodes | exact Hrows | reflexivity |].
  intros Hnil. apply Hlog in Hnil.
  vm_compute in Hcities. injection Hcities as <-.
  apply NoDup_cons in Hnil as [Hnotin _]. apply Hnotin, list_elem_of_here.
Defined.

(** ** The parser and the builder together *)

Lemma initial_world_column clk t keys k :
  (t, keys) ∈ reference_columns → k ∈ keys →
  column (initial_world clk) t k = Some [].
Proof.
  unfold reference_columns. intros Hin Hk.
  repeat (apply elem_of_cons in Hin as [[= -> ->] | Hin]);
    try (by apply elem_of_nil in Hin);
    repeat (apply elem_of_cons in Hk as [-> | Hk]);
    try (by apply elem_of_nil in Hk); reflexivity.
Qed.

Lemma parse_results_column results_tree ft qt bn w t k :
  succeeded (parse_results results_tree ft qt bn w).1 = true →
  column (parse_results results_tree ft qt bn w).2 t k
  = (λ c, c ++ column_values t k (iter results_tree)) <$> column w t k.
Proof.
  intros Hrun. rewrite <- accumulate_column.
  apply column_dictionaries. rewrite parse_results_world.
  apply parse_children_accumulate.
  rewrite parse_results_loop_result in Hrun.
  by destruct (parse_children ft qt bn initial_loop_state
                 (iter results_tree) w) as [[] ?].
Qed.

(** After a parse from the start-up state that does not raise, the builder
    returns exactly when, for each kind, every attribute of the kind is held
    by the same number of elements of that kind in the document.  An element
    that lacks one of the attributes of its kind therefore makes the builder
    raise, unless as many elements lack each of the others. *)
Theorem parse_results_then_reference results_tree ft qt bn clk countries :
  succeeded (parse_results results_tree ft qt bn (initial_world clk)).1 = true →
  succeeded (create_reference_dataframes
               (parse_results results_tree ft qt bn (initial_world clk)).2
               countries).1 = true
  ↔ ∀ t keys, (t, keys) ∈ reference_columns →
      ∃ n, ∀ k, k ∈ keys →
                length (column_values t k (iter results_tree)) = n.
Proof.
  intros Hrun.
  assert (∀ t keys n, (t, keys) ∈ reference_columns →
            columns_aligned (parse_results results_tree ft qt bn
                               (initial_world clk)).2 t keys n
            ↔ ∀ k, k ∈ keys →
                   length (column_values t k (iter results_tree)) = n)
    as Hcol.
  { intros t keys n Hin. unfold columns_aligned.
    split; intros Hn k Hk; specialize (Hn k Hk).
    - destruct Hn as (c & Hc & Hlen).
      rewrite parse_results_column, (initial_world_column _ _ _ _ Hin Hk)
        in Hc by done.
      simpl in Hc. by simplify_eq.
    - rewrite parse_results_column, (initial_world_column _ _ _ _ Hin Hk)
        by done.
      simpl. eauto. }
  rewrite create_reference_dataframes_aligned.
  split.
  - intros (Ha & Hc & Hp & Hr) t keys Hin.
    assert (∃ n, columns_aligned
                   (parse_results results_tree ft qt bn (initial_world clk)).2
                   t keys n) as [n Hn].
    { unfold reference_columns in Hin.
      repeat (apply elem_of_cons in Hin as [[= -> ->] | Hin]); try done.
      by apply elem_of_nil in Hin. }
    exists n. by apply Hcol.
  - intros Hall.
    split_and!;
      match goal with
      | |- ∃ n, columns_aligned _ ?t ?keys n =>
          destruct (Hall t keys) as [n Hn];
            [unfold reference_columns; set_solver |];
            exists n; apply Hcol;
            [unfold reference_columns; set_solver | done]
      end.
Qed.

Lemma parse_results_then_reference_witness :
  succeeded (create_reference_dataframes sample_reference_world []).1 = true
  ↔ ∀ t keys, (t, keys) ∈ reference_columns →
      ∃ n, ∀ k, k ∈ keys →
                length (column_values t k (iter sample_results_airports)) = n.
Proof.
  apply (parse_results_then_reference sample_results_airports FT_F ORIGIN 1
           sample_clock []).
  vm_compute. reflexivity.
Defined.

(** * Further properties of the tables *)

(** ** Sorting *)

Lemma sort_insert_Permutation {A : Type} (le : A → A → bool) x (l : list A) :
  sort_insert le x l ≡ₚ x :: l.
Proof.
  induction l as [| y l IH]; simpl; [done |].
  destruct (le x y); [done |]. rewrite IH. apply Permutation_swap.
Qed.

Lemma sort_values_Permutation {A : Type} (le : A → A → bool) (l : list A) :
  sort_values le l ≡ₚ l.
Proof.
  unfold sort_values. induction l as [| x l IH]; simpl; [done |].
  by rewrite sort_insert_Permutation, IH.
Qed.

Section SortValues.

Context {A : Type} (le : A → A → bool).
Hypothesis le_total : ∀ a b, le a b = true ∨ le b a = true.
Hypothesis le_trans : ∀ a b c, le a b = true → le b c = true → le a c = true.

Lemma sort_insert_sorted x (l : list A) :
  StronglySorted (λ a b, le a b = true) l →
  StronglySorted (λ a b, le a b = true) (sort_insert le x l).
Proof.
  induction 1 as [| y l Hl IH Hy]; simpl.
  { repeat constructor. }
  destruct (le x y) eqn:Hxy.
  - constructor; [by constructor |]. constructor; [done |].
    eapply Forall_impl; [exact Hy |]. intros z Hz. by eapply le_trans.
  - constructor; [done |]. apply Forall_forall. intros z Hz.
    apply elem_of_sort_insert in Hz as [-> | Hz].
    + destruct (le_total x y); congruence.
    + by eapply Forall_forall in Hy.
Qed.

Lemma sort_values_sorted (l : list A) :
  StronglySorted (λ a b, le a b = true) (sort_values le l).
Proof.
  unfold sort_values. induction l as [| x l IH]; simpl; [constructor |].
  by apply sort_insert_sorted.
Qed.

End SortValues.

Lemma solution_departure_le_spec a b :
  solution_departure_le a b = true
  ↔ lr_solution_id (er_leg a) < lr_solution_id (er_leg b)
    ∨ (lr_solution_id (er_leg a) = lr_solution_id (er_leg b)
       ∧ er_departure_time a ≤ er_departure_time b).
Proof.
  unfold solution_departure_le.
  rewrite orb_true_iff, andb_true_iff, Z.ltb_lt, Z.eqb_eq, Z.leb_le. done.
Qed.

Lemma parse_all_Forall2 date_parse rows parsed :
  parse_all date_parse rows = inr parsed →
  Forall2 (λ r p, parse_times date_parse r = inr p) rows parsed.
Proof.
  revert parsed. induction rows as [| r rows IH]; intros parsed Hp;
    simpl in Hp.
  { simplify_eq. constructor. }
  destruct (parse_times date_parse r) as [e | x] eqn:Hr; [done |].
  destruct (parse_all date_parse rows) as [e | xs]; [done |].
  simplify_eq. constructor; [done |]. by apply IH.
Qed.

(** ** The enriched frame is sorted *)

(** When the enrichment returns, its rows are the joined rows with their
    two timestamps parsed, put in ascending order of itinerary id and, within
    an itinerary, of departure time. *)
Theorem enrich_flight_data_sorted date_parse flight_data reference_data rows :
  (enrich_flight_data date_parse flight_data reference_data).1 = inr rows →
  (∀ i j a b, (i < j)%nat → rows !! i = Some a → rows !! j = Some b →
     lr_solution_id (er_leg a) < lr_solution_id (er_leg b)
     ∨ (lr_solution_id (er_leg a) = lr_solution_id (er_leg b)
        ∧ er_departure_time a ≤ er_departure_time b))
  ∧ ∃ parsed,
      Forall2 (λ r p, parse_times date_parse r = inr p)
        (join_carrier
           (join_destination (join_origin flight_data reference_data)
              reference_data) reference_data) parsed
      ∧ rows ≡ₚ parsed.
Proof.
  unfold enrich_flight_data. intros Hrun.
  destruct (apply_parse _ _ _) as [e | u]; [done |].
  destruct (parse_all _ _) as [e | parsed] eqn:Hparsed; [done |].
  simpl in Hrun. simplify_eq. split.
  - assert (StronglySorted (λ a b, solution_departure_le a b = true)
              (sort_values solution_departure_le parsed)) as Hsorted.
    { apply sort_values_sorted.
      - intros a b. rewrite !solution_departure_le_spec. lia.
      - intros a b c. rewrite !solution_departure_le_spec. lia. }
    intros i j a b Hij Hi Hj. apply solution_departure_le_spec.
    revert Hsorted i j a b Hij Hi Hj.
    generalize (sort_values solution_departure_le parsed). intros l Hl.
    induction Hl as [| x l Hl IH Hx]; intros i j a b Hij Hi Hj.
    { by rewrite lookup_nil in Hi. }
    destruct j as [| j]; [lia |]. simpl in Hj. destruct i as [| i].
    + simpl in Hi. simplify_eq. eapply Forall_forall in Hx; [exact Hx |].
      by eapply list_elem_of_lookup_2.
    + simpl in Hi. eapply (IH i j); [lia | done | done].
  - exists parsed. split; [by apply parse_all_Forall2 |].
    apply sort_values_Permutation.
Qed.

Lemma enrich_flight_data_sorted_witness :
  ∃ a b,
    sample_enriched !! 0%nat = Some a ∧ sample_enriched !! 1%nat = Some b
    ∧ (lr_solution_id (er_leg a) < lr_solution_id (er_leg b)
       ∨ (lr_solution_id (er_leg a) = lr_solution_id (er_leg b)
          ∧ er_departure_time a ≤ er_departure_time b)).
Proof.
  destruct (enrich_flight_data_sorted sample_date_parse
              (clean_raw_flight_data (pd_concat [sample_rows]))
              sample_reference sample_enriched) as [Hsorted _].
  { vm_compute. reflexivity. }
  eexists _, _. split; [vm_compute; reflexivity |].
  split; [vm_compute; reflexivity |].
  apply (Hsorted 0%nat 1%nat); [lia | vm_compute; reflexivity ..].
Defined.

(** ** The itinerary fold returns *)

Lemma pipe_join_inr l :
  Forall is_Some l → ∃ s, pipe_join l = inr s.
Proof.
  intros Hall. unfold pipe_join.
  destruct (mapM_is_Some_2 id l) as [l' ->]; [| eauto].
  eapply Forall_impl; [exact Hall |]. done.
Qed.

Lemma aggregate_inr g :
  Forall (λ r, is_Some (lr_airline_code (er_leg r))
               ∧ is_Some (lr_aircraft (er_leg r))
               ∧ is_Some (lr_width (er_leg r))) g →
  ∃ x, aggregate g = inr x
       ∧ g_flights x = (λ r, lr_flight_no (er_leg r)) <$> g
       ∧ g_origin_iso_country_code x = agg_first (origin_col apc_country) g
       ∧ g_destination_iso_country_code x
         = agg_last (destination_col apc_country) g.
Proof.
  intros Hall. unfold aggregate.
  destruct (pipe_join_inr ((λ r, lr_airline_code (er_leg r)) <$> g))
    as [codes ->].
  { apply Forall_fmap. eapply Forall_impl; [exact Hall |]. naive_solver. }
  destruct (pipe_join_inr ((λ r, Some (er_airline_name r)) <$> g))
    as [names ->].
  { apply Forall_fmap, Forall_forall. intros r _. simpl. eauto. }
  destruct (pipe_join_inr ((λ r, lr_aircraft (er_leg r)) <$> g))
    as [aircrafts ->].
  { apply Forall_fmap. eapply Forall_impl; [exact Hall |]. naive_solver. }
  destruct (pipe_join_inr ((λ r, lr_width (er_leg r)) <$> g)) as [widths ->].
  { apply Forall_fmap. eapply Forall_impl; [exact Hall |]. naive_solver. }
  eexists. split; [reflexivity |]. done.
Qed.

Lemma aggregate_groups_inr (P : EnrichedRow → Prop) groups :
  (∀ r, P r → is_Some (lr_airline_code (er_leg r))
              ∧ is_Some (lr_aircraft (er_leg r))
              ∧ is_Some (lr_width (er_leg r))) →
  Forall (λ kg, Forall P kg.2) groups →
  ∃ cleaned,
    aggregate_groups groups = inr cleaned
    ∧ Forall2 (λ kg x, aggregate kg.2 = inr x) groups cleaned.
Proof.
  intros HP Hall. induction Hall as [| [k g] groups Hg _ IH]; simpl.
  { exists []. split; [done | constructor]. }
  destruct (aggregate_inr g) as (x & Hx & _).
  { eapply Forall_impl; [exact Hg |]. apply HP. }
  destruct IH as (xs & -> & Hxs). rewrite Hx.
  exists (x :: xs). split; [done |]. by constructor.
Qed.

Lemma join_flights_inr rows :
  Forall (λ r, Forall is_Some (g_flights r.1.1)) rows →
  ∃ its, join_flights rows = inr its ∧ length its = length rows.
Proof.
  induction 1 as [| r rows Hr _ IH]; simpl.
  { by exists []. }
  destruct (pipe_join_inr _ Hr) as [flights ->].
  destruct IH as (its & -> & Hlen). eexists. split; [done |].
  simpl. by rewrite Hlen.
Qed.

Lemma join_flights_length rows its :
  join_flights rows = inr its → length its = length rows.
Proof.
  revert its. induction rows as [| r rows IH]; intros its H; simpl in H.
  { by simplify_eq. }
  destruct (pipe_join (g_flights r.1.1)); [done |].
  destruct (join_flights rows) as [e | xs]; [done |]. simplify_eq.
  simpl. by rewrite (IH xs).
Qed.

Lemma groupby_groups {A : Type} (key : A → Z) (df : list A) :
  Forall (λ kg, Forall (λ r, r ∈ df) kg.2) (groupby key df)
  ∧ length (groupby key df) = length (unique (key <$> df)).
Proof.
  split.
  - apply Forall_forall. intros [k g] Hkg.
    apply elem_of_groupby in Hkg as [-> _]. simpl.
    apply Forall_forall. by intros r [_ ?]%list_elem_of_filter.
  - unfold groupby. rewrite length_fmap.
    apply Permutation_length, sort_values_Permutation.
Qed.

(** On legs that hold no null in their flight number, airline code,
    aircraft and width, as every row of the parser does, the fold returns,
    with at most one itinerary for each itinerary id when no code occurs
    twice in the country sheet. *)
Theorem transform_flight_structure_returns flight_data reference_data :
  Forall (λ r, is_Some (lr_flight_no (er_leg r))
               ∧ is_Some (lr_airline_code (er_leg r))
               ∧ is_Some (lr_aircraft (er_leg r))
               ∧ is_Some (lr_width (er_leg r))) flight_data →
  ∃ its,
    transform_flight_structure flight_data reference_data = inr its
    ∧ (NoDup (co_code <$> ref_countries reference_data) →
       (length its
        ≤ length (unique ((λ r, lr_solution_id (er_leg r)) <$> flight_data)))%nat).
Proof.
  intros Hall. unfold transform_flight_structure.
  pose proof (groupby_groups (λ r, lr_solution_id (er_leg r)) flight_data)
    as [Hgroups Hcount].
  destruct (aggregate_groups_inr
              (λ r, is_Some (lr_flight_no (er_leg r))
                    ∧ is_Some (lr_airline_code (er_leg r))
                    ∧ is_Some (lr_aircraft (er_leg r))
                    ∧ is_Some (lr_width (er_leg r)))
              (groupby (λ r, lr_solution_id (er_leg r)) flight_data))
    as (cleaned & Hagg & Hcleaned).
  { naive_solver. }
  { eapply Forall_impl; [exact Hgroups |]. intros [k g] Hg. simpl in *.
    eapply Forall_impl; [exact Hg |]. intros r Hr.
    by eapply Forall_forall in Hall. }
  rewrite Hagg.
  assert (Forall (λ x, Forall is_Some (g_flights x)) cleaned) as Hflights.
  { apply Forall_forall. intros x Hx.
    apply list_elem_of_lookup in Hx as [i Hi].
    destruct (Forall2_lookup_r _ _ _ _ _ Hcleaned Hi) as ([k g] & Hkg & Hx).
    simpl in Hx.
    destruct (aggregate_inr g) as (x' & Hx' & Hfl & _).
    { apply list_elem_of_lookup_2 in Hkg.
      eapply Forall_forall in Hgroups; [| exact Hkg]. simpl in Hgroups.
      eapply Forall_impl; [exact Hgroups |]. intros r Hr.
      eapply Forall_forall in Hall; [| exact Hr]. naive_solver. }
    rewrite Hx in Hx'. simplify_eq. rewrite Hfl.
    apply Forall_fmap.
    apply list_elem_of_lookup_2 in Hkg.
    eapply Forall_forall in Hgroups; [| exact Hkg]. simpl in Hgroups.
    eapply Forall_impl; [exact Hgroups |]. intros r Hr.
    eapply Forall_forall in Hall; [| exact Hr]. simpl. naive_solver. }
  destruct (join_flights_inr (join_countries cleaned reference_data))
    as (its & Hits & Hlen).
  { apply Forall_forall. intros [[x c1] c2] Hin. simpl.
    unfold join_countries in Hin.
    apply elem_of_merge_inner in Hin as (Hin & _ & _).
    apply elem_of_merge_inner in Hin as (Hx & _ & _).
    by eapply Forall_forall in Hflights. }
  exists its. split; [done |]. intros Hnd.
  assert (NoDup ((λ c, Some (co_code c)) <$> ref_countries reference_data))
    as Hkeys.
  { rewrite (list_fmap_compose co_code Some). apply NoDup_fmap_2; [| done].
    by intros ? ? [= ->]. }
  rewrite Hlen. unfold join_countries.
  rewrite <- (length_fmap (λ o, o.1)
                (merge_inner (merge_inner cleaned _ _ _) _ _ _)).
  rewrite merge_inner_unique_keys by done.
  etrans; [apply length_filter |].
  rewrite <- (length_fmap (λ o, o.1) (merge_inner cleaned _ _ _)).
  rewrite merge_inner_unique_keys by done.
  etrans; [apply length_filter |].
  rewrite <- (Forall2_length _ _ _ Hcleaned). by rewrite Hcount.
Qed.

Lemma transform_flight_structure_returns_witness :
  ∃ its,
    transform_flight_structure (sample_enriched ++ sample_single_leg)
      sample_reference = inr its
    ∧ (length its ≤ 2)%nat.
Proof.
  destruct (transform_flight_structure_returns
              (sample_enriched ++ sample_single_leg) sample_reference)
    as (its & Hits & Hlen).
  { apply (bool_decide_unpack _). vm_compute. exact I. }
  exists its. split; [exact Hits |].
  apply Hlen. apply (bool_decide_unpack _). vm_compute. exact I.
Defined.

(** ** The frame of the metrics step *)


(** * The workbook *)

Lemma FlightType_getitem_name ft :
  FlightType_getitem (FlightType_name ft) = inr ft.
Proof. by destruct ft. Qed.

Lemma FlightType_getitem_inr code ft :
  FlightType_getitem code = inr ft → FlightType_name ft = code.
Proof.
  unfold FlightType_getitem. intros Hget.
  destruct (list_find _ _) as [[i ft'] |] eqn:Hfind; simplify_eq.
  by apply list_find_Some in Hfind as (_ & ? & _).
Qed.

Lemma get_flight_types_foldl codes fts log :
  foldl (λ acc code,
           match FlightType_getitem code with
           | inr flight_type => (acc.1 ++ [flight_type], acc.2)
           | inl _ =>
               (acc.1,
                acc.2 ++ [LogWarning ("Unknown flight type code: " +:+ code)])
           end) (fts, log) codes
  = (fts ++ omap (λ c, match FlightType_getitem c with
                       | inr ft => Some ft
                       | inl _ => None
                       end) codes,
     log ++ ((λ c, LogWarning ("Unknown flight type code: " +:+ c))
               <$> filter (λ c, FlightType_getitem c = inl (KeyError c)) codes)).
Proof.
  revert fts log. induction codes as [| c codes IH]; intros fts log; simpl.
  { by rewrite !app_nil_r. }
  rewrite filter_cons.
  destruct (FlightType_getitem c) as [e | ft] eqn:Hc; rewrite IH; simpl.
  - assert (e = KeyError c) as ->.
    { unfold FlightType_getitem in Hc. by repeat case_match; simplify_eq. }
    rewrite ?decide_True by done. simpl. by rewrite <- app_assoc.
  - rewrite ?decide_False by done. by rewrite <- app_assoc.
Qed.

Lemma FlightType_known c :
  c ∈ FlightType_name <$> all_flight_types
  ↔ ∃ ft, FlightType_getitem c = inr ft.
Proof.
  split.
  - intros (ft & -> & _)%list_elem_of_fmap. eexists.
    apply FlightType_getitem_name.
  - intros [ft Hft]. apply FlightType_getitem_inr in Hft as <-.
    apply list_elem_of_fmap. exists ft. split; [done |].
    destruct ft; set_solver.
Qed.

Lemma FlightType_getitem_inl c e :
  FlightType_getitem c = inl e → e = KeyError c.
Proof.
  unfold FlightType_getitem. intros H. by repeat case_match; simplify_eq.
Qed.

Lemma FlightType_names_known (l : list string) :
  FlightType_name <$> omap (λ c, match FlightType_getitem c with
                                 | inr ft => Some ft
                                 | inl _ => None
                                 end) l
  = filter (λ c, c ∈ FlightType_name <$> all_flight_types) l.
Proof.
  induction l as [| c l IH]; [done |]. cbn [omap list_omap].
  rewrite filter_cons.
  destruct (FlightType_getitem c) as [e | ft] eqn:Hc.
  - rewrite decide_False; [done |]. rewrite FlightType_known, Hc.
    by intros [? ?].
  - rewrite decide_True by (rewrite FlightType_known; eauto).
    rewrite fmap_cons, IH. f_equal. by apply FlightType_getitem_inr.
Qed.

Lemma FlightType_names_unknown (l : list string) :
  filter (λ c, FlightType_getitem c = inl (KeyError c)) l
  = filter (λ c, c ∉ FlightType_name <$> all_flight_types) l.
Proof.
  apply list_filter_iff. intros c. rewrite FlightType_known. split.
  - intros Hc [ft Hft]. congruence.
  - intros Hc. destruct (FlightType_getitem c) as [e | ft] eqn:Hget.
    + by rewrite (FlightType_getitem_inl _ _ Hget).
    + destruct Hc. eauto.
Qed.

Lemma FlightType_names_length (l : list string) :
  (length (omap (λ c, match FlightType_getitem c with
                      | inr ft => Some ft
                      | inl _ => None
                      end) l)
   + length (filter (λ c, FlightType_getitem c = inl (KeyError c)) l)
   = length l)%nat.
Proof.
  induction l as [| c l IH]; [done |]. cbn [omap list_omap].
  rewrite filter_cons.
  destruct (FlightType_getitem c) as [e | ft] eqn:Hc.
  - pose proof (FlightType_getitem_inl _ _ Hc) as ->.
    rewrite decide_True by done. simpl. lia.
  - rewrite decide_False by done. simpl. lia.
Qed.

(** A member is found again under its own name, and a name that is found
    is the name of the member it gives.  So the flight types the workbook
    selects are the selected codes that name a member, in sheet order, each
    under the name the parser later writes in its rows, and every other
    selected code is reported in a warning and left out. *)
Theorem get_flight_types_selected (sheet : list FlightTypeRow) :
  let selected := ftr_code <$> filter (λ r, ftr_selected r = Some "X") sheet in
  (∀ ft, FlightType_getitem (FlightType_name ft) = inr ft)
  ∧ FlightType_name <$> (get_flight_types sheet).1
    = filter (λ c, c ∈ FlightType_name <$> all_flight_types) selected
  ∧ (get_flight_types sheet).2
    = (λ c, LogWarning ("Unknown flight type code: " +:+ c))
        <$> filter (λ c, c ∉ FlightType_name <$> all_flight_types) selected
  ∧ (length (get_flight_types sheet).1 + length (get_flight_types sheet).2
     = length selected)%nat.
Proof.
  intros selected. unfold get_flight_types. fold selected.
  rewrite get_flight_types_foldl. cbn [fst snd app].
  split_and!.
  - apply FlightType_getitem_name.
  - apply FlightType_names_known.
  - by rewrite FlightType_names_unknown.
  - rewrite length_fmap. apply FlightType_names_length.
Qed.

Lemma get_flight_types_selected_witness :
  get_flight_types sample_flight_types_sheet
  = ([FT_F; FT_H],
     [ LogWarning "Unknown flight type code: I";
       LogWarning "Unknown flight type code: f" ])
  ∧ FlightType_name <$> (get_flight_types sample_flight_types_sheet).1
    = filter (λ c, c ∈ FlightType_name <$> all_flight_types)
        ["F"; "I"; "H"; "f"].
Proof.
  split; [vm_compute; reflexivity |].
  exact (proj1 (proj2 (get_flight_types_selected sample_flight_types_sheet))).
Defined.

(** No row of the sheet is in two of the three frames; a row is in one of
    them exactly when each of its two marks is an X or empty and not both
    are empty; and the three frames together hold no more rows than the
    sheet. *)
Theorem get_origins_and_destinations_disjoint (sheet : list LocationRow) r :
  let '(origins, destinations, origin_and_destination) :=
    get_origins_and_destinations sheet in
  ¬ (r ∈ origins ∧ r ∈ destinations)
  ∧ ¬ (r ∈ origins ∧ r ∈ origin_and_destination)
  ∧ ¬ (r ∈ destinations ∧ r ∈ origin_and_destination)
  ∧ (r ∈ origins ∨ r ∈ destinations ∨ r ∈ origin_and_destination
     ↔ r ∈ sheet
       ∧ (loc_origin r = Some "X" ∨ loc_origin r = None)
       ∧ (loc_destination r = Some "X" ∨ loc_destination r = None)
       ∧ ¬ (loc_origin r = None ∧ loc_destination r = None))
  ∧ (length origins + length destinations + length origin_and_destination
     ≤ length sheet)%nat.
Proof.
  unfold get_origins_and_destinations. rewrite !list_elem_of_filter.
  split_and!; try naive_solver.
  induction sheet as [| x sheet IH]; [done |].
  rewrite !filter_cons. repeat case_decide; simpl; try lia; naive_solver.
Qed.

Lemma get_origins_and_destinations_disjoint_witness :
  (loc_iata <$> (get_origins_and_destinations sample_locations_sheet).1.1,
   loc_iata <$> (get_origins_and_destinations sample_locations_sheet).1.2,
   loc_iata <$> (get_origins_and_destinations sample_locations_sheet).2)
  = (["MBA"], ["DXB"], ["NBO"])
  ∧ ¬ (mkLocationRow "NBO" (Some "X") (Some "X")
         ∈ (get_origins_and_destinations sample_locations_sheet).1.1
       ∧ mkLocationRow "NBO" (Some "X") (Some "X")
           ∈ (get_origins_and_destinations sample_locations_sheet).2).
Proof.
  split; [vm_compute; reflexivity |].
  exact (proj1 (proj2 (get_origins_and_destinations_disjoint
                         sample_locations_sheet
                         (mkLocationRow "NBO" (Some "X") (Some "X"))))).
Defined.
